(** * In-car telemetry demo: the cloud relay (C1) and the sensor emitters (C5)

    A shallow embedding of [C1-cloud-communication/cloud_communicator.py]
    and of the generators and the publish loops of
    [C5-data-sensors/sensor_simulator.py].

    - Python values that travel as JSON are values of [json]; [JNull] is
      Python's [None].
    - A coroutine is a function from the state of the world to an outcome
      (a returned value or a raised exception) and a new world: [prog W A].
      [try_except] is Python's [try]/[except].
    - The Redis client, the aiohttp session and the runtime (clock, sleep)
      are interfaces; the relay's helpers are written once against them and
      run either against a scripted environment ([world]) or against a
      key-value store ([gmap string string]).
    - Clock readings and durations are rationals: every float is one, the
      rounding of float arithmetic is not modelled.
    - The sensor generators are modelled over the real numbers. *)

From Stdlib Require Import ZArith QArith Qminmax Lqa String List Bool Lia.
From Stdlib Require Import Reals Lra.
From stdpp Require Import base option list gmap strings.

#[local] Set Warnings "-register-all".
#[local] Set Warnings "-notation-overridden".
#[local] Set Warnings "-ambiguous-paths".
Local Open Scope string_scope.
Local Open Scope Z_scope.

(** ** JSON values (Python objects after [json.loads]) *)

Inductive json : Type :=
| JNull
| JBool (b : bool)
| JNum (q : Q)
| JStr (s : string)
| JArr (items : list json)
| JObj (fields : list (string * json)).

(** Python truthiness, as used by [if car_data:] and [if commands:]. *)
Definition truthy (v : json) : bool :=
  match v with
  | JNull => false
  | JBool b => b
  | JNum q => negb (Qeq_bool q 0)
  | JStr s => negb (String.eqb s "")
  | JArr items => match items with [] => false | _ => true end
  | JObj fields => match fields with [] => false | _ => true end
  end.

(** Truthiness of the [bytes] that [redis.get] returns. *)
Definition bytes_truthy (s : string) : bool := negb (String.eqb s "").

Fixpoint assoc (k : string) (fields : list (string * json)) : option json :=
  match fields with
  | [] => None
  | (k', v) :: rest => if String.eqb k k' then Some v else assoc k rest
  end.

(** ** Exceptions and outcomes *)

Inductive exn : Type :=
| TimeoutError        (* asyncio.TimeoutError *)
| ClientError         (* aiohttp.ClientError: connection refused, reset, ... *)
| RedisError          (* redis.exceptions.RedisError *)
| JSONDecodeError
| TypeError
| AttributeError
| RuntimeError        (* any other subclass of Exception *)
| KeyboardInterrupt   (* BaseException only *)
| CancelledError      (* BaseException only, since Python 3.8 *)
| SystemExit.         (* BaseException only *)

(** [except Exception] catches exactly these. *)
Definition is_Exception (e : exn) : bool :=
  match e with
  | KeyboardInterrupt | CancelledError | SystemExit => false
  | _ => true
  end.

Inductive outcome (A : Type) : Type :=
| Returns (a : A)
| Raises (e : exn).
Arguments Returns {A} a.
Arguments Raises {A} e.

(** [d.get(k, default)]: only a dict has [.get]. *)
Definition dict_get (d : json) (k : string) (default : json) : outcome json :=
  match d with
  | JObj fields => Returns (match assoc k fields with Some v => v | None => default end)
  | _ => Raises AttributeError
  end.

Fixpoint chars (s : string) : list json :=
  match s with
  | EmptyString => []
  | String c rest => JStr (String c EmptyString) :: chars rest
  end.

(** [for x in v]: lists give their items, dicts their keys, strings their
    characters; nothing else is iterable. *)
Definition py_iter (v : json) : outcome (list json) :=
  match v with
  | JArr items => Returns items
  | JObj fields => Returns (map (fun kv => JStr (fst kv)) fields)
  | JStr s => Returns (chars s)
  | _ => Raises TypeError
  end.

(** [len(v)]. *)
Definition py_len (v : json) : outcome nat :=
  match v with
  | JArr items => Returns (length items)
  | JObj fields => Returns (length fields)
  | JStr s => Returns (String.length s)
  | _ => Raises TypeError
  end.

(** ** Coroutines: state and exceptions *)

Definition prog (W A : Type) : Type := W -> outcome A * W.

Definition ret {W A} (a : A) : prog W A := fun w => (Returns a, w).
Definition raise {W A} (e : exn) : prog W A := fun w => (Raises e, w).
Definition lift {W A} (o : outcome A) : prog W A := fun w => (o, w).

Definition bind {W A B} (m : prog W A) (k : A -> prog W B) : prog W B :=
  fun w =>
    match m w with
    | (Returns a, w') => k a w'
    | (Raises e, w') => (Raises e, w')
    end.

(** [try: m except ...: h]. The handler table [h] answers [None] for an
    exception no [except] clause matches, which then propagates; whatever
    the chosen handler raises propagates too. *)
Definition try_except {W A} (m : prog W A) (h : exn -> option (prog W A)) : prog W A :=
  fun w =>
    match m w with
    | (Returns a, w') => (Returns a, w')
    | (Raises e, w') =>
        match h e with
        | Some handler => handler w'
        | None => (Raises e, w')
        end
    end.

Declare Scope prog_scope.
Delimit Scope prog_scope with prog.
Notation "x <- m ;; k" := (bind m (fun x => k))
  (at level 100, m at next level, right associativity) : prog_scope.
Notation "m ;;; k" := (bind m (fun _ => k))
  (at level 100, right associativity) : prog_scope.
Local Open Scope prog_scope.

(** [for x in items: body x]. *)
Fixpoint for_each {W A} (items : list A) (body : A -> prog W unit) : prog W unit :=
  match items with
  | [] => ret tt
  | x :: rest => body x ;;; for_each rest body
  end.

(** [except Exception: h]. *)
Definition except_Exception {W A} (h : prog W A) : exn -> option (prog W A) :=
  fun e => if is_Exception e then Some h else None.

(** ** The collaborators, as interfaces *)

(** What [aiohttp] hands back for a request: the status line, and what
    awaiting [response.json()] and [response.text()] would give. *)
Record response : Type := mkResponse {
  status : Z;
  response_json : outcome json;
  response_text : outcome string;
}.

Class RedisClient (W : Type) : Type := {
  redis_get : string -> prog W (option string);
  redis_delete : string -> prog W Z;
  redis_publish : string -> json -> prog W Z;
}.

Class ClientSession (W : Type) : Type := {
  session_post : string -> json -> prog W response;
}.

Class Runtime (W : Type) : Type := {
  time_time : prog W Q;
  utcnow_isoformat : prog W string;
  asyncio_sleep : Q -> prog W unit;
}.

(** ** Configuration and the communicator object *)

Record CloudConfig : Type := mkCloudConfig {
  cloud_endpoint : string;
  api_key : string;
  redis_url : string;
  license_plate : string;
  send_interval : Z;          (* seconds; 10 by default *)
  c2_data_key : string;       (* "car_data" by default *)
  b2_commands_key : string;   (* "car_commands" by default *)
}.

(** [redis_client] and [session] say whether [initialize] has set the
    attribute ([true]) or it is still [None] ([false]). [self.running] is
    mutable and lives in the world. *)
Record CloudCommunicator : Type := mkCloudCommunicator {
  config : CloudConfig;
  redis_client : bool;
  session : bool;
}.

Definition latest_data_key (self : CloudCommunicator) : string :=
  "car:" ++ license_plate (config self) ++ ":latest_data".
Definition commands_channel (self : CloudCommunicator) : string :=
  "car:" ++ license_plate (config self) ++ ":commands".
Definition pending_commands_key (self : CloudCommunicator) : string :=
  "car:" ++ license_plate (config self) ++ ":pending_commands".
Definition car_data_url (self : CloudCommunicator) : string :=
  cloud_endpoint (config self) ++ "/api/car-data".
Definition car_status_url (self : CloudCommunicator) : string :=
  cloud_endpoint (config self) ++ "/api/car-status".

(** ** The payloads the relay builds *)

(** [payload] of [send_data_to_cloud]. *)
Definition car_data_payload (self : CloudCommunicator) (now : string)
    (car_data : json) : json :=
  JObj [("timestamp", JStr now);
        ("license_plate", JStr (license_plate (config self)));
        ("data", car_data);
        ("source", JStr "C1_cloud_communicator")].

(** [command_data] of [process_cloud_commands]. *)
Definition command_data (self : CloudCommunicator) (now : string)
    (action parameters : json) : json :=
  JObj [("command", action);
        ("parameters", parameters);
        ("source", JStr "cloud");
        ("timestamp", JStr now);
        ("license_plate", JStr (license_plate (config self)))].

(** [payload] of [send_status_update]; [details or {}]. *)
Definition status_payload (self : CloudCommunicator) (now : string)
    (st : string) (details : json) : json :=
  JObj [("timestamp", JStr now);
        ("license_plate", JStr (license_plate (config self)));
        ("status", JStr st);
        ("details", if truthy details then details else JObj []);
        ("source", JStr "C1_cloud_communicator")].

(** ** The relay's helper coroutines *)

Section Helpers.
Context {W : Type} `{!RedisClient W, !ClientSession W, !Runtime W}.

(** [json.loads]: the text of a JSON document to its value, [None] where
    Python raises [JSONDecodeError]. *)
Variable json_loads : string -> option json.

Definition loads (text : string) : prog W json :=
  match json_loads text with
  | Some v => ret v
  | None => raise JSONDecodeError
  end.

(** [get_latest_data_from_c2]: a missing key, a failed read and undecodable
    bytes all give [None]. *)
Definition get_latest_data_from_c2 (self : CloudCommunicator) : prog W json :=
  try_except
    (if negb (redis_client self) then ret JNull
     else
       data_json <- redis_get (latest_data_key self) ;;
       match data_json with
       | Some text =>
           if bytes_truthy text then
             data <- loads text ;;
             ret data
           else ret JNull
       | None => ret JNull
       end)
    (except_Exception (ret JNull)).

(** The body of the loop of [process_cloud_commands]: build
    [command_data] and publish it for B2. *)
Definition republish (self : CloudCommunicator) (command : json) : prog W unit :=
  action <- lift (dict_get command "action" JNull) ;;
  parameters <- lift (dict_get command "parameters" (JObj [])) ;;
  now <- utcnow_isoformat ;;
  (if redis_client self
   then redis_publish (commands_channel self)
          (command_data self now action parameters)
   else raise AttributeError) ;;;
  ret tt.

(** [process_cloud_commands]: one publish per command, in order; the first
    exception ends the loop and is swallowed. *)
Definition process_cloud_commands (self : CloudCommunicator) (commands : json)
  : prog W unit :=
  try_except
    (items <- lift (py_iter commands) ;;
     for_each items (republish self))
    (except_Exception (ret tt)).

(** [send_data_to_cloud]. *)
Definition send_data_to_cloud (self : CloudCommunicator) (car_data : json)
  : prog W bool :=
  try_except
    (if negb (session self) then ret false
     else
       now <- utcnow_isoformat ;;
       resp <- session_post (car_data_url self)
                 (car_data_payload self now car_data) ;;
       if status resp =? 200 then
         result <- lift (response_json resp) ;;
         lift (dict_get result "message" (JStr "OK")) ;;;
         commands <- lift (dict_get result "commands" (JArr [])) ;;
         (if truthy commands then process_cloud_commands self commands
          else ret tt) ;;;
         ret true
       else
         lift (response_text resp) ;;;
         ret false)
    (fun e =>
       match e with
       | TimeoutError => Some (ret false)
       | _ => except_Exception (ret false) e
       end).

(** [check_b2_for_commands]: read the pending-commands key and, when it
    holds something, decode it, delete the key and return the value. *)
Definition check_b2_for_commands (self : CloudCommunicator) : prog W json :=
  try_except
    (if negb (redis_client self) then ret JNull
     else
       commands_json <- redis_get (pending_commands_key self) ;;
       match commands_json with
       | Some text =>
           if bytes_truthy text then
             commands <- loads text ;;
             redis_delete (pending_commands_key self) ;;;
             lift (py_len commands) ;;;
             ret commands
           else ret JNull
       | None => ret JNull
       end)
    (except_Exception (ret JNull)).

(** [send_status_update]. *)
Definition send_status_update (self : CloudCommunicator) (st : string)
    (details : json) : prog W bool :=
  try_except
    (if negb (session self) then ret false
     else
       now <- utcnow_isoformat ;;
       resp <- session_post (car_status_url self)
                 (status_payload self now st details) ;;
       if status resp =? 200 then ret true else ret false)
    (except_Exception (ret false)).

(** Two drains in a row. *)
Definition drain_twice (self : CloudCommunicator) : prog W (json * json) :=
  first <- check_b2_for_commands self ;;
  second <- check_b2_for_commands self ;;
  ret (first, second).

End Helpers.

(** ** The scripted world the main loop runs in *)

(** What the relay did to the outside, oldest first. *)
Inductive event : Type :=
| EvGet (key : string)
| EvDelete (key : string)
| EvPublish (channel : string) (message : json)
| EvPost (url : string) (payload : json)
| EvSleep (seconds : Q).

(** The behaviour of everything outside the relay during one stretch of its
    run (the start-up, one cycle of the loop, or the shutdown). Reads,
    deletes and posts are answered by key or URL; publishes, sleeps and the
    wall clock by the number of awaited calls made so far in the stretch.
    [env_latency n] is the time the [n]-th awaited call takes, and
    [env_sleep n] the time by which a sleep oversleeps, or what interrupts
    it. [env_stop] says that some other task cleared [self.running]. *)
Record env : Type := mkEnv {
  env_get : string -> outcome (option string);
  env_delete : string -> outcome Z;
  env_publish : nat -> outcome Z;
  env_post : string -> outcome response;
  env_sleep : nat -> outcome Q;
  env_utcnow : nat -> string;
  env_latency : nat -> Q;
  env_stop : bool;
}.

Record world : Type := mkWorld {
  w_env : env;
  w_calls : nat;
  w_clock : Q;                  (* time.time() *)
  running : bool;               (* self.running *)
  consecutive_failures : Z;     (* the local of main_loop *)
  w_trace : list event;
}.

Definition awaited (ev : event) (w : world) : world :=
  {| w_env := w_env w;
     w_calls := S (w_calls w);
     w_clock := (w_clock w + env_latency (w_env w) (w_calls w))%Q;
     running := running w;
     consecutive_failures := consecutive_failures w;
     w_trace := w_trace w ++ [ev] |}.

(** A sleep of [seconds] was asked for and took [took]. *)
Definition slept (seconds took : Q) (w : world) : world :=
  {| w_env := w_env w;
     w_calls := S (w_calls w);
     w_clock := (w_clock w + took)%Q;
     running := running w;
     consecutive_failures := consecutive_failures w;
     w_trace := w_trace w ++ [EvSleep seconds] |}.

Definition with_failures (n : Z) (w : world) : world :=
  {| w_env := w_env w; w_calls := w_calls w; w_clock := w_clock w;
     running := running w; consecutive_failures := n; w_trace := w_trace w |}.

Definition with_running (b : bool) (w : world) : world :=
  {| w_env := w_env w; w_calls := w_calls w; w_clock := w_clock w;
     running := b; consecutive_failures := consecutive_failures w;
     w_trace := w_trace w |}.

Definition with_env (e : env) (w : world) : world :=
  {| w_env := e; w_calls := 0%nat; w_clock := w_clock w;
     running := running w; consecutive_failures := consecutive_failures w;
     w_trace := w_trace w |}.

#[global] Instance world_redis : RedisClient world := {
  redis_get key := fun w => (env_get (w_env w) key, awaited (EvGet key) w);
  redis_delete key := fun w => (env_delete (w_env w) key, awaited (EvDelete key) w);
  redis_publish channel message :=
    fun w => (env_publish (w_env w) (w_calls w), awaited (EvPublish channel message) w);
}.

#[global] Instance world_session : ClientSession world := {
  session_post url payload :=
    fun w => (env_post (w_env w) url, awaited (EvPost url payload) w);
}.

#[global] Instance world_runtime : Runtime world := {
  time_time := fun w => (Returns (w_clock w), w);
  utcnow_isoformat := fun w => (Returns (env_utcnow (w_env w) (w_calls w)), w);
  asyncio_sleep seconds :=
    fun w =>
      match env_sleep (w_env w) (w_calls w) with
      | Returns late => (Returns tt, slept seconds (seconds + late)%Q w)
      | Raises e => (Raises e, slept seconds 0 w)
      end;
}.

Definition read {A} (f : world -> A) : prog world A := fun w => (Returns (f w), w).
Definition set_failures (n : Z) : prog world unit := fun w => (Returns tt, with_failures n w).
(** [consecutive_failures += 1]. *)
Definition increment_failures : prog world unit :=
  fun w => (Returns tt, with_failures (consecutive_failures w + 1) w).
Definition set_running (b : bool) : prog world unit := fun w => (Returns tt, with_running b w).
Definition enter (e : env) : prog world unit := fun w => (Returns tt, with_env e w).

(** ** The main loop *)

Definition max_failures : Z := 5.

(** Python's [max(0, x)]. *)
Definition py_max0 (x : Q) : Q := if Qle_bool x 0 then 0%Q else x.

(** The details of the first and of the last status report. *)
Definition online_details : json := JObj [("component", JStr "C1_cloud_communicator")].
Definition offline_details : json := JObj [("reason", JStr "shutdown")].

(** How one pass through the loop body ends: it falls through to the next
    test of [while self.running], or it leaves by [break]. *)
Inductive flow : Type := Next | Break.

Section MainLoop.
Variable json_loads : string -> option json.
Variable self : CloudCommunicator.

(** Steps 1 and 2 of the body: fetch, forward, count. *)
Definition fetch_and_forward : prog world flow :=
  car_data <- get_latest_data_from_c2 json_loads self ;;
  if truthy car_data then
    success <- send_data_to_cloud self car_data ;;
    if success then
      set_failures 0 ;;;
      ret Next
    else
      increment_failures ;;;
      n <- read consecutive_failures ;;
      if max_failures <=? n then
        send_status_update self "error"
          (JObj [("message", JStr "Cloud communication failed");
                 ("consecutive_failures", JNum (inject_Z n))]) ;;;
        ret Break
      else ret Next
  else ret Next.

(** Step 3: drain the pending commands and log them. *)
Definition drain_pending : prog world unit :=
  b2_commands <- check_b2_for_commands json_loads self ;;
  if truthy b2_commands then
    lift (py_iter b2_commands) ;;;
    ret tt
  else ret tt.

(** [sleep_time] of step 4, for a cycle that started at [start_time] and
    reads the clock at [now]. *)
Definition sleep_time (start_time now : Q) : Q :=
  let elapsed := (now - start_time)%Q in
  py_max0 (inject_Z (send_interval (config self)) - elapsed)%Q.

(** Step 4: wait for the next interval. *)
Definition wait_for_next_interval (start_time : Q) : prog world unit :=
  now <- time_time ;;
  if Qle_bool (sleep_time start_time now) 0 then ret tt
  else asyncio_sleep (sleep_time start_time now).

(** The [try] block of the loop body. *)
Definition cycle_body : prog world flow :=
  start_time <- time_time ;;
  go <- fetch_and_forward ;;
  match go with
  | Break => ret Break
  | Next =>
      drain_pending ;;;
      wait_for_next_interval start_time ;;;
      ret Next
  end.

(** The body with its two [except] clauses. *)
Definition cycle : prog world flow :=
  try_except cycle_body
    (fun e =>
       match e with
       | KeyboardInterrupt => Some (ret Break)
       | _ =>
           except_Exception
             (increment_failures ;;;
              asyncio_sleep 5 ;;;
              ret Next) e
       end).

(** How far a run got: the loop was left, or the schedule of observed
    cycles ran out with the loop still going. *)
Inductive loop_end : Type := LoopLeft | StillLooping.

(** [while self.running: cycle], one [env] of the schedule per cycle. *)
Fixpoint while_running (schedule : list env) : prog world loop_end :=
  fun w =>
    if negb (running w) then (Returns LoopLeft, w)
    else
      match schedule with
      | [] => (Returns StillLooping, w)
      | e :: rest =>
          match cycle (with_env e w) with
          | (Returns Next, w') =>
              while_running rest
                (if env_stop e then with_running false w' else w')
          | (Returns Break, w') => (Returns LoopLeft, w')
          | (Raises x, w') => (Raises x, w')
          end
      end.

Definition main_loop (startup : env) (schedule : list env) (shutdown : env)
  : prog world loop_end :=
  set_running true ;;;
  enter startup ;;;
  send_status_update self "online" online_details ;;;
  set_failures 0 ;;;
  r <- while_running schedule ;;
  match r with
  | StillLooping => ret StillLooping
  | LoopLeft =>
      set_running false ;;;
      enter shutdown ;;;
      send_status_update self "offline" offline_details ;;;
      ret LoopLeft
  end.

End MainLoop.

(** The status reports of a trace: the [status] and [details] of every
    payload posted with a [status] field. *)
Definition status_report_of (ev : event) : option (string * json) :=
  match ev with
  | EvPost _ (JObj fields) =>
      match assoc "status" fields, assoc "details" fields with
      | Some (JStr st), Some details => Some (st, details)
      | _, _ => None
      end
  | _ => None
  end.

Definition status_reports (trace : list event) : list (string * json) :=
  omap status_report_of trace.

Definition statuses (trace : list event) : list string :=
  map fst (status_reports trace).

(** A world before [main_loop] is entered. *)
Definition boot (clock : Q) : world :=
  {| w_env := mkEnv (fun _ => Returns None) (fun _ => Returns 0) (fun _ => Returns 0)
                (fun _ => Raises ClientError) (fun _ => Returns 0%Q) (fun _ => "")
                (fun _ => 0%Q) false;
     w_calls := 0; w_clock := clock; running := false;
     consecutive_failures := 0; w_trace := [] |}.

(** ** Redis as a key-value store *)

#[global] Instance store_redis : RedisClient (gmap string string) := {
  redis_get key := fun store => (Returns (store !! key), store);
  redis_delete key :=
    fun store =>
      (Returns (match store !! key with Some _ => 1 | None => 0 end),
       delete key store);
  redis_publish channel message := fun store => (Returns 0, store);
}.

(** ** The sensor generators (C5) *)

Section SensorGenerators.
Local Open Scope R_scope.

(** The simulation parameters and state of one [SensorSimulator]. *)
Record SensorSimulator : Type := mkSensorSimulator {
  base_indoor_temp : R;
  base_outdoor_temp : R;
  base_lat : R;
  base_lng : R;
  time_offset : R;
  outdoor_temp_trend : R;
}.

(** [SensorSimulator.__init__]. *)
Definition new_simulator : SensorSimulator :=
  {| base_indoor_temp := 20;
     base_outdoor_temp := 10;
     base_lat := 60.1699;
     base_lng := 24.9384;
     time_offset := 0;
     outdoor_temp_trend := 0 |}.

(** [random.uniform(a, b)] is [a + (b - a) * random.random()]; the draw
    [r] of [random.random()] lies in [0, 1). *)
Definition uniform (a b r : R) : R := a + (b - a) * r.
Definition is_draw (r : R) : Prop := 0 <= r < 1.

(** The nearest integer, ties to the even one. *)
Definition round_half_even (x : R) : Z :=
  let f := Int_part x in
  if Rlt_dec (x - IZR f) (1 / 2) then f
  else if Rlt_dec (1 / 2) (x - IZR f) then (f + 1)%Z
  else if Z.even f then f else (f + 1)%Z.

(** [round(x, ndigits)]. *)
Definition round (x : R) (ndigits : nat) : R :=
  IZR (round_half_even (x * 10 ^ ndigits)) / 10 ^ ndigits.

(** [x % m] on floats, for a positive [m]. *)
Definition fmod (x m : R) : R := x - m * IZR (Int_part (x / m)).

Definition generate_indoor_temperature (self : SensorSimulator) (r : R) : R :=
  let temp := base_indoor_temp self + uniform (-2) 5 r in
  let drift := sin (time_offset self * 0.01) * 3 in
  round (temp + drift) 1.

(** [generate_outdoor_temperature], at wall-clock time [now] and with the
    two draws it makes; it returns the reading and updates the trend. *)
Definition generate_outdoor_temperature (self : SensorSimulator)
    (now r_trend r_noise : R) : R * SensorSimulator :=
  let hour_of_day := fmod now 86400 / 3600 in
  let daily_variation := sin ((hour_of_day - 6) * PI / 12) * 8 in
  let temp := base_outdoor_temp self + daily_variation in
  let temp := temp + outdoor_temp_trend self in
  let trend := outdoor_temp_trend self + uniform (-0.1) 0.1 r_trend in
  let trend := Rmax (-5) (Rmin 5 trend) in
  let temp := temp + uniform (-1) 1 r_noise in
  (round temp 1,
   {| base_indoor_temp := base_indoor_temp self;
      base_outdoor_temp := base_outdoor_temp self;
      base_lat := base_lat self;
      base_lng := base_lng self;
      time_offset := time_offset self;
      outdoor_temp_trend := trend |}).

Definition generate_gps_location (self : SensorSimulator) (r : R) : R * R :=
  let movement_radius := 0.005 in
  let angle := time_offset self * 0.02 in
  let distance := uniform 0 movement_radius r in
  let lat_offset := cos angle * distance in
  let lng_offset := sin angle * distance in
  (round (base_lat self + lat_offset) 6, round (base_lng self + lng_offset) 6).

(** [time_tracker] stores the seconds since the emitter started. *)
Definition track_time (self : SensorSimulator) (elapsed : R) : SensorSimulator :=
  {| base_indoor_temp := base_indoor_temp self;
     base_outdoor_temp := base_outdoor_temp self;
     base_lat := base_lat self;
     base_lng := base_lng self;
     time_offset := elapsed;
     outdoor_temp_trend := outdoor_temp_trend self |}.

(** The states an emitter can be in: a fresh one, and whatever a tick of
    the outdoor loop or of the time tracker makes of a reachable one. The
    indoor and GPS generators change nothing. *)
Inductive reachable : SensorSimulator -> Prop :=
| reach_new : reachable new_simulator
| reach_outdoor self now r_trend r_noise :
    reachable self -> is_draw r_trend -> is_draw r_noise ->
    reachable (snd (generate_outdoor_temperature self now r_trend r_noise))
| reach_time self elapsed :
    reachable self -> 0 <= elapsed -> reachable (track_time self elapsed).

End SensorGenerators.

(** What every reachable emitter state satisfies. *)
Definition emitter_invariant (self : SensorSimulator) : Prop :=
  (base_indoor_temp self = 20 /\ base_outdoor_temp self = 10
   /\ base_lat self = 60.1699 /\ base_lng self = 24.9384
   /\ -5 <= outdoor_temp_trend self <= 5)%R.

(** [time.time()] at 2024-01-01T00:00:00Z, a midnight UTC. *)
Definition midnight : R := 1704067200.

(** A cold night: [n] ticks of the outdoor loop at midnight UTC in which
    every draw is 0, so that the trend loses 0.1 per tick. *)
Definition cooled (n : nat) : SensorSimulator :=
  Nat.iter n (fun self => snd (generate_outdoor_temperature self midnight 0 0))
    new_simulator.

(** ** Vocabulary of the relay's properties *)

Local Open Scope list_scope.

(** An answer of the environment that is not an interruption: a value, or
    an exception that [except Exception] catches. *)
Definition benign {A} (o : outcome A) : Prop :=
  match o with
  | Returns _ => True
  | Raises e => is_Exception e = true
  end.

(** The store holds a latest reading for the vehicle, decoding to the
    truthy value [car_data]. *)
Definition data_available (json_loads : string -> option json)
    (self : CloudCommunicator) (e : env) (car_data : json) : Prop :=
  redis_client self = true
  /\ exists text,
       env_get e (latest_data_key self) = Returns (Some text)
       /\ bytes_truthy text = true
       /\ json_loads text = Some car_data
       /\ truthy car_data = true.

(** TransientIO at the forwarding request: a timeout, a transport error,
    or an answer whose status is not 200. *)
Definition forward_fails (self : CloudCommunicator) (e : env) : Prop :=
  match env_post e (car_data_url self) with
  | Returns resp => status resp <> 200 /\ benign (response_text resp)
  | Raises x => is_Exception x = true
  end.

(** Nothing interrupts the rest of the cycle: the drain and the status
    post are not interrupted, sleeps return, and nobody stops the relay. *)
Definition undisturbed (self : CloudCommunicator) (e : env) : Prop :=
  benign (env_get e (pending_commands_key self))
  /\ benign (env_delete e (pending_commands_key self))
  /\ benign (env_post e (car_status_url self))
  /\ (forall n, exists late, env_sleep e n = Returns late)
  /\ env_stop e = false.

(** A cycle in which a reading is there and forwarding it fails. *)
Definition failing_cycle (json_loads : string -> option json)
    (self : CloudCommunicator) (e : env) : Prop :=
  (exists car_data, data_available json_loads self e car_data)
  /\ forward_fails self e
  /\ undisturbed self e.

(** Calls take no negative time and no sleep wakes early. *)
Definition nonneg_latency (e : env) : Prop :=
  (forall n, 0 <= env_latency e n)%Q
  /\ (forall n late, env_sleep e n = Returns late -> 0 <= late)%Q.

(** Zero-latency I/O: calls take no time and sleeps are exact. *)
Definition zero_latency (e : env) : Prop :=
  (forall n, env_latency e n == 0)%Q
  /\ (forall n late, env_sleep e n = Returns late -> late == 0)%Q.

Definition is_post (ev : event) : bool :=
  match ev with EvPost _ _ => true | _ => false end.

(** Kinds of events a stretch of the run may be limited to. *)
Definition no_post (ev : event) : Prop := is_post ev = false.
Definition no_status (ev : event) : Prop := status_report_of ev = None.
Definition not_offline (ev : event) : Prop :=
  forall details, status_report_of ev <> Some ("offline", details).
Definition any_event (ev : event) : Prop := True.

(** [w'] comes after [w] within one stretch: same environment, same
    [self.running], a trace extended by events of kind [P], and a clock
    that did not run backwards if no call took negative time. *)
Record evolves (P : event -> Prop) (w w' : world) : Prop := mkEvolves {
  evolves_env : w_env w' = w_env w;
  evolves_running : running w' = running w;
  evolves_trace : exists evs, w_trace w' = w_trace w ++ evs /\ Forall P evs;
  evolves_clock : nonneg_latency (w_env w) -> (w_clock w <= w_clock w')%Q;
}.

(** The time the [n] awaited calls from the [from]-th of a stretch take. *)
Fixpoint latency_sum (e : env) (from n : nat) : Q :=
  match n with
  | O => 0
  | S k => env_latency e from + latency_sum e (S from) k
  end.

(** [w'] comes after [w] by awaited calls only, and its clock is the
    clock of [w] plus what these calls took. *)
Definition accounted (w w' : world) : Prop :=
  w_env w' = w_env w
  /\ (w_calls w <= w_calls w')%nat
  /\ (w_clock w'
      == w_clock w + latency_sum (w_env w) (w_calls w) (w_calls w' - w_calls w))%Q.

(** The helpers also leave the failure counter alone. *)
Definition helper_step (P : event -> Prop) (w w' : world) : Prop :=
  evolves P w w' /\ consecutive_failures w' = consecutive_failures w.

(** The loop body changes the counter, but never makes it negative. *)
Definition cycle_step (P : event -> Prop) (w w' : world) : Prop :=
  evolves P w w' /\ (0 <= consecutive_failures w -> 0 <= consecutive_failures w').

(** Across cycles only the trace is comparable. *)
Definition trace_grows (P : event -> Prop) (w w' : world) : Prop :=
  exists evs, w_trace w' = w_trace w ++ evs /\ Forall P evs.

(** [c[k]] when [c] is a dict, with a default. *)
Definition field (c : json) (k : string) (default : json) : json :=
  match c with
  | JObj fields => match assoc k fields with Some v => v | None => default end
  | _ => default
  end.

Definition is_object (c : json) : Prop :=
  match c with JObj _ => True | _ => False end.

(** The publishes that republish [commands], the first of them being the
    [n]-th call of the stretch. *)
Fixpoint republished (self : CloudCommunicator) (e : env) (n : nat)
    (commands : list json) : list event :=
  match commands with
  | [] => []
  | c :: rest =>
      EvPublish (commands_channel self)
        (command_data self (env_utcnow e n) (field c "action" JNull)
           (field c "parameters" (JObj [])))
      :: republished self e (S n) rest
  end.

(** ** Sample inputs *)

(** A decoder for the few documents the samples use. *)
Definition sample_loads (text : string) : option json :=
  if String.eqb text "[1]" then Some (JArr [JNum 1])
  else if String.eqb text "[{}]" then Some (JArr [JObj []])
  else if String.eqb text "{}" then Some (JObj [])
  else if String.eqb text "null" then Some JNull
  else None.

(** The communicator that [main] builds from its defaults, initialized. *)
Definition sample_relay : CloudCommunicator :=
  {| config := {| cloud_endpoint := "http://localhost:8888";
                  api_key := "demo-api-key";
                  redis_url := "redis://localhost:6379";
                  license_plate := "ABC-123";
                  send_interval := 10;
                  c2_data_key := "car_data";
                  b2_commands_key := "car_commands" |};
     redis_client := true;
     session := true |}.

Definition start_heating : json :=
  JObj [("action", JStr "start_heating");
        ("parameters", JObj [("target_temp", JNum 22)])].

Definition answer (code : Z) (body : json) : outcome response :=
  Returns {| status := code; response_json := Returns body; response_text := Returns "" |}.

Definition received : outcome response :=
  answer 200 (JObj [("status", JStr "received")]).

Definition stop_heating : json := JObj [("action", JStr "stop_heating")].

(** The endpoint answers with commands. *)
Definition with_commands (code : Z) (commands : list json) : outcome response :=
  answer code (JObj [("status", JStr "received"); ("commands", JArr commands)]).

Definition with_command (code : Z) : outcome response :=
  with_commands code [start_heating].

(** A calm environment: the latest reading is [latest], car data is
    answered by [data_answer], status posts are received, all else is
    empty and instantaneous. *)
Definition calm (latest : option string) (data_answer : outcome response) : env :=
  {| env_get := fun key =>
       if String.eqb key (latest_data_key sample_relay) then Returns latest
       else Returns None;
     env_delete := fun _ => Returns 1;
     env_publish := fun _ => Returns 0;
     env_post := fun url =>
       if String.eqb url (car_data_url sample_relay) then data_answer else received;
     env_sleep := fun _ => Returns 0%Q;
     env_utcnow := fun _ => "2024-01-01T00:00:00";
     env_latency := fun _ => 0%Q;
     env_stop := false |}.

Definition with_get (get : string -> outcome (option string)) (e : env) : env :=
  {| env_get := get; env_delete := env_delete e; env_publish := env_publish e;
     env_post := env_post e; env_sleep := env_sleep e; env_utcnow := env_utcnow e;
     env_latency := env_latency e; env_stop := env_stop e |}.

Definition with_sleep (sleep : nat -> outcome Q) (e : env) : env :=
  {| env_get := env_get e; env_delete := env_delete e; env_publish := env_publish e;
     env_post := env_post e; env_sleep := sleep; env_utcnow := env_utcnow e;
     env_latency := env_latency e; env_stop := env_stop e |}.

Definition with_latency (latency : nat -> Q) (e : env) : env :=
  {| env_get := env_get e; env_delete := env_delete e; env_publish := env_publish e;
     env_post := env_post e; env_sleep := env_sleep e; env_utcnow := env_utcnow e;
     env_latency := latency; env_stop := env_stop e |}.

Definition with_publish (publish : nat -> outcome Z) (e : env) : env :=
  {| env_get := env_get e; env_delete := env_delete e; env_publish := publish;
     env_post := env_post e; env_sleep := env_sleep e; env_utcnow := env_utcnow e;
     env_latency := env_latency e; env_stop := env_stop e |}.

(** A reading is there and the endpoint answers with one command. *)
Definition commanding (code : Z) : env := calm (Some "[1]") (with_command code).

(** The same, with a store that refuses every publish. *)
Definition publish_refused : env :=
  with_publish (fun _ => Raises RedisError) (commanding 200).

(** The endpoint answers 200 with two commands and the store refuses the
    publishes. *)
Definition two_commands_refused : env :=
  with_publish (fun _ => Raises RedisError)
    (calm (Some "[1]") (with_commands 200 [start_heating; stop_heating])).

(** The endpoint is down: a reading is there, the request times out. *)
Definition cloud_down : env := calm (Some "[1]") (Raises TimeoutError).

(** No reading in the store. *)
Definition no_reading : env := calm None received.

(** No reading, and the first sleep of the cycle raises. *)
Definition faulty : env :=
  with_sleep (fun n => if Nat.eqb n 2 then Raises RuntimeError else Returns 0%Q) no_reading.

(** The task is cancelled while the relay waits for the store. *)
Definition cancelled : env := with_get (fun _ => Raises CancelledError) no_reading.

(** No reading, and the store takes three seconds to say so. *)
Definition slow_store : env :=
  with_latency (fun n => if Nat.eqb n 0 then 3%Q else 0%Q) no_reading.

(** A store with one queued batch of commands. *)
Definition queued : gmap string string :=
  {[ pending_commands_key sample_relay := "[{}]" ]}.


(** [CloudCommunicator.__init__]: no client, no session yet. *)
Definition new_communicator (cfg : CloudConfig) : CloudCommunicator :=
  {| config := cfg; redis_client := false; session := false |}.

Definition is_sleep (ev : event) : Prop :=
  match ev with EvSleep _ => True | _ => False end.

(** The details of the error report of [main_loop]. *)
Definition error_details (n : Z) : json :=
  JObj [("message", JStr "Cloud communication failed");
        ("consecutive_failures", JNum (inject_Z n))].

Definition error_report (self : CloudCommunicator) (now : string) (n : Z) : event :=
  EvPost (car_status_url self) (status_payload self now "error" (error_details n)).

(** Forwarding some reading fails in the environment [e]. *)
Definition forward_refused (self : CloudCommunicator) (e : env) : Prop :=
  exists car_data w, w_env w = e /\ (send_data_to_cloud self car_data w).1 = Returns false.

(** [w'] comes after [w] by a pass through the loop body that reached the
    threshold: forwarding failed, the counter [n] is at the threshold or
    above it, and the error report was attempted as the last thing. *)
Definition gave_up (self : CloudCommunicator) (w w' : world) : Prop :=
  exists wm now n,
    cycle_step no_status w wm
    /\ max_failures <= n
    /\ forward_refused self (w_env w)
    /\ w_trace w' = w_trace wm ++ (if session self then [error_report self now n] else []).

(** What a pass that ends the loop, or raises, has done. *)
Definition ended (self : CloudCommunicator) (w w' : world) : Prop :=
  cycle_step no_status w w' \/ gave_up self w w'.

(** The error reports a run of the loop may leave: none or, after
    forwarding failed in some cycle of [schedule], one. *)
Definition at_most_one_error (self : CloudCommunicator) (schedule : list env)
    (reports : list (string * json)) : Prop :=
  reports = []
  \/ exists n e,
       reports = [("error", error_details n)]
       /\ max_failures <= n
       /\ session self = true
       /\ e ∈ schedule
       /\ forward_refused self e.


(** ** The mock cloud server of the demo *)

(** [web.json_response(body)]. *)
Definition json_response (json_dumps : json -> string) (body : json) : response :=
  {| status := 200;
     response_json := Returns body;
     response_text := Returns (json_dumps body) |}.

(** [handle_car_data] of [simulate_cloud_server], for a request whose body
    decodes to [data]; [draw] is what [random.random()] gives. *)
Definition handle_car_data (json_dumps : json -> string) (data : json) (draw : Q)
  : response :=
  json_response json_dumps
    (JObj [("status", JStr "received");
           ("message", JStr "Data processed successfully");
           ("commands",
            JArr (if Qle_bool (1 # 10) draw then [] else [start_heating]))]).

(** [handle_car_status]. *)
Definition handle_car_status (json_dumps : json -> string) (data : json) : response :=
  json_response json_dumps (JObj [("status", JStr "received")]).

(** The schedule of a demo run: every request for [/api/car-data] is
    answered by [handle_car_data]. *)
Definition served (json_dumps : json -> string) (self : CloudCommunicator)
    (e : env) : Prop :=
  exists data draw,
    env_post e (car_data_url self) = Returns (handle_car_data json_dumps data draw).

(** A decoder-side sample: the text of a JSON value, for the samples. *)
Definition sample_dumps (v : json) : string :=
  match v with
  | JObj [] => "{}"
  | JArr [JNum _] => "[1]"
  | JNull => "null"
  | _ => "{...}"
  end.

(** The mock server answers, and this time with a command. *)
Definition demo (draw : Q) : env :=
  calm (Some "[1]") (Returns (handle_car_data sample_dumps (JArr [JNum 1]) draw)).

(** Ctrl-C arrives while the relay waits for the store. *)
Definition interrupted : env := with_get (fun _ => Raises KeyboardInterrupt) no_reading.

(** No reading, and some other task clears [self.running] meanwhile. *)
Definition stop_requested : env :=
  {| env_get := env_get no_reading; env_delete := env_delete no_reading;
     env_publish := env_publish no_reading; env_post := env_post no_reading;
     env_sleep := env_sleep no_reading; env_utcnow := env_utcnow no_reading;
     env_latency := env_latency no_reading; env_stop := true |}.

(** The offline report, as the only call of the shutdown stretch. *)
Definition offline_report (self : CloudCommunicator) (shutdown : env) : event :=
  EvPost (car_status_url self)
    (status_payload self (env_utcnow shutdown 0) "offline" offline_details).

(** A store whose pending commands are not JSON, and one whose pending
    commands are JSON without a length. *)
Definition garbled : gmap string string :=
  {[ pending_commands_key sample_relay := "{oops" ]}.
Definition unsized : gmap string string :=
  {[ pending_commands_key sample_relay := "null" ]}.

(** ** Start-up and shutdown: [initialize], [cleanup] and [main] *)

(** The calls [main] makes around [main_loop], oldest first. *)
Inductive lifecycle_event : Type :=
| CallServerStart                          (* simulate_cloud_server() *)
| CallFromUrl (url : string)               (* redis.from_url(url) *)
| CallPing                                 (* redis_client.ping() *)
| CallClientSession (authorization : string)
| CallMainLoop
| CallAclose                               (* redis_client.aclose() *)
| CallSessionClose                         (* session.close() *)
| CallServerCleanup.                       (* cloud_runner.cleanup() *)

(** The host of the process: the environment variables, what each of
    these calls answers, and the environments of the relay's run. *)
Record host : Type := mkHost {
  host_getenv : string -> option string;
  host_server_start : outcome unit;
  host_from_url : outcome unit;
  host_ping : outcome bool;
  host_client_session : outcome unit;
  host_aclose : outcome unit;
  host_session_close : outcome unit;
  host_server_cleanup : outcome unit;
  host_startup : env;
  host_schedule : list env;
  host_shutdown : env;
}.

(** The process: the two attributes of the communicator that
    [initialize] sets, the world of the relay, and the calls made. *)
Record process : Type := mkProcess {
  p_host : host;
  p_redis_client : bool;
  p_session : bool;
  p_relay : world;
  p_calls : list lifecycle_event;
}.

Definition read_process {A} (f : process -> A) : prog process A :=
  fun p => (Returns (f p), p).

Definition called {A} (ev : lifecycle_event) (answer : host -> outcome A)
  : prog process A :=
  fun p =>
    (answer (p_host p),
     {| p_host := p_host p; p_redis_client := p_redis_client p;
        p_session := p_session p; p_relay := p_relay p;
        p_calls := p_calls p ++ [ev] |}).

Definition set_redis_client (b : bool) : prog process unit :=
  fun p =>
    (Returns tt,
     {| p_host := p_host p; p_redis_client := b; p_session := p_session p;
        p_relay := p_relay p; p_calls := p_calls p |}).

Definition set_session (b : bool) : prog process unit :=
  fun p =>
    (Returns tt,
     {| p_host := p_host p; p_redis_client := p_redis_client p; p_session := b;
        p_relay := p_relay p; p_calls := p_calls p |}).

(** The communicator object, as the relay's helpers see it. *)
Definition communicator (cfg : CloudConfig) (p : process) : CloudCommunicator :=
  {| config := cfg; redis_client := p_redis_client p; session := p_session p |}.

(** [CloudCommunicator.initialize]: [except Exception] logs and raises
    again. *)
Definition initialize (cfg : CloudConfig) : prog process unit :=
  try_except
    (called (CallFromUrl (redis_url cfg)) host_from_url ;;;
     set_redis_client true ;;;
     called CallPing host_ping ;;;
     called (CallClientSession ("Bearer " ++ api_key cfg)) host_client_session ;;;
     set_session true ;;;
     ret tt)
    (fun e => if is_Exception e then Some (raise e) else None).

(** [CloudCommunicator.cleanup]. *)
Definition cleanup : prog process unit :=
  has_client <- read_process p_redis_client ;;
  (if has_client then called CallAclose host_aclose else ret tt) ;;;
  has_session <- read_process p_session ;;
  (if has_session then called CallSessionClose host_session_close else ret tt) ;;;
  ret tt.

(** [communicator.main_loop()], run in the world of the relay. *)
Definition run_main_loop (json_loads : string -> option json) (cfg : CloudConfig)
  : prog process loop_end :=
  fun p =>
    let h := p_host p in
    match main_loop json_loads (communicator cfg p)
            (host_startup h) (host_schedule h) (host_shutdown h) (p_relay p) with
    | (r, w') =>
        (r, {| p_host := h; p_redis_client := p_redis_client p;
               p_session := p_session p; p_relay := w';
               p_calls := p_calls p ++ [CallMainLoop] |})
    end.

(** [try: m finally: f]. A run whose observation ends inside [m], with
    the loop still going, has not reached [f]. *)
Definition try_finally {W} (m : prog W loop_end) (f : prog W unit)
  : prog W loop_end :=
  fun w =>
    match m w with
    | (Returns StillLooping, w') => (Returns StillLooping, w')
    | (o, w') =>
        match f w' with
        | (Returns _, w'') => (o, w'')
        | (Raises e, w'') => (Raises e, w'')
        end
    end.

(** [os.getenv(name, default)]. *)
Definition getenv (h : host) (name default : string) : string :=
  match host_getenv h name with Some v => v | None => default end.

(** The [CloudConfig] that [main] builds, given the send interval. *)
Definition config_of (h : host) (interval : Z) : CloudConfig :=
  {| cloud_endpoint := getenv h "CLOUD_ENDPOINT" "http://localhost:8888";
     api_key := getenv h "CLOUD_API_KEY" "demo-api-key";
     redis_url := getenv h "REDIS_URL" "redis://localhost:6379";
     license_plate := getenv h "LICENSE_PLATE" "ABC-123";
     send_interval := interval;
     c2_data_key := "car_data";
     b2_commands_key := "car_commands" |}.

(** [main]. [py_int] is Python's [int] on strings, [None] where it raises
    [ValueError] (an [Exception], here [RuntimeError]). *)
Definition main (py_int : string -> option Z) (json_loads : string -> option json)
  : prog process loop_end :=
  h <- read_process p_host ;;
  interval <- lift (match py_int (getenv h "SEND_INTERVAL" "10") with
                    | Some n => Returns n
                    | None => Raises RuntimeError
                    end) ;;
  called CallServerStart host_server_start ;;;
  try_finally
    (set_redis_client false ;;;
     set_session false ;;;
     initialize (config_of h interval) ;;;
     try_finally (run_main_loop json_loads (config_of h interval)) cleanup)
    (called CallServerCleanup host_server_cleanup).

(** The process when [main] is entered. *)
Definition launch (h : host) (clock : Q) : process :=
  {| p_host := h; p_redis_client := false; p_session := false;
     p_relay := boot clock; p_calls := [] |}.

(** A host on which everything works, with no environment variable set,
    and where Ctrl-C arrives in the second cycle. *)
Definition sample_host : host :=
  {| host_getenv := fun _ => None;
     host_server_start := Returns tt;
     host_from_url := Returns tt;
     host_ping := Returns true;
     host_client_session := Returns tt;
     host_aclose := Returns tt;
     host_session_close := Returns tt;
     host_server_cleanup := Returns tt;
     host_startup := no_reading;
     host_schedule := [no_reading; interrupted];
     host_shutdown := no_reading |}.

(** Redis is not reachable. *)
Definition no_redis : host :=
  {| host_getenv := host_getenv sample_host;
     host_server_start := Returns tt;
     host_from_url := Returns tt;
     host_ping := Raises RedisError;
     host_client_session := Returns tt;
     host_aclose := Returns tt;
     host_session_close := Returns tt;
     host_server_cleanup := Returns tt;
     host_startup := no_reading;
     host_schedule := [no_reading; interrupted];
     host_shutdown := no_reading |}.

(** Closing the Redis client fails. *)
Definition aclose_fails : host :=
  {| host_getenv := host_getenv sample_host;
     host_server_start := Returns tt;
     host_from_url := Returns tt;
     host_ping := Returns true;
     host_client_session := Returns tt;
     host_aclose := Raises RedisError;
     host_session_close := Returns tt;
     host_server_cleanup := Returns tt;
     host_startup := no_reading;
     host_schedule := [no_reading; interrupted];
     host_shutdown := no_reading |}.

(** [int] on the few strings the samples use. *)
Definition sample_int (s : string) : option Z :=
  if String.eqb s "10" then Some 10 else None.

(** ** The sensor emitters' publish loops (C5) *)

(** The connection side of a [SensorSimulator]: its plate, and whether
    [initialize] has set [self.redis_client]. *)
Record SensorLink : Type := mkSensorLink {
  sensor_license_plate : string;
  sensor_redis_client : bool;
}.

Definition sensor_channel (sensor_type : string) : string :=
  "sensors:" ++ sensor_type.

(** [data] of [send_sensor_data]. *)
Definition sensor_data (self : SensorLink) (now sensor_type : string)
    (value : json) : json :=
  JObj [("licensePlate", JStr (sensor_license_plate self));
        ("sensorType", JStr sensor_type);
        ("value", value);
        ("timestamp", JStr now);
        ("source", JStr "C5_sensors")].

Section SensorSending.
Context {W : Type} `{!RedisClient W, !Runtime W}.

(** [send_sensor_data]: whatever goes wrong is logged and dropped. *)
Definition send_sensor_data (self : SensorLink) (sensor_type : string)
    (value : json) : prog W unit :=
  try_except
    (now <- utcnow_isoformat ;;
     (if sensor_redis_client self
      then redis_publish (sensor_channel sensor_type)
             (sensor_data self now sensor_type value)
      else raise AttributeError) ;;;
     ret tt)
    (except_Exception (ret tt)).

End SensorSending.

Section SensorLoops.
Variable self : SensorLink.
Variable sensor_type : string.
Variable period : Q.

(** The message of an iteration that starts in [w], and the world after
    its send. *)
Definition attempt (value : json) (w : world) : event :=
  EvPublish (sensor_channel sensor_type)
    (sensor_data self (env_utcnow (w_env w) (w_calls w)) sensor_type value).

Definition sent (value : json) (w : world) : world :=
  if sensor_redis_client self then awaited (attempt value w) w else w.

(** The body of a sensor loop, for the reading [value] that the generator
    returned in this iteration: send it, sleep a period; a cancellation
    leaves the loop, any other [Exception] costs a pause of one second. *)
Definition sensor_cycle (value : json) : prog world flow :=
  try_except
    (send_sensor_data self sensor_type value ;;;
     asyncio_sleep period ;;;
     ret Next)
    (fun e =>
       match e with
       | CancelledError => Some (ret Break)
       | _ => except_Exception (asyncio_sleep 1 ;;; ret Next) e
       end).

(** [while self.running: sensor_cycle], one reading and one [env] of the
    schedule per iteration. *)
Fixpoint sensor_loop (schedule : list (json * env)) : prog world loop_end :=
  fun w =>
    if negb (running w) then (Returns LoopLeft, w)
    else
      match schedule with
      | [] => (Returns StillLooping, w)
      | (value, e) :: rest =>
          match sensor_cycle value (with_env e w) with
          | (Returns Next, w') =>
              sensor_loop rest
                (if env_stop e then with_running false w' else w')
          | (Returns Break, w') => (Returns LoopLeft, w')
          | (Raises x, w') => (Raises x, w')
          end
      end.

End SensorLoops.

(** The three loops of the source differ in the sensor type and in the
    period only. *)
Definition temperature_sensor_loop (self : SensorLink) :=
  sensor_loop self "indoorTemp" (1 # 10).
Definition gps_sensor_loop (self : SensorLink) :=
  sensor_loop self "gps" 1.

(** The messages of a trace, with their channels. *)
Definition published_of (ev : event) : option (string * json) :=
  match ev with EvPublish channel message => Some (channel, message) | _ => None end.

Definition published (trace : list event) : list (string * json) :=
  omap published_of trace.

(** What the iterations of [schedule] publish, each at its start. *)
Definition sensor_messages (self : SensorLink) (sensor_type : string)
    (schedule : list (json * env)) : list (string * json) :=
  map (fun it : json * env =>
         (sensor_channel sensor_type,
          sensor_data self (env_utcnow it.2 0) sensor_type it.1))
      schedule.

(** What the iterations of [schedule] do when nothing interrupts them. *)
Definition sensor_events (self : SensorLink) (sensor_type : string) (period : Q)
    (schedule : list (json * env)) : list event :=
  concat (map (fun it : json * env =>
                 (if sensor_redis_client self
                  then [EvPublish (sensor_channel sensor_type)
                          (sensor_data self (env_utcnow it.2 0) sensor_type it.1)]
                  else [])
                 ++ [EvSleep period])
              schedule).

(** The store fails and sleeps return: no call of the iteration is
    interrupted, and no other task clears [self.running]. *)
Definition sensor_undisturbed (e : env) : Prop :=
  (forall n, benign (env_publish e n))
  /\ (forall n, exists late, env_sleep e n = Returns late)
  /\ env_stop e = false.

(** An emitter that is connected, and an environment in which Redis is
    down. *)
Definition sample_link : SensorLink :=
  {| sensor_license_plate := "ABC-123"; sensor_redis_client := true |}.

Definition redis_down : env :=
  mkEnv (fun _ => Raises RedisError) (fun _ => Raises RedisError)
        (fun _ => Raises RedisError) (fun _ => Raises ClientError)
        (fun _ => Returns 0%Q) (fun _ => "2024-01-01T00:00:00") (fun _ => 0%Q) false.

(** The task is cancelled while it sleeps. *)
Definition cancelled_asleep : env :=
  mkEnv (fun _ => Returns None) (fun _ => Returns 0) (fun _ => Returns 1)
        (fun _ => Raises ClientError) (fun _ => Raises CancelledError)
        (fun _ => "2024-01-01T00:00:00") (fun _ => 0%Q) false.


(** * Properties *)

(** ** Relations that every step of a coroutine preserves *)

Section Preserves.
Context (R : world -> world -> Prop) `{!PreOrder R}.

(** Whatever the outcome, the world after [m] is [R]-related to the
    world before. *)
Definition preserves {A} (m : prog world A) : Prop := forall w, R w (m w).2.

Lemma preserves_ret {A} (a : A) : preserves (ret a).
Proof. intros w. reflexivity. Qed.

Lemma preserves_raise {A} (e : exn) : preserves (@raise world A e).
Proof. intros w. reflexivity. Qed.

Lemma preserves_lift {A} (o : outcome A) : preserves (lift o).
Proof. intros w. reflexivity. Qed.

Lemma preserves_read {A} (f : world -> A) : preserves (read f).
Proof. intros w. reflexivity. Qed.

Lemma preserves_bind {A B} (m : prog world A) (k : A -> prog world B) :
  preserves m -> (forall a, preserves (k a)) -> preserves (bind m k).
Proof.
  intros Hm Hk w. unfold bind. specialize (Hm w).
  destruct (m w) as [[a | e] w']; simpl in *; [| done].
  etrans; [exact Hm | apply Hk].
Qed.

Lemma preserves_try {A} (m : prog world A) (h : exn -> option (prog world A)) :
  preserves m -> (forall e handler, h e = Some handler -> preserves handler) ->
  preserves (try_except m h).
Proof.
  intros Hm Hh w. unfold try_except. specialize (Hm w).
  destruct (m w) as [[a | e] w']; simpl in *; [done |].
  destruct (h e) as [handler |] eqn:He; [| done].
  etrans; [exact Hm | by eapply Hh].
Qed.

Lemma preserves_except_Exception {A} (m h : prog world A) :
  preserves m -> preserves h -> preserves (try_except m (except_Exception h)).
Proof.
  intros Hm Hh. apply preserves_try; [done |].
  intros e handler. unfold except_Exception.
  destruct (is_Exception e); [| done]. by intros [= <-].
Qed.

Lemma preserves_for_each {A} (items : list A) (body : A -> prog world unit) :
  (forall x, preserves (body x)) -> preserves (for_each items body).
Proof.
  intros Hbody. induction items as [| x rest IH]; simpl.
  - apply preserves_ret.
  - apply preserves_bind; [apply Hbody | by intros _].
Qed.
End Preserves.

(** Takes a coroutine apart along its syntax. *)
Ltac step_through :=
  repeat match goal with
  | |- PreOrder _ => exact _
  | |- preserves _ (ret _) => apply preserves_ret
  | |- preserves _ (raise _) => apply preserves_raise
  | |- preserves _ (lift _) => apply preserves_lift
  | |- preserves _ (read _) => apply preserves_read
  | |- preserves _ (try_except _ (except_Exception _)) =>
      apply preserves_except_Exception
  | |- preserves _ (bind _ _) => apply preserves_bind; [.. | intros ?]
  | |- preserves _ (for_each _ _) => apply preserves_for_each; [.. | intros ?]
  | |- preserves _ (if ?b then _ else _) => destruct b
  | |- preserves _ (match ?x with _ => _ end) => destruct x
  end.

#[global] Instance evolves_preorder P : PreOrder (evolves P).
Proof.
  split.
  - intros w. split; [done | done | | intros _; apply Qle_refl].
    exists []. by rewrite app_nil_r.
  - intros w1 w2 w3 [He1 Hr1 (evs1 & Ht1 & Hp1) Hc1] [He2 Hr2 (evs2 & Ht2 & Hp2) Hc2].
    split.
    + congruence.
    + congruence.
    + exists (evs1 ++ evs2). rewrite Ht2, Ht1, app_assoc. split; [done |].
      by apply Forall_app.
    + intros Hn. apply Qle_trans with (w_clock w2); [by apply Hc1 |].
      apply Hc2. by rewrite He1.
Qed.

#[global] Instance helper_step_preorder P : PreOrder (helper_step P).
Proof.
  split.
  - intros w. split; [reflexivity | done].
  - intros w1 w2 w3 [H1 F1] [H2 F2]. split; [by etrans | congruence].
Qed.

#[global] Instance cycle_step_preorder P : PreOrder (cycle_step P).
Proof.
  split.
  - intros w. split; [reflexivity | done].
  - intros w1 w2 w3 [H1 F1] [H2 F2]. split; [by etrans | auto].
Qed.

#[global] Instance trace_grows_preorder P : PreOrder (trace_grows P).
Proof.
  split.
  - intros w. exists []. by rewrite app_nil_r.
  - intros w1 w2 w3 (evs1 & Ht1 & Hp1) (evs2 & Ht2 & Hp2).
    exists (evs1 ++ evs2). rewrite Ht2, Ht1, app_assoc. split; [done |].
    by apply Forall_app.
Qed.

Lemma evolves_mono (P P' : event -> Prop) w w' :
  (forall ev, P ev -> P' ev) -> evolves P w w' -> evolves P' w w'.
Proof.
  intros Hsub [He Hr (evs & Ht & Hp) Hc]. split; try done.
  exists evs. split; [done |]. eapply Forall_impl; eauto.
Qed.

Lemma helper_step_cycle_step P w w' : helper_step P w w' -> cycle_step P w w'.
Proof. intros [H F]. split; [done |]. by rewrite F. Qed.

Lemma evolves_trace_grows P w w' : evolves P w w' -> trace_grows P w w'.
Proof. by intros [_ _ Ht _]. Qed.

Lemma helper_step_awaited P ev w : P ev -> helper_step P w (awaited ev w).
Proof.
  intros Hev. split; [| done]. split; simpl; try done.
  - exists [ev]. split; [done |]. by apply Forall_singleton.
  - intros [Hlat _]. specialize (Hlat (w_calls w)). Lqa.lra.
Qed.

Lemma helper_step_slept P seconds took w :
  P (EvSleep seconds) -> (nonneg_latency (w_env w) -> 0 <= took)%Q ->
  helper_step P w (slept seconds took w).
Proof.
  intros Hev Htook. split; [| done]. split; simpl; try done.
  - exists [EvSleep seconds]. split; [done |]. by apply Forall_singleton.
  - intros Hn. specialize (Htook Hn). Lqa.lra.
Qed.

Section HelperSteps.
Context (P : event -> Prop).
Variable json_loads : string -> option json.
Variable self : CloudCommunicator.

Lemma keeps_redis_get key : P (EvGet key) -> preserves (helper_step P) (redis_get key).
Proof. intros H w. by apply helper_step_awaited. Qed.

Lemma keeps_redis_delete key :
  P (EvDelete key) -> preserves (helper_step P) (redis_delete key).
Proof. intros H w. by apply helper_step_awaited. Qed.

Lemma keeps_redis_publish channel message :
  P (EvPublish channel message) ->
  preserves (helper_step P) (redis_publish channel message).
Proof. intros H w. by apply helper_step_awaited. Qed.

Lemma keeps_session_post url payload :
  P (EvPost url payload) -> preserves (helper_step P) (session_post url payload).
Proof. intros H w. by apply helper_step_awaited. Qed.

Lemma keeps_time_time : preserves (helper_step P) time_time.
Proof. intros w. reflexivity. Qed.

Lemma keeps_utcnow : preserves (helper_step P) utcnow_isoformat.
Proof. intros w. reflexivity. Qed.

Lemma keeps_asyncio_sleep seconds :
  P (EvSleep seconds) -> (0 <= seconds)%Q ->
  preserves (helper_step P) (asyncio_sleep seconds).
Proof.
  intros H Hs w. simpl.
  destruct (env_sleep (w_env w) (w_calls w)) as [late |] eqn:Hsleep; simpl.
  - apply helper_step_slept; [done |].
    intros [_ Hlate]. specialize (Hlate _ _ Hsleep). Lqa.lra.
  - apply helper_step_slept; [done |]. intros _. Lqa.lra.
Qed.

Lemma keeps_loads text : preserves (helper_step P) (loads json_loads text).
Proof. unfold loads. step_through. Qed.

Lemma keeps_get_latest_data_from_c2 :
  P (EvGet (latest_data_key self)) ->
  preserves (helper_step P) (get_latest_data_from_c2 json_loads self).
Proof.
  intros Hget. unfold get_latest_data_from_c2. step_through.
  - by apply keeps_redis_get.
  - apply keeps_loads.
Qed.

Lemma keeps_process_cloud_commands commands :
  (forall message, P (EvPublish (commands_channel self) message)) ->
  preserves (helper_step P) (process_cloud_commands self commands).
Proof.
  intros Hpub. unfold process_cloud_commands, republish. step_through.
  - apply keeps_utcnow.
  - by apply keeps_redis_publish.
Qed.

Lemma keeps_send_data_to_cloud car_data :
  (forall now, P (EvPost (car_data_url self) (car_data_payload self now car_data))) ->
  (forall message, P (EvPublish (commands_channel self) message)) ->
  preserves (helper_step P) (send_data_to_cloud self car_data).
Proof.
  intros Hpost Hpub. unfold send_data_to_cloud. apply preserves_try; [exact _ | |].
  - step_through.
    + apply keeps_utcnow.
    + by apply keeps_session_post.
    + by apply keeps_process_cloud_commands.
  - intros e handler. unfold except_Exception.
    destruct e; simpl; intros [= <-]; step_through.
Qed.

Lemma keeps_check_b2_for_commands :
  P (EvGet (pending_commands_key self)) ->
  P (EvDelete (pending_commands_key self)) ->
  preserves (helper_step P) (check_b2_for_commands json_loads self).
Proof.
  intros Hget Hdel. unfold check_b2_for_commands. step_through.
  - by apply keeps_redis_get.
  - apply keeps_loads.
  - by apply keeps_redis_delete.
Qed.

Lemma keeps_send_status_update st details :
  (forall now, P (EvPost (car_status_url self) (status_payload self now st details))) ->
  preserves (helper_step P) (send_status_update self st details).
Proof.
  intros Hpost. unfold send_status_update. step_through.
  - apply keeps_utcnow.
  - by apply keeps_session_post.
Qed.
End HelperSteps.

(** ** What the helpers let through *)

Lemma try_swallows {W A} (m : prog W A) (h : exn -> option (prog W A)) (v : A) w e :
  (forall x, is_Exception x = true -> h x = Some (ret v)) ->
  (forall x, is_Exception x = false -> h x = None) ->
  (try_except m h w).1 = Raises e -> is_Exception e = false.
Proof.
  intros Hcatch Hpass. unfold try_except.
  destruct (m w) as [[a | x] w']; simpl; [done |].
  destruct (is_Exception x) eqn:Hx.
  - by rewrite (Hcatch x Hx).
  - rewrite (Hpass x Hx). simpl. by intros [= <-].
Qed.

Lemma except_Exception_swallows {W A} (m : prog W A) (v : A) w e :
  (try_except m (except_Exception (ret v)) w).1 = Raises e -> is_Exception e = false.
Proof.
  apply (try_swallows _ _ v); intros x Hx; unfold except_Exception; by rewrite Hx.
Qed.

Section Outcomes.
Context {W : Type} `{!RedisClient W, !ClientSession W, !Runtime W}.
Variable json_loads : string -> option json.
Variable self : CloudCommunicator.

Lemma get_latest_data_from_c2_swallows w e :
  (get_latest_data_from_c2 json_loads self w).1 = Raises e -> is_Exception e = false.
Proof. apply (except_Exception_swallows _ JNull). Qed.

Lemma process_cloud_commands_swallows commands w e :
  (process_cloud_commands self commands w).1 = Raises e -> is_Exception e = false.
Proof. apply (except_Exception_swallows _ tt). Qed.

Lemma check_b2_for_commands_swallows w e :
  (check_b2_for_commands json_loads self w).1 = Raises e -> is_Exception e = false.
Proof. apply (except_Exception_swallows _ JNull). Qed.

Lemma send_status_update_swallows st details w e :
  (send_status_update self st details w).1 = Raises e -> is_Exception e = false.
Proof. apply (except_Exception_swallows _ false). Qed.

Lemma send_data_to_cloud_swallows car_data w e :
  (send_data_to_cloud self car_data w).1 = Raises e -> is_Exception e = false.
Proof.
  apply (try_swallows _ _ false); intros x Hx; by destruct x.
Qed.
End Outcomes.

(** ** C7: draining the pending commands twice *)

(** C7. With a queued batch under the pending-commands key and no write in
    between, the first of two drains in a row returns the batch and deletes
    the key, and the second returns nothing. *)
Theorem drain_pending_twice (json_loads : string -> option json)
    (self : CloudCommunicator) (store : gmap string string)
    (text : string) (commands : list json) :
  redis_client self = true ->
  store !! pending_commands_key self = Some text ->
  bytes_truthy text = true ->
  json_loads text = Some (JArr commands) ->
  drain_twice json_loads self store
  = (Returns (JArr commands, JNull), delete (pending_commands_key self) store)
  /\ check_b2_for_commands json_loads self store
     = (Returns (JArr commands), delete (pending_commands_key self) store)
  /\ delete (pending_commands_key self) store !! pending_commands_key self = None.
Proof.
  intros Hclient Hlookup Htext Hloads.
  assert (Hfirst : check_b2_for_commands json_loads self store
                   = (Returns (JArr commands), delete (pending_commands_key self) store)).
  { unfold check_b2_for_commands, try_except, bind, loads. rewrite Hclient. simpl.
    rewrite Hlookup, Htext, Hloads. reflexivity. }
  assert (Hgone : delete (pending_commands_key self) store
                  !! pending_commands_key self = None) by apply lookup_delete_eq.
  assert (Hsecond : check_b2_for_commands json_loads self
                      (delete (pending_commands_key self) store)
                    = (Returns JNull, delete (pending_commands_key self) store)).
  { unfold check_b2_for_commands, try_except, bind. rewrite Hclient. simpl.
    rewrite Hgone. reflexivity. }
  split; [| by split].
  unfold drain_twice, bind. rewrite Hfirst, Hsecond. reflexivity.
Qed.

Lemma drain_pending_twice_witness :
  (redis_client sample_relay = true
   /\ queued !! pending_commands_key sample_relay = Some "[{}]"
   /\ bytes_truthy "[{}]" = true
   /\ sample_loads "[{}]" = Some (JArr [JObj []]))
  /\ drain_twice sample_loads sample_relay queued
     = (Returns (JArr [JObj []], JNull),
        delete (pending_commands_key sample_relay) queued).
Proof.
  split; [by repeat split |].
  apply (drain_pending_twice sample_loads sample_relay queued "[{}]" [JObj []]);
    reflexivity.
Defined.

(** ** C10 and C5: forwarding and the commands in the answer *)

Section Forwarding.
Variable json_loads : string -> option json.
Variable self : CloudCommunicator.

Lemma republish_benign command w :
  (forall n, benign (env_publish (w_env w) n)) ->
  benign (republish self command w).1
  /\ w_env (republish self command w).2 = w_env w.
Proof.
  intros Hpub. unfold republish, bind, lift.
  destruct command; simpl; try done.
  destruct (redis_client self); simpl; [| done].
  specialize (Hpub (w_calls w)).
  by destruct (env_publish (w_env w) (w_calls w)).
Qed.

Lemma for_each_republish_benign items w :
  (forall n, benign (env_publish (w_env w) n)) ->
  benign (for_each items (republish self) w).1.
Proof.
  revert w. induction items as [| command rest IH]; intros w Hpub; simpl; [done |].
  unfold bind. destruct (republish_benign command w Hpub) as [Hben Henv].
  destruct (republish self command w) as [[[] | e] w1]; simpl in *; [| done].
  apply IH. by rewrite Henv.
Qed.

Lemma process_cloud_commands_returns commands w :
  (forall n, benign (env_publish (w_env w) n)) ->
  (process_cloud_commands self commands w).1 = Returns tt.
Proof.
  intros Hpub. unfold process_cloud_commands, try_except, bind, lift.
  destruct (py_iter commands) as [items | e] eqn:Hiter; simpl.
  - pose proof (for_each_republish_benign items w Hpub) as Hben.
    destruct (for_each items (republish self) w) as [[[] | e] w1]; simpl in *; [done |].
    unfold except_Exception. by rewrite Hben.
  - destruct commands; simpl in Hiter; by inversion Hiter.
Qed.

(** C10, amended. An answer with status 200 and a JSON object as its
    body makes [send_data_to_cloud] return [True] whatever the publishes
    do short of an interruption, because [process_cloud_commands] returns
    normally whatever they do; the counter is then reset to 0. *)
Theorem forward_succeeds_whatever_republishing_does
    (car_data : json) (w : world) (resp : response) (fields : list (string * json)) :
  session self = true ->
  env_post (w_env w) (car_data_url self) = Returns resp ->
  status resp = 200 ->
  response_json resp = Returns (JObj fields) ->
  (forall n, benign (env_publish (w_env w) n)) ->
  (send_data_to_cloud self car_data w).1 = Returns true
  /\ (forall commands w',
        (forall n, benign (env_publish (w_env w') n)) ->
        (process_cloud_commands self commands w').1 = Returns tt)
  /\ (forall w0,
        get_latest_data_from_c2 json_loads self w0 = (Returns car_data, w) ->
        truthy car_data = true ->
        (fetch_and_forward json_loads self w0).1 = Returns Next
        /\ consecutive_failures (fetch_and_forward json_loads self w0).2 = 0).
Proof.
  intros Hsession Hpost Hstatus Hjson Hpub.
  assert (Hsend : (send_data_to_cloud self car_data w).1 = Returns true).
  { unfold send_data_to_cloud, try_except, bind, lift. rewrite Hsession. simpl.
    rewrite Hpost, Hstatus. simpl. rewrite Hjson. simpl.
    destruct (truthy _); [| done].
    match goal with
    | |- context [process_cloud_commands self ?c ?w1] =>
        pose proof (process_cloud_commands_returns c w1 Hpub) as Hret;
        destruct (process_cloud_commands self c w1) as [[[] | e] w2]
    end; simpl in *; done. }
  split; [exact Hsend |].
  split; [exact process_cloud_commands_returns |].
  intros w0 Hget Htruthy. unfold fetch_and_forward, bind.
  rewrite Hget, Htruthy.
  destruct (send_data_to_cloud self car_data w) as [[success | e] w2];
    simpl in Hsend; [| done].
  injection Hsend as ->. by simpl.
Qed.
End Forwarding.

Lemma forward_succeeds_whatever_republishing_does_witness :
  let w := with_env publish_refused (boot 0) in
  (session sample_relay = true
   /\ env_post (w_env w) (car_data_url sample_relay) = with_command 200
   /\ (forall n, benign (env_publish (w_env w) n)))
  /\ (send_data_to_cloud sample_relay (JArr [JNum 1]) w).1 = Returns true.
Proof.
  intros w. split; [by repeat split |].
  refine (proj1 (forward_succeeds_whatever_republishing_does sample_loads sample_relay
                   (JArr [JNum 1]) w _ _ eq_refl eq_refl eq_refl eq_refl _)).
  by intros n.
Defined.

(** C10 as stated fails for an answer with status 200 whose body is not
    a JSON object: [result.get] raises, [send_data_to_cloud] returns
    [False] and the counter goes up. It fails as well when the publish of
    a returned command is interrupted: [process_cloud_commands] does not
    swallow a cancellation, which [send_data_to_cloud] raises in turn. *)
Lemma ok_answer_does_not_always_succeed :
  let listed := with_env (calm (Some "[1]") (answer 200 (JArr []))) (boot 0) in
  let interrupted :=
    with_env (with_publish (fun _ => Raises CancelledError) (commanding 200))
      (boot 0) in
  (env_post (w_env listed) (car_data_url sample_relay) = answer 200 (JArr [])
   /\ (send_data_to_cloud sample_relay (JArr [JNum 1]) listed).1 = Returns false
   /\ (fetch_and_forward sample_loads sample_relay listed).1 = Returns Next
   /\ consecutive_failures (fetch_and_forward sample_loads sample_relay listed).2 = 1)
  /\ (env_post (w_env interrupted) (car_data_url sample_relay) = with_command 200
      /\ (process_cloud_commands sample_relay (JArr [start_heating]) interrupted).1
         = Raises CancelledError
      /\ (send_data_to_cloud sample_relay (JArr [JNum 1]) interrupted).1
         = Raises CancelledError).
Proof. vm_compute. by repeat split. Qed.

Section Republishing.
Variable json_loads : string -> option json.
Variable self : CloudCommunicator.

Lemma republish_object fields w receivers :
  redis_client self = true ->
  env_publish (w_env w) (w_calls w) = Returns receivers ->
  republish self (JObj fields) w
  = (Returns tt,
     awaited (EvPublish (commands_channel self)
                (command_data self (env_utcnow (w_env w) (w_calls w))
                   (field (JObj fields) "action" JNull)
                   (field (JObj fields) "parameters" (JObj [])))) w).
Proof.
  intros Hclient Hpub. unfold republish, bind, lift. simpl.
  rewrite Hclient. simpl. by rewrite Hpub.
Qed.

Lemma for_each_republish_trace commands w :
  redis_client self = true ->
  Forall is_object commands ->
  (forall n, exists receivers, env_publish (w_env w) n = Returns receivers) ->
  exists w',
    for_each commands (republish self) w = (Returns tt, w')
    /\ w_trace w' = w_trace w ++ republished self (w_env w) (w_calls w) commands
    /\ consecutive_failures w' = consecutive_failures w.
Proof.
  intros Hclient Hobjects. revert w.
  induction Hobjects as [| command rest Hobject _ IH]; intros w Hpub; simpl.
  - exists w. by rewrite app_nil_r.
  - destruct command as [| | | | | fields]; try done.
    destruct (Hpub (w_calls w)) as [receivers Hreceivers].
    unfold bind. rewrite (republish_object fields w receivers Hclient Hreceivers).
    destruct (IH (awaited (EvPublish (commands_channel self)
                     (command_data self (env_utcnow (w_env w) (w_calls w))
                        (field (JObj fields) "action" JNull)
                        (field (JObj fields) "parameters" (JObj [])))) w))
      as (w' & Hrun & Htrace & Hfailures); [exact Hpub |].
    exists w'. split; [exact Hrun |]. split; [| exact Hfailures].
    rewrite Htrace. simpl. by rewrite <- app_assoc.
Qed.

(** C5, amended. An answer with status 200 whose body carries a non-empty
    list of command objects makes [send_data_to_cloud] return [True] after
    one publish per command, in order, on the vehicle's command channel,
    each carrying [command], [parameters], [source], [timestamp] and
    [license_plate]; nothing is awaited besides the publish calls, whatever
    number of receivers they report; and the counter is reset to 0. *)
Theorem commands_are_republished
    (car_data : json) (w : world) (resp : response)
    (fields : list (string * json)) (commands : list json) :
  session self = true ->
  redis_client self = true ->
  env_post (w_env w) (car_data_url self) = Returns resp ->
  status resp = 200 ->
  response_json resp = Returns (JObj fields) ->
  assoc "commands" fields = Some (JArr commands) ->
  commands <> [] ->
  Forall is_object commands ->
  (forall n, exists receivers, env_publish (w_env w) n = Returns receivers) ->
  exists w',
    send_data_to_cloud self car_data w = (Returns true, w')
    /\ w_trace w'
       = w_trace w
         ++ EvPost (car_data_url self)
              (car_data_payload self (env_utcnow (w_env w) (w_calls w)) car_data)
            :: republished self (w_env w) (S (w_calls w)) commands
    /\ (forall w0,
          get_latest_data_from_c2 json_loads self w0 = (Returns car_data, w) ->
          truthy car_data = true ->
          fetch_and_forward json_loads self w0 = (Returns Next, with_failures 0 w')).
Proof.
  intros Hsession Hclient Hpost Hstatus Hjson Hcommands Hnonempty Hobjects Hpub.
  set (posted := awaited (EvPost (car_data_url self)
                   (car_data_payload self (env_utcnow (w_env w) (w_calls w)) car_data)) w).
  destruct (for_each_republish_trace commands posted Hclient Hobjects Hpub)
    as (w' & Hrun & Htrace & _).
  assert (Htruthy : truthy (JArr commands) = true) by by destruct commands.
  assert (Hprocess : process_cloud_commands self (JArr commands) posted
                     = (Returns tt, w')).
  { unfold process_cloud_commands, try_except, bind, lift. simpl py_iter.
    cbv iota. by rewrite Hrun. }
  assert (Hsend : send_data_to_cloud self car_data w = (Returns true, w')).
  { unfold send_data_to_cloud, try_except, bind, lift. rewrite Hsession. simpl.
    rewrite Hpost, Hstatus. simpl. rewrite Hjson. simpl. rewrite Hcommands, Htruthy.
    fold posted. by rewrite Hprocess. }
  exists w'. split; [exact Hsend |]. split.
  - rewrite Htrace. subst posted. simpl. by rewrite <- app_assoc.
  - intros w0 Hget Hdata. unfold fetch_and_forward, bind.
    by rewrite Hget, Hdata, Hsend.
Qed.
End Republishing.

Lemma commands_are_republished_witness :
  let w := with_env (commanding 200) (boot 0) in
  (session sample_relay = true /\ redis_client sample_relay = true
   /\ env_post (w_env w) (car_data_url sample_relay) = with_command 200
   /\ [start_heating] <> [] /\ Forall is_object [start_heating]
   /\ (forall n, exists receivers, env_publish (w_env w) n = Returns receivers))
  /\ exists w',
       send_data_to_cloud sample_relay (JArr [JNum 1]) w = (Returns true, w')
       /\ w_trace w'
          = [EvPost (car_data_url sample_relay)
               (car_data_payload sample_relay "2024-01-01T00:00:00" (JArr [JNum 1]));
             EvPublish "car:ABC-123:commands"
               (command_data sample_relay "2024-01-01T00:00:00"
                  (JStr "start_heating") (JObj [("target_temp", JNum 22)]))].
Proof.
  intros w.
  assert (Hobjects : Forall is_object [start_heating])
    by (repeat constructor).
  assert (Hpub : forall n, exists receivers, env_publish (w_env w) n = Returns receivers)
    by (intros n; by exists 0).
  split; [by repeat split |].
  destruct (commands_are_republished sample_loads sample_relay (JArr [JNum 1]) w _ _
              [start_heating] eq_refl eq_refl eq_refl eq_refl eq_refl eq_refl
              ltac:(done) Hobjects Hpub) as (w' & Hsend & Htrace & _).
  exists w'. split; [exact Hsend | exact Htrace].
Defined.

(** C5 as stated fails in two ways. A 2xx answer other than 200 is a
    failure: the commands that come with 201 are not republished,
    [send_data_to_cloud] returns [False] and the counter goes up. And with
    200, forwarding succeeds and the counter is reset although the store
    refuses the publish of the first of two commands, after which the second
    is never published. *)
Lemma commands_left_unpublished :
  (let w := with_env (commanding 201) (boot 0) in
   (send_data_to_cloud sample_relay (JArr [JNum 1]) w).1 = Returns false
   /\ w_trace (send_data_to_cloud sample_relay (JArr [JNum 1]) w).2
      = [EvPost (car_data_url sample_relay)
           (car_data_payload sample_relay "2024-01-01T00:00:00" (JArr [JNum 1]))]
   /\ (fetch_and_forward sample_loads sample_relay w).1 = Returns Next
   /\ consecutive_failures (fetch_and_forward sample_loads sample_relay w).2 = 1)
  /\ (let w := with_env two_commands_refused (boot 0) in
      (send_data_to_cloud sample_relay (JArr [JNum 1]) w).1 = Returns true
      /\ w_trace (send_data_to_cloud sample_relay (JArr [JNum 1]) w).2
         = [EvPost (car_data_url sample_relay)
              (car_data_payload sample_relay "2024-01-01T00:00:00" (JArr [JNum 1]));
            EvPublish (commands_channel sample_relay)
              (command_data sample_relay "2024-01-01T00:00:00"
                 (JStr "start_heating") (JObj [("target_temp", JNum 22)]))]
      /\ consecutive_failures (fetch_and_forward sample_loads sample_relay w).2 = 0).
Proof. vm_compute. by repeat split. Qed.

(** ** One cycle of the loop *)

Lemma py_max0_nonneg (x : Q) : (0 <= py_max0 x)%Q.
Proof.
  unfold py_max0. destruct (Qle_bool x 0) eqn:Hx; [apply Qle_refl |].
  destruct (Qlt_le_dec 0 x) as [Hlt | Hle]; [by apply Qlt_le_weak |].
  apply Qle_bool_iff in Hle. congruence.
Qed.

Lemma no_status_not_offline ev : no_status ev -> not_offline ev.
Proof. unfold no_status, not_offline. intros -> details. done. Qed.

Lemma cycle_step_mono (P P' : event -> Prop) w w' :
  (forall ev, P ev -> P' ev) -> cycle_step P w w' -> cycle_step P' w w'.
Proof. intros Hsub [H F]. split; [by eapply evolves_mono | done]. Qed.

Lemma evolves_with_failures P n w w' :
  evolves P w w' -> evolves P w (with_failures n w').
Proof. intros [He Hr Ht Hc]. by split. Qed.

Lemma status_report_of_status_payload self url now st details :
  status_report_of (EvPost url (status_payload self now st details))
  = Some (st, if truthy details then details else JObj []).
Proof. reflexivity. Qed.

Lemma no_status_car_data self url now car_data :
  no_status (EvPost url (car_data_payload self now car_data)).
Proof. reflexivity. Qed.

Section Cycle.
Variable json_loads : string -> option json.
Variable self : CloudCommunicator.

Lemma helper_get_latest P w :
  (forall key, P (EvGet key)) ->
  helper_step P w (get_latest_data_from_c2 json_loads self w).2.
Proof. intros Hget. by apply keeps_get_latest_data_from_c2. Qed.

Lemma helper_send_data P car_data w :
  (forall now, P (EvPost (car_data_url self) (car_data_payload self now car_data))) ->
  (forall channel message, P (EvPublish channel message)) ->
  helper_step P w (send_data_to_cloud self car_data w).2.
Proof. intros Hpost Hpub. by apply keeps_send_data_to_cloud. Qed.

Lemma helper_error_status n w :
  helper_step not_offline w
    (send_status_update self "error"
       (JObj [("message", JStr "Cloud communication failed");
              ("consecutive_failures", JNum (inject_Z n))]) w).2.
Proof.
  apply keeps_send_status_update. intros now details.
  rewrite status_report_of_status_payload. by intros [=].
Qed.

Lemma keeps_drain_pending P :
  (forall key, P (EvGet key)) -> (forall key, P (EvDelete key)) ->
  preserves (helper_step P) (drain_pending json_loads self).
Proof.
  intros Hget Hdel. unfold drain_pending. step_through.
  by apply keeps_check_b2_for_commands.
Qed.

Lemma keeps_wait_for_next_interval P start_time :
  (forall seconds, P (EvSleep seconds)) ->
  preserves (helper_step P) (wait_for_next_interval self start_time).
Proof.
  intros Hsleep. unfold wait_for_next_interval. step_through.
  - apply keeps_time_time.
  - apply keeps_asyncio_sleep; [done | apply py_max0_nonneg].
Qed.

(** Steps 1 and 2: a pass that goes on has posted no status report; one
    that ends has posted no offline report; what escapes is an
    interruption. *)
Lemma fetch_and_forward_spec w :
  match fetch_and_forward json_loads self w with
  | (Returns Next, w') => cycle_step no_status w w'
  | (Returns Break, w') => cycle_step not_offline w w'
  | (Raises e, w') => is_Exception e = false /\ cycle_step not_offline w w'
  end.
Proof.
  unfold fetch_and_forward, bind.
  pose proof (helper_get_latest no_status w ltac:(done)) as Hstep1.
  pose proof (get_latest_data_from_c2_swallows json_loads self w) as Hswallow1.
  destruct (get_latest_data_from_c2 json_loads self w) as [[car_data | e] w1];
    simpl in Hstep1, Hswallow1.
  2: { split; [by apply Hswallow1 |].
       eapply cycle_step_mono; [apply no_status_not_offline |].
       by apply helper_step_cycle_step. }
  destruct (truthy car_data); [| by apply helper_step_cycle_step].
  pose proof (helper_send_data no_status car_data w1
                (fun now => no_status_car_data self _ now car_data)
                ltac:(done)) as Hstep2.
  pose proof (send_data_to_cloud_swallows self car_data w1) as Hswallow2.
  assert (Hboth : helper_step no_status w (send_data_to_cloud self car_data w1).2)
    by (etrans; eassumption).
  destruct (send_data_to_cloud self car_data w1) as [[success | e] w2];
    simpl in Hstep2, Hswallow2, Hboth.
  2: { split; [by apply Hswallow2 |].
       eapply cycle_step_mono; [apply no_status_not_offline |].
       by apply helper_step_cycle_step. }
  destruct Hboth as [Hevolves Hfailures].
  destruct success; simpl.
  { split; [by apply evolves_with_failures | done]. }
  assert (Hcounted : cycle_step no_status w
                       (with_failures (consecutive_failures w2 + 1) w2)).
  { split; [by apply evolves_with_failures |]. simpl. lia. }
  destruct (max_failures <=? consecutive_failures w2 + 1); [| exact Hcounted].
  pose proof (helper_error_status (consecutive_failures w2 + 1)
                (with_failures (consecutive_failures w2 + 1) w2)) as Hstep3.
  pose proof (send_status_update_swallows self "error"
                (JObj [("message", JStr "Cloud communication failed");
                       ("consecutive_failures",
                        JNum (inject_Z (consecutive_failures w2 + 1)))])
                (with_failures (consecutive_failures w2 + 1) w2)) as Hswallow3.
  apply (cycle_step_mono _ _ _ _ no_status_not_offline) in Hcounted.
  apply helper_step_cycle_step in Hstep3.
  destruct (send_status_update self "error" _ _) as [[sent | e] w3];
    simpl in Hstep3, Hswallow3; simpl.
  - by etrans.
  - split; [by apply Hswallow3 | by etrans].
Qed.

Lemma rest_of_cycle_step start_time w :
  helper_step no_status w
    ((drain_pending json_loads self ;;; wait_for_next_interval self start_time ;;;
      ret Next) w).2.
Proof.
  revert w. change (preserves (helper_step no_status)
    (drain_pending json_loads self ;;; wait_for_next_interval self start_time ;;;
     ret Next)).
  step_through.
  - by apply keeps_drain_pending.
  - by apply keeps_wait_for_next_interval.
Qed.

(** The [try] block: as for steps 1 and 2, and an exception of class
    [Exception] can only come out of a pass that posted no status. *)
Lemma cycle_body_spec w :
  match cycle_body json_loads self w with
  | (Returns Next, w') => cycle_step no_status w w'
  | (Returns Break, w') => cycle_step not_offline w w'
  | (Raises e, w') =>
      (is_Exception e = true -> cycle_step no_status w w')
      /\ cycle_step not_offline w w'
  end.
Proof.
  unfold cycle_body. unfold bind at 1. simpl time_time. cbv beta iota.
  unfold bind at 1.
  pose proof (fetch_and_forward_spec w) as Hspec.
  destruct (fetch_and_forward json_loads self w) as [[[] | e] w1].
  - pose proof (rest_of_cycle_step (w_clock w) w1) as Hrest.
    apply helper_step_cycle_step in Hrest.
    assert (Hall : cycle_step no_status w
              ((drain_pending json_loads self ;;;
                wait_for_next_interval self (w_clock w) ;;; ret Next) w1).2)
      by by etrans.
    destruct ((drain_pending json_loads self ;;;
               wait_for_next_interval self (w_clock w) ;;; ret Next) w1)
      as [[[] | e] w2]; simpl in Hall.
    + exact Hall.
    + by eapply cycle_step_mono; [apply no_status_not_offline |].
    + split; [done |]. by eapply cycle_step_mono; [apply no_status_not_offline |].
  - exact Hspec.
  - destruct Hspec as [He Hstep]. split; [| done]. intros Hyes. congruence.
Qed.

(** The handler of an unexpected fault. *)
Lemma fault_handler_spec w w1 :
  cycle_step no_status w w1 ->
  match (increment_failures ;;; asyncio_sleep 5 ;;; ret Next) w1 with
  | (Returns Next, w') => cycle_step no_status w w'
  | (Returns Break, w') => cycle_step not_offline w w'
  | (Raises e, w') => cycle_step not_offline w w'
  end.
Proof.
  intros [Hevolves Hfailures].
  assert (Hcounted : cycle_step no_status w
                       (with_failures (consecutive_failures w1 + 1) w1)).
  { split; [by apply evolves_with_failures |]. simpl.
    intros H. specialize (Hfailures H). lia. }
  unfold bind, ret, increment_failures. cbv beta iota.
  pose proof (keeps_asyncio_sleep no_status 5 ltac:(done) ltac:(done)
                (with_failures (consecutive_failures w1 + 1) w1)) as Hsleep.
  apply helper_step_cycle_step in Hsleep.
  destruct (asyncio_sleep 5 (with_failures (consecutive_failures w1 + 1) w1))
    as [[[] | x] w2]; simpl in Hsleep; simpl.
  - by etrans.
  - eapply cycle_step_mono; [apply no_status_not_offline |]. by etrans.
Qed.

(** The whole body, handlers included. *)
Lemma cycle_spec w :
  match cycle json_loads self w with
  | (Returns Next, w') => cycle_step no_status w w'
  | (Returns Break, w') => cycle_step not_offline w w'
  | (Raises e, w') => cycle_step not_offline w w'
  end.
Proof.
  unfold cycle, try_except.
  pose proof (cycle_body_spec w) as Hspec.
  destruct (cycle_body json_loads self w) as [[[] | e] w1]; try done.
  destruct Hspec as [Hquiet Hstep].
  destruct e; simpl; try done; by apply fault_handler_spec, Hquiet.
Qed.
End Cycle.

(** ** The loop as a whole *)

Lemma status_reports_app (tr1 tr2 : list event) :
  status_reports (tr1 ++ tr2) = status_reports tr1 ++ status_reports tr2.
Proof. apply omap_app. Qed.

Lemma no_status_reports (evs : list event) :
  Forall no_status evs -> status_reports evs = [].
Proof.
  induction 1 as [| ev evs Hev _ IH]; [done |].
  unfold status_reports in *. simpl. unfold no_status in Hev. by rewrite Hev.
Qed.

Lemma not_offline_reports (evs : list event) :
  Forall not_offline evs -> "offline" ∉ map fst (status_reports evs).
Proof.
  induction 1 as [| ev evs Hev _ IH]; [apply not_elem_of_nil |].
  unfold status_reports in *. simpl.
  destruct (status_report_of ev) as [[st details] |] eqn:Hreport; [| done].
  simpl. apply not_elem_of_cons. split; [| done].
  intros <-. by apply (Hev details).
Qed.

Lemma cycle_step_same_reports w w' :
  cycle_step no_status w w' ->
  status_reports (w_trace w') = status_reports (w_trace w).
Proof.
  intros [[_ _ (evs & -> & Hevs) _] _].
  by rewrite status_reports_app, (no_status_reports evs Hevs), app_nil_r.
Qed.

Lemma send_status_update_trace self st details w :
  session self = true ->
  w_trace (send_status_update self st details w).2
  = w_trace w ++ [EvPost (car_status_url self)
                    (status_payload self (env_utcnow (w_env w) (w_calls w)) st details)]
  /\ running (send_status_update self st details w).2 = running w
  /\ (benign (env_post (w_env w) (car_status_url self)) ->
      exists sent, (send_status_update self st details w).1 = Returns sent).
Proof.
  intros Hsession. unfold send_status_update, try_except, bind.
  rewrite Hsession. simpl.
  destruct (env_post (w_env w) (car_status_url self)) as [resp | e]; simpl.
  - destruct (status resp =? 200); simpl; eauto.
  - unfold except_Exception. destruct (is_Exception e) eqn:He; simpl.
    + eauto.
    + split; [done |]. split; [done |]. congruence.
Qed.

Section Loop.
Variable json_loads : string -> option json.
Variable self : CloudCommunicator.

Lemma while_running_stopped schedule w :
  running w = false -> while_running json_loads self schedule w = (Returns LoopLeft, w).
Proof. intros Hstopped. destruct schedule; simpl; by rewrite Hstopped. Qed.

Lemma while_running_app before after w :
  while_running json_loads self (before ++ after) w
  = match while_running json_loads self before w with
    | (Returns StillLooping, w') => while_running json_loads self after w'
    | other => other
    end.
Proof.
  revert w. induction before as [| e before IH]; intros w; simpl.
  - destruct (running w) eqn:Hrunning; simpl; [done |].
    by apply while_running_stopped.
  - destruct (running w); simpl; [| done].
    destruct (cycle json_loads self (with_env e w)) as [[[] | x] w1];
      [apply IH | done | done].
Qed.

(** No run of the loop posts an offline report. *)
Lemma while_running_not_offline schedule w :
  trace_grows not_offline w (while_running json_loads self schedule w).2.
Proof.
  revert w. induction schedule as [| e schedule IH]; intros w; simpl.
  - destruct (running w); reflexivity.
  - destruct (running w); simpl; [| reflexivity].
    pose proof (cycle_spec json_loads self (with_env e w)) as Hspec.
    assert (Hcycle : trace_grows not_offline w
                       (cycle json_loads self (with_env e w)).2).
    { destruct (cycle json_loads self (with_env e w)) as [[[] | x] w1];
        destruct Hspec as [[_ _ (evs & Htrace & Hevs) _] _];
        exists evs; split; try done.
      eapply Forall_impl; [exact Hevs | apply no_status_not_offline]. }
    destruct (cycle json_loads self (with_env e w)) as [[[] | x] w1];
      simpl in *; try done.
    etrans; [exact Hcycle |].
    specialize (IH (if env_stop e then with_running false w1 else w1)).
    destruct IH as (evs & Htrace & Hevs). exists evs. split; [| done].
    rewrite Htrace. by destruct (env_stop e).
Qed.

(** While the loop goes on, no status report is posted, the counter stays
    non-negative. *)
Lemma still_looping schedule w w' :
  while_running json_loads self schedule w = (Returns StillLooping, w') ->
  running w' = true
  /\ status_reports (w_trace w') = status_reports (w_trace w)
  /\ (0 <= consecutive_failures w -> 0 <= consecutive_failures w').
Proof.
  revert w. induction schedule as [| e schedule IH]; intros w; simpl.
  - destruct (running w) eqn:Hrunning; simpl; [| done]. by intros [= <-].
  - destruct (running w) eqn:Hrunning; simpl; [| done].
    pose proof (cycle_spec json_loads self (with_env e w)) as Hspec.
    destruct (cycle json_loads self (with_env e w)) as [[[] | x] w1]; try done.
    intros Hrest. apply IH in Hrest as (Hrun & Hreports & Hfailures).
    split; [done |].
    pose proof (cycle_step_same_reports _ _ Hspec) as Hsame.
    destruct Hspec as [_ Hcount]. simpl in Hsame, Hcount.
    split.
    + rewrite Hreports, <- Hsame. by destruct (env_stop e).
    + intros H. apply Hfailures. destruct (env_stop e); by apply Hcount.
Qed.

(** [main_loop], one stage after the other. *)
Lemma main_loop_stages startup schedule shutdown w :
  main_loop json_loads self startup schedule shutdown w
  = match send_status_update self "online" online_details
            (with_env startup (with_running true w)) with
    | (Returns _, wa) =>
        match while_running json_loads self schedule (with_failures 0 wa) with
        | (Returns StillLooping, wb) => (Returns StillLooping, wb)
        | (Returns LoopLeft, wb) =>
            match send_status_update self "offline" offline_details
                    (with_env shutdown (with_running false wb)) with
            | (Returns _, wc) => (Returns LoopLeft, wc)
            | (Raises e, wc) => (Raises e, wc)
            end
        | (Raises e, wb) => (Raises e, wb)
        end
    | (Raises e, wa) => (Raises e, wa)
    end.
Proof.
  unfold main_loop, bind, set_running, enter, set_failures, ret. cbv beta iota.
  destruct (send_status_update self "online" _ _) as [[sent | e] wa]; [| done].
  destruct (while_running json_loads self schedule (with_failures 0 wa))
    as [[[] | e] wb]; done.
Qed.

(** C3, amended. Whenever [main_loop] returns after the loop was left (by
    the failure threshold, by a cleared [self.running] or by a
    [KeyboardInterrupt] caught in the body), exactly one offline report
    with the reason [shutdown] has been posted, as the last report; and no
    run, however it ends, posts more than one, nor one that is not the
    last report. *)
Theorem offline_report_when_the_loop_is_left
    (startup : env) (schedule : list env) (shutdown : env) (clock : Q) :
  session self = true ->
  let run := main_loop json_loads self startup schedule shutdown (boot clock) in
  exists earlier,
    ("offline" ∉ map fst earlier)
    /\ (status_reports (w_trace run.2) = earlier
        \/ status_reports (w_trace run.2) = earlier ++ [("offline", offline_details)])
    /\ (run.1 = Returns LoopLeft ->
        status_reports (w_trace run.2) = earlier ++ [("offline", offline_details)]).
Proof.
  intros Hsession run. subst run. rewrite main_loop_stages.
  set (w0 := with_env startup (with_running true (boot clock))).
  assert (Hstart : trace_grows not_offline w0
                     (send_status_update self "online" online_details w0).2).
  { apply evolves_trace_grows.
    apply (keeps_send_status_update not_offline self "online" online_details).
    intros now details. rewrite status_report_of_status_payload. by intros [=]. }
  assert (Hquiet : forall w, trace_grows not_offline w0 w ->
            "offline" ∉ map fst (status_reports (w_trace w))).
  { intros w (evs & -> & Hevs). by apply not_offline_reports. }
  destruct (send_status_update self "online" online_details w0) as [[sent | e] wa];
    simpl in Hstart.
  2: { exists (status_reports (w_trace wa)). simpl. split; [by apply Hquiet |].
       split; [by left | done]. }
  assert (Hloop : trace_grows not_offline w0
            (while_running json_loads self schedule (with_failures 0 wa)).2).
  { etrans; [exact Hstart |].
    apply (while_running_not_offline schedule (with_failures 0 wa)). }
  destruct (while_running json_loads self schedule (with_failures 0 wa))
    as [[[] | e] wb]; simpl in Hloop.
  - destruct (send_status_update_trace self "offline" offline_details
                (with_env shutdown (with_running false wb)) Hsession)
      as (Htrace & _ & _).
    exists (status_reports (w_trace wb)). split; [by apply Hquiet |].
    assert (Hlast : status_reports
              (w_trace (send_status_update self "offline" offline_details
                          (with_env shutdown (with_running false wb))).2)
            = status_reports (w_trace wb) ++ [("offline", offline_details)]).
    { rewrite Htrace, status_reports_app. reflexivity. }
    destruct (send_status_update self "offline" offline_details
                (with_env shutdown (with_running false wb))) as [[sent' | e] wc];
      simpl in *; split; auto.
  - exists (status_reports (w_trace wb)). simpl. split; [by apply Hquiet |].
    split; [by left | done].
  - exists (status_reports (w_trace wb)). simpl. split; [by apply Hquiet |].
    split; [by left | done].
Qed.
End Loop.

Lemma offline_report_when_the_loop_is_left_witness :
  session sample_relay = true
  /\ exists earlier,
       ("offline" ∉ map fst earlier)
       /\ status_reports
            (w_trace (main_loop sample_loads sample_relay no_reading
                        (replicate 5 cloud_down) no_reading (boot 0)).2)
          = earlier ++ [("offline", offline_details)].
Proof.
  split; [reflexivity |].
  destruct (offline_report_when_the_loop_is_left sample_loads sample_relay
              no_reading (replicate 5 cloud_down) no_reading 0 eq_refl)
    as (earlier & Hnone & _ & Hlast).
  exists earlier. split; [exact Hnone |]. apply Hlast. by vm_compute.
Defined.

(** C3 as stated fails when the task is cancelled: [CancelledError] passes
    both [except] clauses of the loop and leaves [main_loop] before the
    offline report. *)
Lemma cancellation_skips_the_offline_report :
  let run := main_loop sample_loads sample_relay no_reading [cancelled] no_reading
               (boot 0) in
  run.1 = Raises CancelledError
  /\ statuses (w_trace run.2) = ["online"]
  /\ ("offline" ∉ statuses (w_trace run.2)).
Proof.
  assert (Hrun : (main_loop sample_loads sample_relay no_reading [cancelled] no_reading
                    (boot 0)).1 = Raises CancelledError) by by vm_compute.
  assert (Hstatuses : statuses (w_trace (main_loop sample_loads sample_relay no_reading
                         [cancelled] no_reading (boot 0)).2) = ["online"])
    by by vm_compute.
  cbv zeta. rewrite Hstatuses. split; [done |]. split; [done |].
  apply not_elem_of_cons. split; [done | apply not_elem_of_nil].
Qed.

(** ** Cycles in which forwarding fails *)

Section FailingCycles.
Variable json_loads : string -> option json.
Variable self : CloudCommunicator.
Hypothesis initialized : session self = true.

Lemma get_latest_available car_data w :
  data_available json_loads self (w_env w) car_data ->
  get_latest_data_from_c2 json_loads self w
  = (Returns car_data, awaited (EvGet (latest_data_key self)) w).
Proof.
  intros (Hclient & text & Hget & Hbytes & Hloads & _).
  unfold get_latest_data_from_c2, try_except, bind, loads.
  rewrite Hclient. simpl. by rewrite Hget, Hbytes, Hloads.
Qed.

Lemma send_data_fails car_data w :
  forward_fails self (w_env w) ->
  send_data_to_cloud self car_data w
  = (Returns false,
     awaited (EvPost (car_data_url self)
                (car_data_payload self (env_utcnow (w_env w) (w_calls w)) car_data)) w).
Proof.
  intros Hfails. unfold forward_fails in Hfails.
  unfold send_data_to_cloud, try_except, bind, lift.
  rewrite initialized. simpl.
  destruct (env_post (w_env w) (car_data_url self)) as [resp | x]; simpl.
  - destruct Hfails as [Hstatus Htext].
    apply Z.eqb_neq in Hstatus. rewrite Hstatus.
    destruct (response_text resp) as [text | x]; simpl; [done |].
    simpl in Htext. unfold except_Exception. rewrite Htext. by destruct x.
  - unfold except_Exception. rewrite Hfails. by destruct x.
Qed.

(** Under benign answers the drain returns, and what it returns can be
    iterated. *)
Lemma check_b2_for_commands_returns w :
  benign (env_get (w_env w) (pending_commands_key self)) ->
  benign (env_delete (w_env w) (pending_commands_key self)) ->
  exists commands,
    (check_b2_for_commands json_loads self w).1 = Returns commands
    /\ (truthy commands = true -> exists items, py_iter commands = Returns items).
Proof.
  intros Hget Hdel.
  unfold check_b2_for_commands, try_except, bind, loads, lift, except_Exception.
  destruct (redis_client self); simpl; [| by exists JNull].
  destruct (env_get (w_env w) (pending_commands_key self)) as [[text |] | x];
    simpl in *; [| by exists JNull | rewrite Hget; by exists JNull].
  destruct (bytes_truthy text); [| by exists JNull].
  destruct (json_loads text) as [commands |]; simpl; [| by exists JNull].
  destruct (env_delete (w_env w) (pending_commands_key self)) as [n | x];
    simpl in *; [| rewrite Hdel; by exists JNull].
  destruct commands; simpl; try by exists JNull.
  - exists (JStr s). split; [done |]. by eexists.
  - exists (JArr items). split; [done |]. by eexists.
  - exists (JObj fields). split; [done |]. by eexists.
Qed.

Lemma drain_pending_returns w :
  benign (env_get (w_env w) (pending_commands_key self)) ->
  benign (env_delete (w_env w) (pending_commands_key self)) ->
  (drain_pending json_loads self w).1 = Returns tt.
Proof.
  intros Hget Hdel. unfold drain_pending, bind, lift.
  destruct (check_b2_for_commands_returns w Hget Hdel) as (commands & Hret & Hiter).
  destruct (check_b2_for_commands json_loads self w) as [[v | x] w1];
    simpl in Hret; [| done].
  injection Hret as ->.
  destruct (truthy commands); [| done].
  destruct (Hiter eq_refl) as [items ->]. done.
Qed.

Lemma wait_for_next_interval_returns start_time w :
  (forall n, exists late, env_sleep (w_env w) n = Returns late) ->
  (wait_for_next_interval self start_time w).1 = Returns tt.
Proof.
  intros Hsleep. unfold wait_for_next_interval, bind. simpl.
  destruct (Qle_bool _ 0); [done |].
  by destruct (Hsleep (w_calls w)) as [late ->].
Qed.

(** Steps 1 and 2 of a failing cycle. *)
Lemma fetch_and_forward_failing car_data w :
  data_available json_loads self (w_env w) car_data ->
  forward_fails self (w_env w) ->
  let w1 := awaited (EvGet (latest_data_key self)) w in
  let w2 := awaited (EvPost (car_data_url self)
              (car_data_payload self (env_utcnow (w_env w) (w_calls w1)) car_data)) w1 in
  let w3 := with_failures (consecutive_failures w + 1) w2 in
  fetch_and_forward json_loads self w
  = if max_failures <=? consecutive_failures w + 1 then
      (send_status_update self "error"
         (JObj [("message", JStr "Cloud communication failed");
                ("consecutive_failures",
                 JNum (inject_Z (consecutive_failures w + 1)))]) ;;;
       ret Break) w3
    else (Returns Next, w3).
Proof.
  intros Hdata Hfails w1 w2 w3. unfold fetch_and_forward.
  unfold bind at 1. rewrite (get_latest_available car_data w Hdata).
  destruct Hdata as (_ & _ & _ & _ & _ & ->). cbv beta iota.
  unfold bind at 1. fold w1. rewrite (send_data_fails car_data w1 Hfails).
  unfold bind at 1. unfold increment_failures. cbv beta iota.
  unfold bind at 1. unfold read. cbv beta iota.
  change (consecutive_failures (with_failures _ _)) with (consecutive_failures w + 1).
  by destruct (max_failures <=? consecutive_failures w + 1).
Qed.

(** A failing cycle either counts one more failure and goes on, or
    reaches the threshold, posts the error report and leaves the loop. *)
Lemma failing_cycle_spec e w :
  failing_cycle json_loads self e ->
  exists r w',
    cycle json_loads self (with_env e w) = (r, w')
    /\ running w' = running w
    /\ if max_failures <=? consecutive_failures w + 1 then
         r = Returns Break
         /\ statuses (w_trace w') = statuses (w_trace w) ++ ["error"]
       else
         r = Returns Next
         /\ consecutive_failures w' = consecutive_failures w + 1
         /\ status_reports (w_trace w') = status_reports (w_trace w).
Proof.
  intros ([car_data Hdata] & Hfails & Hget & Hdel & Hpost & Hsleep & Hstop).
  unfold cycle, try_except, cycle_body.
  unfold bind at 1. simpl time_time. cbv beta iota.
  unfold bind at 1.
  rewrite (fetch_and_forward_failing car_data (with_env e w) Hdata Hfails).
  cbv zeta.
  set (w3 := with_failures _ _).
  change (consecutive_failures (with_env e w)) with (consecutive_failures w).
  destruct (max_failures <=? consecutive_failures w + 1).
  - unfold bind at 1.
    destruct (send_status_update_trace self "error"
                (JObj [("message", JStr "Cloud communication failed");
                       ("consecutive_failures",
                        JNum (inject_Z (consecutive_failures w + 1)))]) w3 initialized)
      as (Htrace & Hrunning & Hreturns).
    destruct (Hreturns Hpost) as [sent Hsent].
    destruct (send_status_update self "error" _ w3) as [[sent' | x] w4];
      simpl in Hsent; [| done].
    unfold ret. simpl in *. eexists _, _. split; [reflexivity |].
    split; [done |]. split; [done |].
    unfold statuses. rewrite Htrace. subst w3. simpl.
    rewrite !status_reports_app. simpl. by rewrite !map_app, !app_nil_r.
  - cbv beta iota.
    pose proof (rest_of_cycle_step json_loads self (w_clock w) w3)
      as [Hevolves Hsame].
    assert (Hrest : ((drain_pending json_loads self ;;;
                      wait_for_next_interval self (w_clock w) ;;;
                      ret Next) w3).1 = Returns Next).
    { unfold bind.
      pose proof (drain_pending_returns w3 Hget Hdel) as Hdrain.
      pose proof (keeps_drain_pending json_loads self any_event
                    ltac:(done) ltac:(done) w3) as [[Henv _ _ _] _].
      destruct (drain_pending json_loads self w3) as [[[] | x] w4];
        simpl in Hdrain, Henv; [| done].
      pose proof (wait_for_next_interval_returns (w_clock w) w4) as Hwait.
      rewrite Henv in Hwait. specialize (Hwait Hsleep).
      by destruct (wait_for_next_interval self _ w4) as [[[] | x] w5]. }
    destruct ((drain_pending json_loads self ;;;
               wait_for_next_interval self (w_clock w) ;;;
               ret Next) w3) as [[[] | x] w5]; simpl in Hrest; try done.
    destruct Hevolves as [_ Hrunning (evs & Htrace & Hevs) _].
    simpl in Hrunning, Htrace, Hsame.
    eexists _, _. split; [reflexivity |].
    split; [done |]. split; [done |]. split; [by rewrite Hsame |].
    rewrite Htrace. subst w3. simpl.
    rewrite !status_reports_app, (no_status_reports evs Hevs). simpl.
    by rewrite !app_nil_r.
Qed.

Lemma failing_run fails rest w :
  Forall (failing_cycle json_loads self) fails ->
  running w = true ->
  fails <> [] ->
  max_failures <= consecutive_failures w + Z.of_nat (length fails) ->
  exists w',
    while_running json_loads self (fails ++ rest) w = (Returns LoopLeft, w')
    /\ statuses (w_trace w') = statuses (w_trace w) ++ ["error"].
Proof.
  intros Hfails. revert w.
  induction Hfails as [| e fails He _ IH]; intros w Hrunning Hnonempty Henough;
    [done |].
  simpl. rewrite Hrunning. simpl.
  destruct (failing_cycle_spec e w He) as (r & w1 & -> & Hrunning1 & Hspec).
  destruct (Z.leb_spec max_failures (consecutive_failures w + 1)) as [Hmax | Hbelow].
  - destruct Hspec as [-> Hstatuses]. by exists w1.
  - destruct Hspec as (-> & Hcount & Hreports).
    destruct He as (_ & _ & _ & _ & _ & _ & ->).
    destruct (IH w1) as (w' & Hrun & Hstatuses).
    + by rewrite Hrunning1.
    + intros ->. simpl in Henough. lia.
    + rewrite Hcount. simpl length in Henough. lia.
    + exists w'. split; [exact Hrun |].
      rewrite Hstatuses. unfold statuses. by rewrite Hreports.
Qed.

(** C1. Once the loop, still going, meets five cycles in a row in which a
    reading is there and forwarding it fails, it is left within those
    cycles, [main_loop] returns, and the status reports of the whole run
    are: online, one error, one offline. *)
Theorem five_forwarding_failures_stop_the_relay
    (startup : env) (before fails after : list env) (shutdown : env)
    (clock : Q) (w : world) :
  main_loop json_loads self startup before shutdown (boot clock)
  = (Returns StillLooping, w) ->
  length fails = 5%nat ->
  Forall (failing_cycle json_loads self) fails ->
  benign (env_post shutdown (car_status_url self)) ->
  exists w',
    main_loop json_loads self startup (before ++ fails ++ after) shutdown (boot clock)
    = (Returns LoopLeft, w')
    /\ running w' = false
    /\ statuses (w_trace w') = ["online"; "error"; "offline"].
Proof.
  intros Hbefore Hfive Hfails Hshutdown.
  rewrite main_loop_stages in Hbefore. rewrite main_loop_stages.
  set (w0 := with_env startup (with_running true (boot clock))) in *.
  destruct (send_status_update_trace self "online" online_details w0 initialized)
    as (Htrace0 & _ & _).
  destruct (send_status_update self "online" online_details w0) as [[sent | x] wa];
    [| done].
  simpl in Htrace0.
  destruct (while_running json_loads self before (with_failures 0 wa))
    as [[[] | x] wb] eqn:Hloop.
  { by destruct (send_status_update self "offline" offline_details _) as [[? | ?] ?]. }
  2: done.
  injection Hbefore as <-.
  destruct (still_looping json_loads self before _ _ Hloop)
    as (Hrunning & Hreports & Hcount).
  rewrite while_running_app, Hloop.
  destruct (failing_run fails after wb Hfails Hrunning) as (w1 & -> & Hstatuses).
  { intros ->. done. }
  { rewrite Hfive. specialize (Hcount ltac:(done)). unfold max_failures. lia. }
  set (w2 := with_env shutdown (with_running false w1)).
  destruct (send_status_update_trace self "offline" offline_details w2 initialized)
    as (Htrace2 & Hrunning2 & Hreturns).
  destruct (Hreturns Hshutdown) as [sent' Hsent].
  destruct (send_status_update self "offline" offline_details w2) as [[sent'' | x] w3];
    simpl in Hsent; [| done].
  exists w3. split; [done |]. split; [done |].
  simpl in Htrace2. unfold statuses in *. rewrite Htrace2, status_reports_app, map_app.
  subst w2. simpl w_trace. rewrite Hstatuses, Hreports. simpl w_trace.
  rewrite Htrace0. reflexivity.
Qed.
End FailingCycles.

Lemma cloud_down_is_failing : failing_cycle sample_loads sample_relay cloud_down.
Proof.
  split; [| split].
  - exists (JArr [JNum 1]). split; [done |]. by exists "[1]".
  - done.
  - repeat split; try done. intros n. by exists 0%Q.
Qed.

Lemma five_forwarding_failures_stop_the_relay_witness :
  (session sample_relay = true
   /\ length (replicate 5 cloud_down) = 5%nat
   /\ Forall (failing_cycle sample_loads sample_relay) (replicate 5 cloud_down)
   /\ benign (env_post no_reading (car_status_url sample_relay)))
  /\ exists w',
       main_loop sample_loads sample_relay no_reading
         ([no_reading] ++ replicate 5 cloud_down ++ [no_reading]) no_reading (boot 0)
       = (Returns LoopLeft, w')
       /\ running w' = false
       /\ statuses (w_trace w') = ["online"; "error"; "offline"].
Proof.
  assert (Hfails : Forall (failing_cycle sample_loads sample_relay)
                     (replicate 5 cloud_down))
    by (repeat constructor; apply cloud_down_is_failing).
  split; [by repeat split |].
  apply (five_forwarding_failures_stop_the_relay sample_loads sample_relay eq_refl
           no_reading [no_reading] (replicate 5 cloud_down) [no_reading] no_reading 0
           (main_loop sample_loads sample_relay no_reading [no_reading] no_reading
              (boot 0)).2);
    [by vm_compute | reflexivity | exact Hfails | done].
Defined.

(** C2 (the code departs from it). Five cycles in a row hit by an unexpected
    fault bring the counter to the threshold of 5, and yet no error is
    reported and the loop begins a sixth cycle: the handler of the fault
    counts it without comparing the counter with the threshold. *)
Lemma faults_reach_the_threshold_unnoticed :
  let five := main_loop sample_loads sample_relay no_reading (replicate 5 faulty)
                no_reading (boot 0) in
  let six := main_loop sample_loads sample_relay no_reading
               (replicate 5 faulty ++ [no_reading]) no_reading (boot 0) in
  (five.1 = Returns StillLooping /\ consecutive_failures five.2 = 5
   /\ running five.2 = true /\ statuses (w_trace five.2) = ["online"])
  /\ (six.1 = Returns StillLooping /\ consecutive_failures six.2 = 5
      /\ statuses (w_trace six.2) = ["online"]
      /\ w_trace six.2
         = w_trace five.2
           ++ [EvGet (latest_data_key sample_relay);
               EvGet (pending_commands_key sample_relay);
               EvSleep 10]).
Proof. vm_compute. by repeat split. Qed.

(** ** Step 4: the time a cycle took, and the sleep that follows *)

Lemma latency_sum_app (e : env) (from m k : nat) :
  (latency_sum e from (m + k)
   == latency_sum e from m + latency_sum e (from + m) k)%Q.
Proof.
  revert from. induction m as [| m IH]; intros from; simpl.
  - rewrite Nat.add_0_r. Lqa.lra.
  - rewrite (IH (S from)). replace (S from + m)%nat with (from + S m)%nat by lia.
    Lqa.lra.
Qed.

#[global] Instance accounted_preorder : PreOrder accounted.
Proof.
  split.
  - intros w. split; [done |]. split; [done |].
    rewrite Nat.sub_diag. simpl. Lqa.lra.
  - intros w1 w2 w3 (He1 & Hn1 & Hc1) (He2 & Hn2 & Hc2).
    split; [congruence |]. split; [lia |].
    rewrite He1 in Hc2.
    replace (w_calls w3 - w_calls w1)%nat
      with ((w_calls w2 - w_calls w1) + (w_calls w3 - w_calls w2))%nat by lia.
    rewrite latency_sum_app.
    replace (w_calls w1 + (w_calls w2 - w_calls w1))%nat with (w_calls w2) by lia.
    Lqa.lra.
Qed.

Lemma accounted_awaited ev w : accounted w (awaited ev w).
Proof.
  split; [done |]. split; [simpl; lia |]. simpl.
  replace (S (w_calls w) - w_calls w)%nat with 1%nat by lia. simpl. Lqa.lra.
Qed.

Lemma accounted_with_failures n w : accounted w (with_failures n w).
Proof.
  split; [done |]. split; [done |]. simpl. rewrite Nat.sub_diag. simpl. Lqa.lra.
Qed.

(** [max(0, x)] is what Python returns: one of its two arguments. *)
Lemma py_max0_Qmax (x : Q) : py_max0 x = Qmax 0 x.
Proof.
  unfold py_max0, Qmax, GenericMinMax.gmax.
  destruct (Qle_bool x 0) eqn:Hx.
  - apply Qle_bool_iff in Hx. destruct (0 ?= x)%Q eqn:Hcmp; try done.
    apply Qlt_alt in Hcmp. Lqa.lra.
  - destruct (0 ?= x)%Q eqn:Hcmp; [| done |].
    + apply Qeq_alt in Hcmp. assert (Hle : (x <= 0)%Q) by Lqa.lra.
      apply Qle_bool_iff in Hle. congruence.
    + apply Qgt_alt in Hcmp. assert (Hle : (x <= 0)%Q) by Lqa.lra.
      apply Qle_bool_iff in Hle. congruence.
Qed.

Lemma Qle_bool_Qmax0 (x : Q) : Qle_bool (Qmax 0 x) 0 = Qle_bool x 0.
Proof.
  rewrite <- py_max0_Qmax. unfold py_max0.
  destruct (Qle_bool x 0) eqn:Hx; [reflexivity | exact Hx].
Qed.

Section Step4.
Variable json_loads : string -> option json.
Variable self : CloudCommunicator.

Ltac on_the_clock :=
  step_through;
  try (intros ?;
       first [apply accounted_awaited | apply accounted_with_failures | reflexivity]).

Lemma accounted_get_latest : preserves accounted (get_latest_data_from_c2 json_loads self).
Proof. unfold get_latest_data_from_c2, loads. on_the_clock. Qed.

Lemma accounted_send_data car_data : preserves accounted (send_data_to_cloud self car_data).
Proof.
  unfold send_data_to_cloud. apply preserves_try; [exact _ | |].
  - unfold process_cloud_commands, republish. on_the_clock.
  - intros e handler. unfold except_Exception.
    destruct e; simpl; intros [= <-]; step_through.
Qed.

Lemma accounted_send_status st details :
  preserves accounted (send_status_update self st details).
Proof. unfold send_status_update. on_the_clock. Qed.

Lemma accounted_fetch_and_forward : preserves accounted (fetch_and_forward json_loads self).
Proof.
  unfold fetch_and_forward. on_the_clock.
  - apply accounted_get_latest.
  - apply accounted_send_data.
  - apply accounted_send_status.
Qed.

Lemma accounted_drain_pending : preserves accounted (drain_pending json_loads self).
Proof. unfold drain_pending, check_b2_for_commands, loads. on_the_clock. Qed.

(** Step 4 in full: the sleep asked for is [max(0, send_interval - (now -
    start_time))], and it is not asked for when that is 0. *)
Lemma wait_for_next_interval_sleeps (start_time : Q) (w : world) :
  let remaining :=
    (inject_Z (send_interval (config self)) - (w_clock w - start_time))%Q in
  wait_for_next_interval self start_time w
  = if Qle_bool remaining 0 then (Returns tt, w)
    else match env_sleep (w_env w) (w_calls w) with
         | Returns late =>
             (Returns tt, slept (Qmax 0 remaining) (Qmax 0 remaining + late) w)
         | Raises x => (Raises x, slept (Qmax 0 remaining) 0 w)
         end.
Proof.
  cbv zeta. unfold wait_for_next_interval, bind, sleep_time. simpl.
  rewrite py_max0_Qmax, Qle_bool_Qmax0.
  by destruct (Qle_bool _ 0).
Qed.

(** The [try] block once steps 1 to 3 are through: step 4 is all that is
    left, and the time that passed is the time the calls took. *)
Lemma cycle_body_from_step_4 (w w1 step_4 : world) :
  fetch_and_forward json_loads self w = (Returns Next, w1) ->
  drain_pending json_loads self w1 = (Returns tt, step_4) ->
  accounted w step_4
  /\ cycle_body json_loads self w
     = match wait_for_next_interval self (w_clock w) step_4 with
       | (Returns _, w') => (Returns Next, w')
       | (Raises x, w') => (Raises x, w')
       end.
Proof.
  intros Hfetch Hdrain. split.
  - etrans.
    + pose proof (accounted_fetch_and_forward w) as H. by rewrite Hfetch in H.
    + pose proof (accounted_drain_pending w1) as H. by rewrite Hdrain in H.
  - unfold cycle_body. unfold bind at 1. simpl time_time. cbv beta iota.
    unfold bind at 1. rewrite Hfetch. unfold bind at 1. rewrite Hdrain.
    unfold bind, ret.
    by destruct (wait_for_next_interval self (w_clock w) step_4) as [[[] | x] w'].
Qed.
End Step4.

(** ** C4: an absent reading, a failed forwarding *)

Section Taxonomy.
Variable json_loads : string -> option json.
Variable self : CloudCommunicator.

(** C4, amended. When the fetch returns nothing (or anything falsy), no
    request is posted, the counter stays as it is and the cycle goes on to
    the drain and to step 4. There it sleeps [max(0, send_interval -
    elapsed)], where [elapsed] is the time the calls of the cycle took:
    the interval less the time the cycle itself needed, and the full
    interval only if that is 0. When a reading is there and forwarding it
    fails (timeout, transport error, status other than 200), the counter
    goes up by one, and below the threshold the cycle ends normally and
    the loop goes on to the next cycle. *)
Theorem absent_reading_and_transient_failures (w : world) :
  session self = true ->
  (forall car_data w1,
      get_latest_data_from_c2 json_loads self w = (Returns car_data, w1) ->
      truthy car_data = false ->
      fetch_and_forward json_loads self w = (Returns Next, w1)
      /\ consecutive_failures w1 = consecutive_failures w
      /\ (exists evs, w_trace w1 = w_trace w ++ evs /\ Forall no_post evs)
      /\ cycle_body json_loads self w
         = (drain_pending json_loads self ;;;
            wait_for_next_interval self (w_clock w) ;;; ret Next) w1
      /\ forall step_4,
           drain_pending json_loads self w1 = (Returns tt, step_4) ->
           let interval := inject_Z (send_interval (config self)) in
           let elapsed := (w_clock step_4 - w_clock w)%Q in
           let remaining := (interval - elapsed)%Q in
           (elapsed
            == latency_sum (w_env w) (w_calls w) (w_calls step_4 - w_calls w))%Q
           /\ (exists evs, w_trace step_4 = w_trace w ++ evs /\ Forall no_post evs)
           /\ w_trace (cycle_body json_loads self w).2
              = w_trace step_4
                ++ (if Qle_bool remaining 0 then []
                    else [EvSleep (Qmax 0 remaining)])
           /\ consecutive_failures (cycle_body json_loads self w).2
              = consecutive_failures w)
  /\ (forall car_data,
        data_available json_loads self (w_env w) car_data ->
        forward_fails self (w_env w) ->
        consecutive_failures (fetch_and_forward json_loads self w).2
        = consecutive_failures w + 1
        /\ (consecutive_failures w + 1 < max_failures ->
            (fetch_and_forward json_loads self w).1 = Returns Next))
  /\ (forall e,
        failing_cycle json_loads self e ->
        consecutive_failures w + 1 < max_failures ->
        exists w',
          cycle json_loads self (with_env e w) = (Returns Next, w')
          /\ consecutive_failures w' = consecutive_failures w + 1
          /\ (running w = true ->
              forall rest,
                while_running json_loads self (e :: rest) w
                = while_running json_loads self rest w')).
Proof.
  intros Hsession. split; [| split].
  - intros car_data w1 Hget Hfalsy.
    assert (Hfetch : fetch_and_forward json_loads self w = (Returns Next, w1)).
    { unfold fetch_and_forward, bind. by rewrite Hget, Hfalsy. }
    pose proof (keeps_get_latest_data_from_c2 no_post json_loads self
                  ltac:(done) w) as [[_ _ Htrace _] Hcount].
    rewrite Hget in Htrace, Hcount. simpl in Htrace, Hcount.
    split; [done |]. split; [done |]. split; [done |]. split.
    { unfold cycle_body. unfold bind at 1. simpl time_time. cbv beta iota.
      unfold bind at 1. by rewrite Hfetch. }
    intros step_4 Hdrain. cbv zeta.
    destruct (cycle_body_from_step_4 json_loads self w w1 step_4 Hfetch Hdrain)
      as [(_ & _ & Hclock) Hbody].
    pose proof (keeps_drain_pending json_loads self no_post
                  ltac:(done) ltac:(done) w1) as [[_ _ Hdrained _] Hsame].
    rewrite Hdrain in Hdrained, Hsame. simpl in Hdrained, Hsame.
    split; [Lqa.lra |]. split.
    { destruct Htrace as (evs1 & Ht1 & Hevs1). destruct Hdrained as (evs2 & Ht2 & Hevs2).
      exists (evs1 ++ evs2). rewrite Ht2, Ht1, app_assoc. split; [done |].
      by apply Forall_app. }
    rewrite Hbody, wait_for_next_interval_sleeps. cbv zeta.
    destruct (Qle_bool _ 0).
    + simpl. rewrite app_nil_r. split; [done | congruence].
    + destruct (env_sleep (w_env step_4) (w_calls step_4)) as [late | x]; simpl;
        (split; [done | congruence]).
  - intros car_data Hdata Hfails.
    rewrite (fetch_and_forward_failing json_loads self Hsession car_data w Hdata Hfails).
    cbv zeta. set (w3 := with_failures _ _).
    destruct (Z.leb_spec max_failures (consecutive_failures w + 1)) as [Hmax | Hbelow].
    + split; [| lia]. unfold bind.
      pose proof (keeps_send_status_update any_event self "error"
                    (JObj [("message", JStr "Cloud communication failed");
                           ("consecutive_failures",
                            JNum (inject_Z (consecutive_failures w + 1)))])
                    ltac:(done) w3) as [_ Hcount].
      by destruct (send_status_update self "error" _ w3) as [[sent | x] w4].
    + by split.
  - intros e Hfailing Hbelow.
    destruct (failing_cycle_spec json_loads self Hsession e w Hfailing)
      as (r & w' & Hcycle & Hrunning & Hspec).
    destruct (Z.leb_spec max_failures (consecutive_failures w + 1)) as [Hmax | _];
      [lia |].
    destruct Hspec as (-> & Hcount & _).
    exists w'. split; [done |]. split; [done |].
    intros Hgoing rest. simpl. rewrite Hgoing, Hcycle. simpl.
    by destruct Hfailing as (_ & _ & _ & _ & _ & _ & ->).
Qed.
End Taxonomy.

Lemma absent_reading_and_transient_failures_witness :
  let w := with_env slow_store (boot 0) in
  (session sample_relay = true
   /\ failing_cycle sample_loads sample_relay cloud_down
   /\ consecutive_failures w + 1 < max_failures)
  /\ fetch_and_forward sample_loads sample_relay w
     = (Returns Next, awaited (EvGet (latest_data_key sample_relay)) w)
  /\ w_trace (cycle_body sample_loads sample_relay w).2
     = [EvGet (latest_data_key sample_relay);
        EvGet (pending_commands_key sample_relay);
        EvSleep 7]
  /\ exists w',
       cycle sample_loads sample_relay (with_env cloud_down w) = (Returns Next, w')
       /\ consecutive_failures w' = 1.
Proof.
  intros w.
  destruct (absent_reading_and_transient_failures sample_loads sample_relay w eq_refl)
    as (Habsent & _ & Hfails).
  split; [split; [done | split; [apply cloud_down_is_failing | done]] |].
  destruct (Habsent JNull (awaited (EvGet (latest_data_key sample_relay)) w)
              eq_refl eq_refl) as (Hfetch & _ & _ & _ & Hstep_4).
  split; [exact Hfetch |]. split.
  - destruct (Hstep_4 (awaited (EvGet (pending_commands_key sample_relay))
                         (awaited (EvGet (latest_data_key sample_relay)) w))
                eq_refl) as (_ & _ & Htrace & _).
    exact Htrace.
  - destruct (Hfails cloud_down cloud_down_is_failing ltac:(done))
      as (w' & Hcycle & Hcount & _).
    exists w'. by split.
Defined.

(** C4 as stated fails as soon as the cycle itself takes time: with the
    default interval of 10 seconds and a store that needs 3 seconds to
    report that there is no reading, the cycle sleeps 7 seconds, not the
    full interval. *)
Lemma slow_store_shortens_the_sleep :
  let w := with_env slow_store (boot 0) in
  (get_latest_data_from_c2 sample_loads sample_relay w).1 = Returns JNull
  /\ send_interval (config sample_relay) = 10
  /\ w_trace (cycle sample_loads sample_relay w).2
     = [EvGet (latest_data_key sample_relay);
        EvGet (pending_commands_key sample_relay);
        EvSleep 7].
Proof. vm_compute. by repeat split. Qed.

(** ** C6: the cadence of the loop *)

Section Cadence.
Variable json_loads : string -> option json.
Variable self : CloudCommunicator.

(** C6, amended. A cycle whose steps 1 to 3 are through asks in step 4
    for a sleep of [max(0, send_interval - elapsed)], where [elapsed] is
    the clock of step 4 less the clock at the start of the cycle, which
    is the time the calls of the cycle took; there is no sleep at all
    when that is 0. If the sleep returns, the cycle ends normally; if no
    call takes negative time and no sleep wakes early, the next cycle
    then starts at least [send_interval] after this one, and under
    zero-latency I/O exactly [send_interval] after it. *)
Theorem cycles_keep_the_cadence (w w1 step_4 : world) :
  fetch_and_forward json_loads self w = (Returns Next, w1) ->
  drain_pending json_loads self w1 = (Returns tt, step_4) ->
  let interval := inject_Z (send_interval (config self)) in
  let elapsed := (w_clock step_4 - w_clock w)%Q in
  let requested := Qmax 0 (interval - elapsed) in
  (elapsed == latency_sum (w_env w) (w_calls w) (w_calls step_4 - w_calls w))%Q
  /\ (0 <= requested)%Q
  /\ cycle_body json_loads self w
     = (if Qle_bool (interval - elapsed) 0 then (Returns Next, step_4)
        else match env_sleep (w_env w) (w_calls step_4) with
             | Returns late =>
                 (Returns Next, slept requested (requested + late) step_4)
             | Raises x => (Raises x, slept requested 0 step_4)
             end)
  /\ forall w',
       cycle_body json_loads self w = (Returns Next, w') ->
       cycle json_loads self w = (Returns Next, w')
       /\ w_trace w'
          = w_trace step_4
            ++ (if Qle_bool (interval - elapsed) 0 then [] else [EvSleep requested])
       /\ (nonneg_latency (w_env w) ->
           (0 <= elapsed)%Q /\ (w_clock w + interval <= w_clock w')%Q)
       /\ (zero_latency (w_env w) -> (0 <= interval)%Q ->
           (elapsed == 0)%Q /\ (requested == interval)%Q
           /\ (w_clock w' == w_clock w + interval)%Q).
Proof.
  intros Hfetch Hdrain interval elapsed requested.
  destruct (cycle_body_from_step_4 json_loads self w w1 step_4 Hfetch Hdrain)
    as [(Henv & Hcalls & Hclock) Hbody].
  assert (Hnonneg : (0 <= requested)%Q) by apply Q.le_max_l.
  assert (Hcycle_body :
            cycle_body json_loads self w
            = (if Qle_bool (interval - elapsed) 0 then (Returns Next, step_4)
               else match env_sleep (w_env w) (w_calls step_4) with
                    | Returns late =>
                        (Returns Next, slept requested (requested + late) step_4)
                    | Raises x => (Raises x, slept requested 0 step_4)
                    end)).
  { rewrite Hbody, wait_for_next_interval_sleeps. cbv zeta.
    fold interval. fold elapsed. fold requested. rewrite Henv.
    destruct (Qle_bool (interval - elapsed) 0); [done |].
    by destruct (env_sleep (w_env w) (w_calls step_4)). }
  split; [subst elapsed; Lqa.lra |]. split; [exact Hnonneg |].
  split; [exact Hcycle_body |].
  intros w' Hends.
  split; [unfold cycle, try_except; by rewrite Hends |].
  rewrite Hcycle_body in Hends.
  assert (Hsum : forall n, nonneg_latency (w_env w) ->
                   (0 <= latency_sum (w_env w) (w_calls w) n)%Q).
  { intros n [Hlat _]. generalize (w_calls w).
    induction n as [| n IH]; intros from; simpl; [Lqa.lra |].
    specialize (Hlat from). specialize (IH (S from)). Lqa.lra. }
  assert (Hzero : forall n, zero_latency (w_env w) ->
                    (latency_sum (w_env w) (w_calls w) n == 0)%Q).
  { intros n [Hlat _]. generalize (w_calls w).
    induction n as [| n IH]; intros from; simpl; [Lqa.lra |].
    specialize (Hlat from). specialize (IH (S from)). Lqa.lra. }
  assert (Hrequested : (requested == Qmax 0 (interval - elapsed))%Q) by reflexivity.
  destruct (Qle_bool (interval - elapsed) 0) eqn:Hle.
  - injection Hends as <-. rewrite app_nil_r. split; [done |].
    apply Qle_bool_iff in Hle. split.
    + intros Hlatency. specialize (Hsum (w_calls step_4 - w_calls w)%nat Hlatency).
      subst elapsed. split; Lqa.lra.
    + intros Hinstant Hinterval.
      specialize (Hzero (w_calls step_4 - w_calls w)%nat Hinstant).
      assert (Hmax : (requested == 0)%Q) by (by apply Q.max_l).
      subst elapsed. repeat split; Lqa.lra.
  - assert (Hpos : (0 < interval - elapsed)%Q).
    { destruct (Qlt_le_dec 0 (interval - elapsed)) as [Hlt | Hge]; [done |].
      apply Qle_bool_iff in Hge. congruence. }
    assert (Hmax : (requested == interval - elapsed)%Q)
      by (apply Q.max_r; by apply Qlt_le_weak).
    destruct (env_sleep (w_env w) (w_calls step_4)) as [late | x] eqn:Hsleep;
      [| done].
    injection Hends as <-. simpl. split; [done |]. split.
    + intros Hlatency. specialize (Hsum (w_calls step_4 - w_calls w)%nat Hlatency).
      destruct Hlatency as [_ Hlate]. specialize (Hlate _ _ Hsleep).
      subst elapsed. split; Lqa.lra.
    + intros Hinstant Hinterval.
      specialize (Hzero (w_calls step_4 - w_calls w)%nat Hinstant).
      destruct Hinstant as [_ Hlate]. specialize (Hlate _ _ Hsleep).
      subst elapsed. repeat split; Lqa.lra.
Qed.
End Cadence.

Lemma cycles_keep_the_cadence_witness :
  let w := with_env slow_store (boot 0) in
  let w1 := awaited (EvGet (latest_data_key sample_relay)) w in
  let step_4 := awaited (EvGet (pending_commands_key sample_relay)) w1 in
  (fetch_and_forward sample_loads sample_relay w = (Returns Next, w1)
   /\ drain_pending sample_loads sample_relay w1 = (Returns tt, step_4))
  /\ cycle_body sample_loads sample_relay w = (Returns Next, slept 7 7 step_4)
  /\ w_clock (slept 7 7 step_4) = 10%Q.
Proof.
  intros w w1 step_4. split; [split; reflexivity |].
  destruct (cycles_keep_the_cadence sample_loads sample_relay w w1 step_4
              eq_refl eq_refl) as (_ & _ & Hbody & _).
  split; [exact Hbody | reflexivity].
Defined.

(** C6 as stated fails for a cycle that the fault handler ends: with the
    default interval of 10 seconds and zero-latency I/O, a cycle whose
    sleep raises is followed by a pause of 5 seconds, and the next cycle
    starts 5 seconds after this one. *)
Lemma faulted_cycle_restarts_early :
  let w := with_env faulty (boot 0) in
  zero_latency (w_env w)
  /\ send_interval (config sample_relay) = 10
  /\ (cycle sample_loads sample_relay w).1 = Returns Next
  /\ w_trace (cycle sample_loads sample_relay w).2
     = [EvGet (latest_data_key sample_relay);
        EvGet (pending_commands_key sample_relay);
        EvSleep 10; EvSleep 5]
  /\ w_clock (cycle sample_loads sample_relay w).2 = (w_clock w + 5)%Q.
Proof.
  intros w. split.
  - split; [intros n; reflexivity |].
    intros n late. simpl. destruct (Nat.eqb n 2); [done |]. by intros [= <-].
  - vm_compute. by repeat split.
Qed.

(** ** The sensor generators *)

Section SensorProperties.
Local Open Scope R_scope.

Lemma Int_part_bounds (x : R) : IZR (Int_part x) <= x < IZR (Int_part x) + 1.
Proof. destruct (base_Int_part x) as [H1 H2]. lra. Qed.

Lemma round_half_even_cases (x : R) :
  round_half_even x = Int_part x
  \/ (round_half_even x = (Int_part x + 1)%Z /\ 1 / 2 <= x - IZR (Int_part x)).
Proof.
  unfold round_half_even.
  destruct (Rlt_dec (x - IZR (Int_part x)) (1 / 2)) as [Hlt | Hge]; [by left |].
  destruct (Rlt_dec (1 / 2) (x - IZR (Int_part x))) as [Hgt | Hle].
  - right. split; [done | lra].
  - destruct (Z.even (Int_part x)); [by left |].
    right. split; [done | lra].
Qed.

Lemma round_half_even_lower (a : Z) (x : R) :
  IZR a <= x -> (a <= round_half_even x)%Z.
Proof.
  intros Ha. destruct (Int_part_bounds x) as [_ Hup].
  assert (Hf : (a <= Int_part x)%Z).
  { apply Z.lt_succ_r, lt_IZR. rewrite succ_IZR. lra. }
  destruct (round_half_even_cases x) as [-> | [-> _]]; lia.
Qed.

Lemma round_half_even_upper (b : Z) (x : R) :
  x <= IZR b -> (round_half_even x <= b)%Z.
Proof.
  intros Hb. destruct (Int_part_bounds x) as [Hlo _].
  destruct (round_half_even_cases x) as [-> | [-> Hhalf]].
  - apply le_IZR. lra.
  - apply Z.le_succ_l, lt_IZR. lra.
Qed.

Lemma round_between (lo hi : Z) (x : R) (ndigits : nat) :
  IZR lo <= x * 10 ^ ndigits <= IZR hi ->
  IZR lo / 10 ^ ndigits <= round x ndigits <= IZR hi / 10 ^ ndigits.
Proof.
  intros [Hlo Hhi]. unfold round.
  assert (Hpos : 0 < 10 ^ ndigits) by (apply pow_lt; lra).
  apply round_half_even_lower in Hlo. apply round_half_even_upper in Hhi.
  apply IZR_le in Hlo, Hhi.
  split; apply Rmult_le_compat_r; try done; left; by apply Rinv_0_lt_compat.
Qed.

Lemma clamp_bounds (x : R) : -5 <= Rmax (-5) (Rmin 5 x) <= 5.
Proof.
  split; [apply Rmax_l |].
  apply Rmax_lub; [lra | apply Rmin_l].
Qed.

Lemma reachable_invariant (self : SensorSimulator) :
  reachable self -> emitter_invariant self.
Proof.
  induction 1 as [| self now rt rn _ IH _ _ | self elapsed _ IH _].
  - unfold emitter_invariant; simpl. lra.
  - destruct IH as (Hi & Ho & Hlat & Hlng & _).
    unfold emitter_invariant; simpl.
    repeat split; try done; apply clamp_bounds.
  - exact IH.
Qed.

Lemma uniform_bounds (a b r : R) :
  a <= b -> is_draw r -> a <= uniform a b r <= b.
Proof. unfold uniform, is_draw. intros Hab [H0 H1]. nra. Qed.

Lemma scaled_by_unit (c d : R) : -1 <= c <= 1 -> 0 <= d -> - d <= c * d <= d.
Proof. intros [Hl Hu] Hd. nra. Qed.

(** C9. The trend of a new emitter is 0; in every reachable state of an
    emitter it lies in [-5, 5], and so it does again after any call of the
    outdoor generator, whatever the clock and the draws. *)
Theorem outdoor_trend_clamped (self : SensorSimulator) :
  reachable self ->
  outdoor_temp_trend new_simulator = 0
  /\ -5 <= outdoor_temp_trend self <= 5
  /\ forall now r_trend r_noise,
       -5 <= outdoor_temp_trend
               (snd (generate_outdoor_temperature self now r_trend r_noise)) <= 5.
Proof.
  intros Hreach. split; [done |].
  split; [apply (reachable_invariant self Hreach) |].
  intros now rt rn. simpl. apply clamp_bounds.
Qed.

(** C8, amended. In every reachable state and for all draws, the indoor
    reading lies in [15, 28] and the outdoor reading in [-4, 24]; both lie
    in the envelope [-50, 100], the latitude in [-90, 90] and the
    longitude in [-180, 180]. *)
Theorem generated_readings_bounds (self : SensorSimulator)
    (now r_indoor r_trend r_noise r_gps : R) :
  reachable self ->
  is_draw r_indoor -> is_draw r_trend -> is_draw r_noise -> is_draw r_gps ->
  let indoor := generate_indoor_temperature self r_indoor in
  let outdoor := fst (generate_outdoor_temperature self now r_trend r_noise) in
  let lat := fst (generate_gps_location self r_gps) in
  let lng := snd (generate_gps_location self r_gps) in
  (15 <= indoor <= 28 /\ -4 <= outdoor <= 24)
  /\ (-50 <= indoor <= 100 /\ -50 <= outdoor <= 100)
  /\ (-90 <= lat <= 90 /\ -180 <= lng <= 180).
Proof.
  intros Hreach Hri Hrt Hrn Hrg.
  destruct (reachable_invariant self Hreach) as (Hi & Ho & Hlat & Hlng & Htrend).
  assert (Hin : 15 <= generate_indoor_temperature self r_indoor <= 28).
  { unfold generate_indoor_temperature. rewrite Hi.
    pose proof (uniform_bounds (-2) 5 r_indoor ltac:(lra) Hri) as Hu.
    pose proof (SIN_bound (time_offset self * 0.01)) as Hs.
    pose proof (round_between 150 280
      (20 + uniform (-2) 5 r_indoor + sin (time_offset self * 0.01) * 3) 1) as Hr.
    simpl pow in Hr. lra. }
  assert (Hout : -4 <= fst (generate_outdoor_temperature self now r_trend r_noise) <= 24).
  { unfold generate_outdoor_temperature; simpl fst. rewrite Ho.
    pose proof (uniform_bounds (-1) 1 r_noise ltac:(lra) Hrn) as Hu.
    set (angle := (fmod now 86400 / 3600 - 6) * PI / 12).
    pose proof (SIN_bound angle) as Hs.
    pose proof (round_between (-40) 240
      (10 + sin angle * 8 + outdoor_temp_trend self + uniform (-1) 1 r_noise) 1) as Hr.
    simpl pow in Hr. lra. }
  assert (Hgps : 60.1649 <= fst (generate_gps_location self r_gps) <= 60.1749
                 /\ 24.9334 <= snd (generate_gps_location self r_gps) <= 24.9434).
  { unfold generate_gps_location; simpl fst; simpl snd. rewrite Hlat, Hlng.
    pose proof (uniform_bounds 0 0.005 r_gps ltac:(lra) Hrg) as Hu.
    set (angle := time_offset self * 0.02).
    pose proof (scaled_by_unit _ _ (COS_bound angle) (proj1 Hu)) as Hc.
    pose proof (scaled_by_unit _ _ (SIN_bound angle) (proj1 Hu)) as Hs.
    pose proof (round_between 60164900 60174900
      (60.1699 + cos angle * uniform 0 0.005 r_gps) 6) as Hr1.
    pose proof (round_between 24933400 24943400
      (24.9384 + sin angle * uniform 0 0.005 r_gps) 6) as Hr2.
    simpl pow in Hr1, Hr2. lra. }
  cbv zeta. lra.
Qed.

Lemma is_draw_0 : is_draw 0.
Proof. unfold is_draw. lra. Qed.

Lemma cooled_reachable (n : nat) : reachable (cooled n).
Proof.
  induction n as [| n IH]; [apply reach_new |].
  apply reach_outdoor; [exact IH | apply is_draw_0 | apply is_draw_0].
Qed.

Lemma cooled_trend (n : nat) :
  (n <= 50)%nat -> outdoor_temp_trend (cooled n) = - (INR n / 10).
Proof.
  induction n as [| n IH]; intros Hn.
  - simpl. lra.
  - change (cooled (S n))
      with (snd (generate_outdoor_temperature (cooled n) midnight 0 0)).
    cbn [generate_outdoor_temperature snd outdoor_temp_trend].
    rewrite IH by lia. rewrite S_INR.
    assert (Hn' : 0 <= INR n <= 49).
    { split; [apply pos_INR |].
      pose proof (le_INR n 49 ltac:(lia)) as H49. simpl in H49. lra. }
    unfold uniform.
    rewrite Rmin_right by lra. rewrite Rmax_right by lra. lra.
Qed.

Lemma cooled_base (n : nat) : base_outdoor_temp (cooled n) = 10.
Proof. apply (reachable_invariant _ (cooled_reachable n)). Qed.

Lemma midnight_daily_variation :
  sin ((fmod midnight 86400 / 3600 - 6) * PI / 12) = -1.
Proof.
  assert (Hfloor : Int_part (midnight / 86400) = 19723%Z).
  { symmetry. apply Int_part_spec. unfold midnight. lra. }
  unfold fmod. rewrite Hfloor.
  replace ((((midnight - 86400 * 19723) / 3600) - 6) * PI / 12) with (- (PI / 2))
    by (unfold midnight; lra).
  rewrite sin_neg, sin_PI2. reflexivity.
Qed.

(** C8 as stated fails for the outdoor band: after twenty ticks that each
    lower the trend by 0.1, the reading at midnight UTC with the lowest
    noise is -1, below the band [0, 30]. *)
Lemma outdoor_reading_below_zero :
  reachable (cooled 20) /\ is_draw 0
  /\ fst (generate_outdoor_temperature (cooled 20) midnight 0 0) = -1
  /\ ~ (0 <= fst (generate_outdoor_temperature (cooled 20) midnight 0 0) <= 30).
Proof.
  assert (Hreading : fst (generate_outdoor_temperature (cooled 20) midnight 0 0) = -1).
  { cbn [generate_outdoor_temperature fst].
    rewrite midnight_daily_variation, cooled_base, cooled_trend by lia.
    unfold uniform.
    pose proof (round_between (-10) (-10)
      (10 + -1 * 8 + - (INR 20 / 10) + (-1 + (1 - -1) * 0)) 1) as Hr.
    simpl pow in Hr. simpl INR in Hr. simpl INR. lra. }
  split; [apply cooled_reachable |]. split; [apply is_draw_0 |].
  split; [exact Hreading |]. rewrite Hreading. lra.
Qed.

Lemma outdoor_trend_clamped_witness :
  reachable (cooled 20)
  /\ -5 <= outdoor_temp_trend (cooled 20) <= 5.
Proof.
  split; [apply cooled_reachable |].
  exact (proj1 (proj2 (outdoor_trend_clamped (cooled 20) (cooled_reachable 20)))).
Defined.

Lemma generated_readings_bounds_witness :
  (reachable new_simulator /\ is_draw 0)
  /\ -4 <= fst (generate_outdoor_temperature new_simulator 0 0 0) <= 24.
Proof.
  split; [split; [apply reach_new | apply is_draw_0] |].
  exact (proj2 (proj1 (generated_readings_bounds new_simulator 0 0 0 0 0 reach_new
                         is_draw_0 is_draw_0 is_draw_0 is_draw_0))).
Defined.
End SensorProperties.

Local Open Scope string_scope.
Local Open Scope Z_scope.
Local Open Scope list_scope.
Local Open Scope prog_scope.


(** X. None of the relay's helper coroutines lets an exception of class
    [Exception] escape: what they raise is an interruption. *)
Theorem helpers_raise_interruptions_only {W : Type}
    `{!RedisClient W, !ClientSession W, !Runtime W}
    (json_loads : string -> option json) (self : CloudCommunicator)
    (car_data commands details : json) (st : string) (w : W) (e : exn) :
  (get_latest_data_from_c2 json_loads self w).1 = Raises e
  \/ (send_data_to_cloud self car_data w).1 = Raises e
  \/ (process_cloud_commands self commands w).1 = Raises e
  \/ (check_b2_for_commands json_loads self w).1 = Raises e
  \/ (send_status_update self st details w).1 = Raises e ->
  is_Exception e = false.
Proof.
  intros [H | [H | [H | [H | H]]]].
  - by eapply get_latest_data_from_c2_swallows.
  - by eapply send_data_to_cloud_swallows.
  - by eapply process_cloud_commands_swallows.
  - by eapply check_b2_for_commands_swallows.
  - by eapply send_status_update_swallows.
Qed.

Lemma helpers_raise_interruptions_only_witness :
  (get_latest_data_from_c2 sample_loads sample_relay (with_env cancelled (boot 0))).1
  = Raises CancelledError
  /\ is_Exception CancelledError = false.
Proof.
  split; [reflexivity |].
  apply (helpers_raise_interruptions_only sample_loads sample_relay
           JNull JNull JNull "" (with_env cancelled (boot 0)) CancelledError).
  left. reflexivity.
Defined.

Lemma trace_grows_mono (P P' : event -> Prop) w w' :
  (forall ev, P ev -> P' ev) -> trace_grows P w w' -> trace_grows P' w w'.
Proof.
  intros Hsub (evs & Ht & Hp). exists evs. split; [done |].
  eapply Forall_impl; eauto.
Qed.

Section Uninitialized.
Variable json_loads : string -> option json.
Variable self : CloudCommunicator.
Hypothesis no_client : redis_client self = false.
Hypothesis no_session : session self = false.

Lemma get_latest_without_client (w : world) :
  get_latest_data_from_c2 json_loads self w = (Returns JNull, w).
Proof. unfold get_latest_data_from_c2, try_except. by rewrite no_client. Qed.

Lemma check_b2_without_client (w : world) :
  check_b2_for_commands json_loads self w = (Returns JNull, w).
Proof. unfold check_b2_for_commands, try_except. by rewrite no_client. Qed.

Lemma send_status_without_session st details (w : world) :
  send_status_update self st details w = (Returns false, w).
Proof. unfold send_status_update, try_except. by rewrite no_session. Qed.

Lemma fetch_and_forward_without_client w :
  fetch_and_forward json_loads self w = (Returns Next, w).
Proof.
  unfold fetch_and_forward. unfold bind at 1.
  by rewrite get_latest_without_client.
Qed.

Lemma drain_pending_without_client w :
  drain_pending json_loads self w = (Returns tt, w).
Proof.
  unfold drain_pending. unfold bind at 1.
  by rewrite check_b2_without_client.
Qed.

Lemma cycle_body_without_client w :
  cycle_body json_loads self w
  = (wait_for_next_interval self (w_clock w) ;;; ret Next) w.
Proof.
  unfold cycle_body. unfold bind at 1. simpl time_time. cbv beta iota.
  unfold bind at 1. rewrite fetch_and_forward_without_client.
  unfold bind at 1. by rewrite drain_pending_without_client.
Qed.

Lemma cycle_without_client w :
  trace_grows is_sleep w (cycle json_loads self w).2.
Proof.
  unfold cycle, try_except. rewrite cycle_body_without_client.
  assert (Hwait : helper_step is_sleep w
            ((wait_for_next_interval self (w_clock w) ;;; ret Next) w).2).
  { revert w. intros w.
    apply (preserves_bind (helper_step is_sleep)); [| intros ?; apply preserves_ret; exact _].
    by apply keeps_wait_for_next_interval. }
  destruct ((wait_for_next_interval self (w_clock w) ;;; ret Next) w)
    as [[go | x] w1]; simpl in Hwait.
  { by apply evolves_trace_grows, Hwait. }
  assert (Hhandler : trace_grows is_sleep w
            ((increment_failures ;;; asyncio_sleep 5 ;;; ret Next) w1).2).
  { etrans; [apply evolves_trace_grows, Hwait |].
    unfold bind, increment_failures. cbv beta iota.
    pose proof (keeps_asyncio_sleep is_sleep 5 I ltac:(done)
                  (with_failures (consecutive_failures w1 + 1) w1)) as [Hs _].
    apply evolves_trace_grows in Hs.
    destruct (asyncio_sleep 5 _) as [[[] | y] w2]; exact Hs. }
  destruct x; simpl; try exact Hhandler; by apply evolves_trace_grows, Hwait.
Qed.

Lemma while_running_without_client schedule w :
  trace_grows is_sleep w (while_running json_loads self schedule w).2.
Proof.
  revert w. induction schedule as [| e schedule IH]; intros w; simpl.
  - destruct (running w); reflexivity.
  - destruct (running w); simpl; [| reflexivity].
    pose proof (cycle_without_client (with_env e w)) as Hcycle.
    destruct (cycle json_loads self (with_env e w)) as [[[] | x] w1];
      simpl in Hcycle; try exact Hcycle.
    etrans; [exact Hcycle |].
    specialize (IH (if env_stop e then with_running false w1 else w1)).
    destruct IH as (evs & Htrace & Hevs). exists evs. split; [| done].
    rewrite Htrace. by destruct (env_stop e).
Qed.

(** X. A relay that was never initialized (no Redis client, no session)
    touches neither the store nor the endpoint: whatever the environment,
    all that a run of [main_loop] does is sleep. *)
Theorem uninitialized_relay_only_sleeps
    (startup : env) (schedule : list env) (shutdown : env) (clock : Q) :
  Forall is_sleep
    (w_trace (main_loop json_loads self startup schedule shutdown (boot clock)).2).
Proof.
  rewrite main_loop_stages, send_status_without_session.
  pose proof (while_running_without_client schedule
                (with_failures 0 (with_env startup (with_running true (boot clock)))))
    as (evs & Htrace & Hevs).
  destruct (while_running json_loads self schedule _) as [[[] | x] wb];
    simpl in Htrace; try (simpl; by rewrite Htrace).
  rewrite send_status_without_session. simpl. by rewrite Htrace.
Qed.
End Uninitialized.

Lemma uninitialized_relay_only_sleeps_witness :
  let self := new_communicator (config sample_relay) in
  (redis_client self = false /\ session self = false)
  /\ Forall is_sleep
       (w_trace (main_loop sample_loads self no_reading [cloud_down; no_reading]
                   no_reading (boot 0)).2).
Proof.
  intros self. split; [split; reflexivity |].
  exact (uninitialized_relay_only_sleeps sample_loads self eq_refl eq_refl
           no_reading [cloud_down; no_reading] no_reading 0).
Defined.

(** ** The status reports of a run *)

Lemma status_reports_error_report self now n :
  status_reports [error_report self now n] = [("error", error_details n)].
Proof. reflexivity. Qed.

Lemma gave_up_reports self w w' :
  gave_up self w w' ->
  exists n,
    max_failures <= n
    /\ forward_refused self (w_env w)
    /\ status_reports (w_trace w')
       = status_reports (w_trace w)
         ++ (if session self then [("error", error_details n)] else []).
Proof.
  intros (wm & now & n & Hstep & Hn & Hrefused & Htrace).
  exists n. split; [done |]. split; [done |].
  rewrite Htrace, status_reports_app, (cycle_step_same_reports _ _ Hstep).
  by destruct (session self).
Qed.

Section Reports.
Variable json_loads : string -> option json.
Variable self : CloudCommunicator.

(** Steps 1 and 2, more closely: the only status report they post is the
    error report, after forwarding failed with the counter at the
    threshold, and it is the last thing they do. *)
Lemma fetch_and_forward_reports w :
  match fetch_and_forward json_loads self w with
  | (Returns Next, w') => cycle_step no_status w w'
  | (Returns Break, w') => gave_up self w w'
  | (Raises e, w') => is_Exception e = false /\ ended self w w'
  end.
Proof.
  unfold fetch_and_forward, bind.
  pose proof (helper_get_latest json_loads self no_status w ltac:(done)) as Hstep1.
  pose proof (get_latest_data_from_c2_swallows json_loads self w) as Hswallow1.
  destruct (get_latest_data_from_c2 json_loads self w) as [[car_data | e] w1];
    simpl in Hstep1, Hswallow1.
  2: { split; [by apply Hswallow1 |]. left. by apply helper_step_cycle_step. }
  destruct (truthy car_data); [| by apply helper_step_cycle_step].
  pose proof (helper_send_data self no_status car_data w1
                (fun now => no_status_car_data self _ now car_data)
                ltac:(done)) as Hstep2.
  pose proof (send_data_to_cloud_swallows self car_data w1) as Hswallow2.
  assert (Hboth : helper_step no_status w (send_data_to_cloud self car_data w1).2)
    by (etrans; eassumption).
  assert (Hrefused : (send_data_to_cloud self car_data w1).1 = Returns false ->
                     forward_refused self (w_env w)).
  { intros Hfalse. exists car_data, w1. split; [| done].
    by destruct Hstep1 as [[-> _ _ _] _]. }
  destruct (send_data_to_cloud self car_data w1) as [[success | e] w2];
    simpl in Hstep2, Hswallow2, Hboth, Hrefused.
  2: { split; [by apply Hswallow2 |]. left. by apply helper_step_cycle_step. }
  destruct Hboth as [Hevolves Hfailures].
  destruct success; simpl.
  { split; [by apply evolves_with_failures | done]. }
  set (n := consecutive_failures w2 + 1).
  assert (Hcounted : cycle_step no_status w (with_failures n w2)).
  { split; [by apply evolves_with_failures |]. simpl. subst n. lia. }
  destruct (Z.leb_spec max_failures n) as [Hmax | Hbelow]; [| exact Hcounted].
  fold (error_details n).
  assert (Hgave : gave_up self w
            (send_status_update self "error" (error_details n)
               (with_failures n w2)).2).
  { exists (with_failures n w2),
      (env_utcnow (w_env (with_failures n w2)) (w_calls (with_failures n w2))), n.
    split; [exact Hcounted |]. split; [exact Hmax |]. split; [by apply Hrefused |].
    destruct (session self) eqn:Hsession.
    - by destruct (send_status_update_trace self "error" (error_details n)
                     (with_failures n w2) Hsession) as [-> _].
    - unfold send_status_update, try_except. rewrite Hsession. simpl.
      by rewrite app_nil_r. }
  pose proof (send_status_update_swallows self "error" (error_details n)
                (with_failures n w2)) as Hswallow3.
  destruct (send_status_update self "error" (error_details n) (with_failures n w2))
    as [[sent | e] w3]; simpl in Hgave, Hswallow3; simpl.
  - exact Hgave.
  - split; [by apply Hswallow3 | by right].
Qed.

Lemma cycle_body_reports w :
  match cycle_body json_loads self w with
  | (Returns Next, w') => cycle_step no_status w w'
  | (Returns Break, w') => ended self w w'
  | (Raises e, w') =>
      (is_Exception e = true -> cycle_step no_status w w') /\ ended self w w'
  end.
Proof.
  unfold cycle_body. unfold bind at 1. simpl time_time. cbv beta iota.
  unfold bind at 1.
  pose proof (fetch_and_forward_reports w) as Hspec.
  destruct (fetch_and_forward json_loads self w) as [[[] | e] w1].
  - pose proof (rest_of_cycle_step json_loads self (w_clock w) w1) as Hrest.
    apply helper_step_cycle_step in Hrest.
    assert (Hall : cycle_step no_status w
              ((drain_pending json_loads self ;;;
                wait_for_next_interval self (w_clock w) ;;; ret Next) w1).2)
      by by etrans.
    destruct ((drain_pending json_loads self ;;;
               wait_for_next_interval self (w_clock w) ;;; ret Next) w1)
      as [[[] | e] w2]; simpl in Hall.
    + exact Hall.
    + by left.
    + split; [done | by left].
  - by right.
  - destruct Hspec as [He Hstep]. split; [| done]. intros Hyes. congruence.
Qed.

(** The handler of an unexpected fault posts nothing, however it ends. *)
Lemma fault_handler_quiet w w1 :
  cycle_step no_status w w1 ->
  cycle_step no_status w
    ((increment_failures ;;; asyncio_sleep 5 ;;; ret Next) w1).2.
Proof.
  intros [Hevolves Hfailures].
  assert (Hcounted : cycle_step no_status w
                       (with_failures (consecutive_failures w1 + 1) w1)).
  { split; [by apply evolves_with_failures |]. simpl.
    intros H. specialize (Hfailures H). lia. }
  unfold bind, ret, increment_failures. cbv beta iota.
  pose proof (keeps_asyncio_sleep no_status 5 ltac:(done) ltac:(done)
                (with_failures (consecutive_failures w1 + 1) w1)) as Hsleep.
  apply helper_step_cycle_step in Hsleep.
  destruct (asyncio_sleep 5 (with_failures (consecutive_failures w1 + 1) w1))
    as [[[] | x] w2]; simpl in Hsleep; simpl; by etrans.
Qed.

(** The whole body: a pass that does not go on to the next one has posted
    nothing, or the error report as the last thing. *)
Lemma cycle_reports w :
  match cycle json_loads self w with
  | (Returns Next, w') => cycle_step no_status w w'
  | (_, w') => ended self w w'
  end.
Proof.
  unfold cycle, try_except.
  pose proof (cycle_body_reports w) as Hspec.
  destruct (cycle_body json_loads self w) as [[[] | e] w1]; try done.
  destruct Hspec as [Hquiet Hended].
  assert (Hhandler : is_Exception e = true ->
            match (increment_failures ;;; asyncio_sleep 5 ;;; ret Next) w1 with
            | (Returns Next, w') => cycle_step no_status w w'
            | (_, w') => ended self w w'
            end).
  { intros He. pose proof (fault_handler_quiet w w1 (Hquiet He)) as Hstep.
    destruct ((increment_failures ;;; asyncio_sleep 5 ;;; ret Next) w1)
      as [[[] | x] w2]; simpl in Hstep; [done | by left | by left]. }
  destruct e; simpl; try done; by apply Hhandler.
Qed.

Lemma ended_reports w w' :
  ended self w w' ->
  exists reports,
    status_reports (w_trace w') = status_reports (w_trace w) ++ reports
    /\ at_most_one_error self [w_env w] reports.
Proof.
  intros [Hquiet | Hgave].
  - exists []. rewrite app_nil_r. split; [by apply cycle_step_same_reports | by left].
  - destruct (gave_up_reports self w w' Hgave) as (n & Hn & Hrefused & Hreports).
    destruct (session self) eqn:Hsession.
    + exists [("error", error_details n)]. split; [done |]. right.
      exists n, (w_env w). repeat split; try done. apply list_elem_of_singleton. done.
    + exists []. split; [done | by left].
Qed.

Lemma at_most_one_error_later e schedule reports :
  at_most_one_error self schedule reports ->
  at_most_one_error self (e :: schedule) reports.
Proof.
  intros [-> | (n & e' & -> & Hn & Hsession & Hin & Hrefused)]; [by left |].
  right. exists n, e'. repeat split; try done. by apply list_elem_of_further.
Qed.

(** A run of the loop: nothing is reported while it goes on, and at most
    one error by the pass that ends it. *)
Lemma while_running_reports schedule w :
  exists reports,
    status_reports (w_trace (while_running json_loads self schedule w).2)
    = status_reports (w_trace w) ++ reports
    /\ at_most_one_error self schedule reports
    /\ ((while_running json_loads self schedule w).1 = Returns StillLooping ->
        reports = []).
Proof.
  revert w. induction schedule as [| e schedule IH]; intros w; simpl.
  - exists []. rewrite app_nil_r. destruct (running w); simpl; by repeat split; try left.
  - destruct (running w); simpl.
    2: { exists []. rewrite app_nil_r. by repeat split; try left. }
    pose proof (cycle_reports (with_env e w)) as Hspec.
    destruct (cycle json_loads self (with_env e w)) as [[[] | x] w1].
    + specialize (IH (if env_stop e then with_running false w1 else w1)).
      destruct IH as (reports & Hreports & Hone & Hstill).
      exists reports. split; [| split; [by apply at_most_one_error_later | done]].
      rewrite Hreports. f_equal.
      pose proof (cycle_step_same_reports _ _ Hspec) as Hsame. simpl in Hsame.
      rewrite <- Hsame. by destruct (env_stop e).
    + destruct (ended_reports _ _ Hspec) as (reports & Hreports & Hone).
      exists reports. simpl in *. split; [done |]. split; [| done].
      destruct Hone as [-> | (n & e' & -> & Hn & Hsession & Hin & Hrefused)];
        [by left |].
      right. exists n, e'. repeat split; try done.
      apply list_elem_of_singleton in Hin as ->. apply list_elem_of_here.
    + destruct (ended_reports _ _ Hspec) as (reports & Hreports & Hone).
      exists reports. simpl in *. split; [done |]. split; [| done].
      destruct Hone as [-> | (n & e' & -> & Hn & Hsession & Hin & Hrefused)];
        [by left |].
      right. exists n, e'. repeat split; try done.
      apply list_elem_of_singleton in Hin as ->. apply list_elem_of_here.
Qed.

(** The reports of a whole run of [main_loop], stage by stage. *)
Lemma main_loop_reports startup schedule shutdown clock :
  session self = true ->
  let run := main_loop json_loads self startup schedule shutdown (boot clock) in
  exists errors finals,
    status_reports (w_trace run.2) = ("online", online_details) :: errors ++ finals
    /\ at_most_one_error self schedule errors
    /\ (finals = [] \/ finals = [("offline", offline_details)])
    /\ (run.1 = Returns StillLooping -> errors = [] /\ finals = [])
    /\ (run.1 = Returns LoopLeft -> finals = [("offline", offline_details)]).
Proof.
  intros Hsession run. subst run. rewrite main_loop_stages.
  set (w0 := with_env startup (with_running true (boot clock))).
  destruct (send_status_update_trace self "online" online_details w0 Hsession)
    as (Htrace0 & _ & _).
  destruct (send_status_update self "online" online_details w0) as [[sent | x] wa];
    simpl in Htrace0.
  2: { exists [], []. simpl. rewrite Htrace0. repeat split; try done; by left. }
  destruct (while_running_reports schedule (with_failures 0 wa))
    as (errors & Hreports & Hone & Hstill).
  simpl w_trace in Hreports. rewrite Htrace0 in Hreports.
  change (status_reports _ ++ errors)
    with (("online", online_details) :: errors) in Hreports.
  destruct (while_running json_loads self schedule (with_failures 0 wa))
    as [[[] | x] wb]; simpl in Hreports, Hstill.
  - destruct (send_status_update_trace self "offline" offline_details
                (with_env shutdown (with_running false wb)) Hsession)
      as (Htrace & _ & _).
    exists errors, [("offline", offline_details)].
    assert (Hlast : status_reports
              (w_trace (send_status_update self "offline" offline_details
                          (with_env shutdown (with_running false wb))).2)
            = ("online", online_details) :: errors ++ [("offline", offline_details)]).
    { rewrite Htrace, status_reports_app. simpl w_trace. rewrite Hreports.
      reflexivity. }
    destruct (send_status_update self "offline" offline_details
                (with_env shutdown (with_running false wb))) as [[sent' | x] wc];
      simpl in *; repeat split; try done; by right.
  - exists [], []. simpl. rewrite Hreports, (Hstill eq_refl).
    repeat split; try done; by left.
  - exists errors, []. simpl. rewrite Hreports, app_nil_r.
    repeat split; try done; by left.
Qed.

(** X. The status reports of any run of an initialized relay follow its
    lifecycle: the online report first, then at most one error report,
    which carries a failure count at or above the threshold, then at most
    one offline report; while the loop is going, only the online report
    has been posted. *)
Theorem status_reports_follow_the_lifecycle
    (startup : env) (schedule : list env) (shutdown : env) (clock : Q) :
  session self = true ->
  let run := main_loop json_loads self startup schedule shutdown (boot clock) in
  exists errors finals,
    status_reports (w_trace run.2) = ("online", online_details) :: errors ++ finals
    /\ (errors = [] \/ exists n, max_failures <= n /\ errors = [("error", error_details n)])
    /\ (finals = [] \/ finals = [("offline", offline_details)])
    /\ (run.1 = Returns StillLooping -> errors = [] /\ finals = []).
Proof.
  intros Hsession.
  destruct (main_loop_reports startup schedule shutdown clock Hsession)
    as (errors & finals & Hreports & Hone & Hfinals & Hstill & _).
  exists errors, finals. split; [exact Hreports |]. split; [| done].
  destruct Hone as [-> | (n & e & -> & Hn & _)]; [by left |].
  right. by exists n.
Qed.

End Reports.

Lemma status_reports_follow_the_lifecycle_witness :
  session sample_relay = true
  /\ exists errors finals,
       status_reports
         (w_trace (main_loop sample_loads sample_relay no_reading
                     (replicate 5 cloud_down) no_reading (boot 0)).2)
       = ("online", online_details) :: errors ++ finals
       /\ (errors = [] \/ exists n, max_failures <= n /\ errors = [("error", error_details n)])
       /\ (finals = [] \/ finals = [("offline", offline_details)]).
Proof.
  split; [reflexivity |].
  destruct (status_reports_follow_the_lifecycle sample_loads sample_relay
              no_reading (replicate 5 cloud_down) no_reading 0 eq_refl)
    as (errors & finals & Hreports & Herrors & Hfinals & _).
  exists errors, finals.
  split; [exact Hreports | split; [exact Herrors | exact Hfinals]].
Defined.

(** ** Leaving the loop *)

Section Exits.
Variable json_loads : string -> option json.
Variable self : CloudCommunicator.
Hypothesis initialized : session self = true.

(** A run whose loop is still going, taken apart. *)
Lemma main_loop_still_going startup schedule shutdown clock w :
  main_loop json_loads self startup schedule shutdown (boot clock)
  = (Returns StillLooping, w) ->
  exists sent wa,
    send_status_update self "online" online_details
      (with_env startup (with_running true (boot clock))) = (Returns sent, wa)
    /\ while_running json_loads self schedule (with_failures 0 wa)
       = (Returns StillLooping, w)
    /\ running w = true
    /\ status_reports (w_trace w) = [("online", online_details)].
Proof.
  rewrite main_loop_stages.
  set (w0 := with_env startup (with_running true (boot clock))).
  destruct (send_status_update_trace self "online" online_details w0 initialized)
    as (Htrace0 & _ & _).
  destruct (send_status_update self "online" online_details w0) as [[sent | x] wa];
    [| done].
  simpl in Htrace0.
  destruct (while_running json_loads self schedule (with_failures 0 wa))
    as [[[] | x] wb] eqn:Hloop.
  { by destruct (send_status_update self "offline" offline_details _) as [[? | ?] ?]. }
  2: done.
  intros [= <-]. exists sent, wa. split; [done |]. split; [done |].
  destruct (still_looping json_loads self schedule _ _ Hloop) as (Hrunning & Hreports & _).
  split; [done |]. rewrite Hreports. simpl w_trace. by rewrite Htrace0.
Qed.

(** The run of a schedule that goes on after [before], when the cycle
    that follows leaves the loop at [w1]. *)
Lemma main_loop_left_after startup before e after shutdown clock w w1 :
  main_loop json_loads self startup before shutdown (boot clock)
  = (Returns StillLooping, w) ->
  while_running json_loads self (e :: after) w = (Returns LoopLeft, w1) ->
  benign (env_post shutdown (car_status_url self)) ->
  exists w',
    main_loop json_loads self startup (before ++ e :: after) shutdown (boot clock)
    = (Returns LoopLeft, w')
    /\ running w' = false
    /\ consecutive_failures w' = consecutive_failures w1
    /\ w_trace w' = w_trace w1 ++ [offline_report self shutdown].
Proof.
  intros Hbefore Hleft Hshutdown.
  destruct (main_loop_still_going _ _ _ _ _ Hbefore) as (sent & wa & Hstart & Hloop & _).
  rewrite main_loop_stages, Hstart, while_running_app, Hloop, Hleft.
  set (w2 := with_env shutdown (with_running false w1)).
  destruct (send_status_update_trace self "offline" offline_details w2 initialized)
    as (Htrace2 & Hrunning2 & Hreturns).
  destruct (Hreturns Hshutdown) as [sent' Hsent].
  pose proof (keeps_send_status_update any_event self "offline" offline_details
                ltac:(done) w2) as [_ Hcount].
  destruct (send_status_update self "offline" offline_details w2) as [[sent'' | x] w3];
    simpl in Hsent; [| done].
  exists w3. by repeat split.
Qed.

(** X. A [KeyboardInterrupt] raised anywhere in the [try] block ends the
    loop at once: the handler counts no failure and posts nothing, no later
    cycle runs, and [main_loop] goes on to the offline report and
    returns. *)
Theorem keyboard_interrupt_leaves_the_loop
    (startup : env) (before : list env) (e : env) (after : list env)
    (shutdown : env) (clock : Q) (w w1 : world) :
  main_loop json_loads self startup before shutdown (boot clock)
  = (Returns StillLooping, w) ->
  cycle_body json_loads self (with_env e w) = (Raises KeyboardInterrupt, w1) ->
  benign (env_post shutdown (car_status_url self)) ->
  exists w',
    main_loop json_loads self startup (before ++ e :: after) shutdown (boot clock)
    = (Returns LoopLeft, w')
    /\ running w' = false
    /\ consecutive_failures w' = consecutive_failures w1
    /\ w_trace w' = w_trace w1 ++ [offline_report self shutdown].
Proof.
  intros Hbefore Hbody Hshutdown.
  apply (main_loop_left_after _ _ _ _ _ _ w w1 Hbefore); [| done].
  destruct (main_loop_still_going _ _ _ _ _ Hbefore) as (_ & _ & _ & _ & Hrunning & _).
  simpl. rewrite Hrunning. simpl. unfold cycle, try_except. by rewrite Hbody.
Qed.

(** X. When [self.running] is cleared while a cycle is under way, the
    cycle is completed, sleep included, no later cycle runs, and
    [main_loop] goes on to the offline report and returns. *)
Theorem cleared_running_flag_ends_the_loop_after_the_cycle
    (startup : env) (before : list env) (e : env) (after : list env)
    (shutdown : env) (clock : Q) (w w1 : world) :
  main_loop json_loads self startup before shutdown (boot clock)
  = (Returns StillLooping, w) ->
  cycle json_loads self (with_env e w) = (Returns Next, w1) ->
  env_stop e = true ->
  benign (env_post shutdown (car_status_url self)) ->
  exists w',
    main_loop json_loads self startup (before ++ e :: after) shutdown (boot clock)
    = (Returns LoopLeft, w')
    /\ running w' = false
    /\ consecutive_failures w' = consecutive_failures w1
    /\ w_trace w' = w_trace w1 ++ [offline_report self shutdown].
Proof.
  intros Hbefore Hcycle Hstop Hshutdown.
  destruct (main_loop_left_after startup before e after shutdown clock w
              (with_running false w1) Hbefore) as (w' & Hrun & Hrest); [| done |].
  - destruct (main_loop_still_going _ _ _ _ _ Hbefore) as (_ & _ & _ & _ & Hrunning & _).
    simpl. rewrite Hrunning, Hcycle, Hstop. simpl.
    by apply while_running_stopped.
  - by exists w'.
Qed.

(** X. The handler of an unexpected fault: when the [try] block raises an
    exception of class [Exception], one failure is counted without any
    test against the threshold, a sleep of exactly 5 seconds is asked for
    and nothing else is done; the loop goes on to the next cycle if that
    sleep returns, which is then at least 5 seconds later. *)
Theorem fault_handler_pauses_and_goes_on (w w1 : world) (x : exn) :
  cycle_body json_loads self w = (Raises x, w1) ->
  is_Exception x = true ->
  let after := (cycle json_loads self w).2 in
  w_trace after = w_trace w1 ++ [EvSleep 5]
  /\ consecutive_failures after = consecutive_failures w1 + 1
  /\ status_reports (w_trace after) = status_reports (w_trace w)
  /\ (forall late, env_sleep (w_env w1) (w_calls w1) = Returns late ->
      (cycle json_loads self w).1 = Returns Next
      /\ (w_clock after == w_clock w1 + 5 + late)%Q
      /\ (nonneg_latency (w_env w) -> (w_clock w + 5 <= w_clock after)%Q)).
Proof.
  intros Hbody Hx after. subst after.
  pose proof (cycle_body_spec json_loads self w) as Hspec. rewrite Hbody in Hspec.
  destruct Hspec as [Hquiet _]. specialize (Hquiet Hx).
  assert (Hcycle : cycle json_loads self w
                   = (increment_failures ;;; asyncio_sleep 5 ;;; ret Next) w1).
  { unfold cycle, try_except. rewrite Hbody. unfold except_Exception.
    destruct x; simpl in *; done. }
  rewrite Hcycle. unfold bind, increment_failures, ret. cbv beta iota. simpl.
  pose proof (cycle_step_same_reports _ _ Hquiet) as Hsame.
  destruct Hquiet as [[Henv _ _ Hclock] _].
  destruct (env_sleep (w_env w1) (w_calls w1)) as [late |] eqn:Hsleep; simpl.
  - split; [done |]. split; [done |].
    split; [by rewrite status_reports_app, Hsame, app_nil_r |].
    intros late' [= <-]. split; [done |]. split; [Lqa.lra |].
    intros Hlatency. specialize (Hclock Hlatency).
    destruct Hlatency as [_ Hlate]. rewrite <- Henv in Hlate.
    specialize (Hlate _ _ Hsleep). Lqa.lra.
  - split; [done |]. split; [done |].
    split; [by rewrite status_reports_app, Hsame, app_nil_r |]. done.
Qed.
End Exits.

Lemma keyboard_interrupt_leaves_the_loop_witness :
  let w := (main_loop sample_loads sample_relay no_reading [no_reading] no_reading
              (boot 0)).2 in
  (session sample_relay = true
   /\ (cycle_body sample_loads sample_relay (with_env interrupted w)).1
      = Raises KeyboardInterrupt
   /\ benign (env_post no_reading (car_status_url sample_relay)))
  /\ exists w',
       main_loop sample_loads sample_relay no_reading
         ([no_reading] ++ interrupted :: [cloud_down]) no_reading (boot 0)
       = (Returns LoopLeft, w')
       /\ running w' = false.
Proof.
  intros w. split; [by repeat split |].
  destruct (keyboard_interrupt_leaves_the_loop sample_loads sample_relay eq_refl
              no_reading [no_reading] interrupted [cloud_down] no_reading 0 w
              (cycle_body sample_loads sample_relay (with_env interrupted w)).2)
    as (w' & Hrun & Hstopped & _); [by vm_compute | by vm_compute | done |].
  by exists w'.
Defined.

Lemma cleared_running_flag_ends_the_loop_after_the_cycle_witness :
  let w := (main_loop sample_loads sample_relay no_reading [no_reading] no_reading
              (boot 0)).2 in
  (session sample_relay = true
   /\ (cycle sample_loads sample_relay (with_env stop_requested w)).1 = Returns Next
   /\ env_stop stop_requested = true
   /\ benign (env_post no_reading (car_status_url sample_relay)))
  /\ exists w',
       main_loop sample_loads sample_relay no_reading
         ([no_reading] ++ stop_requested :: [cloud_down]) no_reading (boot 0)
       = (Returns LoopLeft, w')
       /\ running w' = false.
Proof.
  intros w. split; [by repeat split |].
  destruct (cleared_running_flag_ends_the_loop_after_the_cycle sample_loads sample_relay
              eq_refl no_reading [no_reading] stop_requested [cloud_down] no_reading 0 w
              (cycle sample_loads sample_relay (with_env stop_requested w)).2)
    as (w' & Hrun & Hstopped & _); [by vm_compute | by vm_compute | done | done |].
  by exists w'.
Defined.

Lemma fault_handler_pauses_and_goes_on_witness :
  let w := with_env faulty (boot 0) in
  ((cycle_body sample_loads sample_relay w).1 = Raises RuntimeError
   /\ is_Exception RuntimeError = true)
  /\ consecutive_failures (cycle sample_loads sample_relay w).2 = 1
  /\ (cycle sample_loads sample_relay w).1 = Returns Next.
Proof.
  intros w. split; [by split |].
  destruct (fault_handler_pauses_and_goes_on sample_loads sample_relay w
              (cycle_body sample_loads sample_relay w).2 RuntimeError)
    as (_ & Hcount & _ & Hnext); [by vm_compute | done |].
  split; [exact Hcount |].
  by destruct (Hnext 0%Q eq_refl) as [Hgo _].
Defined.

(** ** Forwarding, more closely *)

Lemma try_except_returns_true {W} (m : prog W bool)
    (h : exn -> option (prog W bool)) w :
  (forall e handler, h e = Some handler -> handler = ret false) ->
  (try_except m h w).1 = Returns true -> (m w).1 = Returns true.
Proof.
  intros Hhandlers. unfold try_except.
  destruct (m w) as [[b | e] w1]; simpl; [done |].
  destruct (h e) as [handler |] eqn:He; [| done].
  by rewrite (Hhandlers e handler He).
Qed.

Section ForwardingClosely.
Variable self : CloudCommunicator.

(** X. [send_data_to_cloud] returns [True] only for an answer with status
    200 whose body decodes to a JSON object, and only with a session: any
    other status, a body that is not an object, a timeout or a transport
    error gives [False] or an interruption. *)
Theorem forwarding_succeeds_only_on_200_with_an_object (car_data : json) (w : world) :
  (send_data_to_cloud self car_data w).1 = Returns true ->
  session self = true
  /\ exists resp fields,
       env_post (w_env w) (car_data_url self) = Returns resp
       /\ status resp = 200
       /\ response_json resp = Returns (JObj fields).
Proof.
  intros Htrue. unfold send_data_to_cloud in Htrue.
  apply try_except_returns_true in Htrue.
  2: { intros e handler. unfold except_Exception.
       destruct e; simpl; by intros [= <-]. }
  destruct (session self); simpl in Htrue; [| done].
  split; [done |]. unfold bind, lift in Htrue. simpl in Htrue.
  destruct (env_post (w_env w) (car_data_url self)) as [resp | x]; [| done].
  simpl in Htrue. exists resp.
  destruct (Z.eqb_spec (status resp) 200) as [Hstatus | Hstatus].
  - destruct (response_json resp) as [[| | | | | fields] | x]; simpl in Htrue; try done.
    by exists fields.
  - by destruct (response_text resp).
Qed.

Lemma republish_cases (c : json) (w : world) :
  let published :=
    awaited (EvPublish (commands_channel self)
               (command_data self (env_utcnow (w_env w) (w_calls w))
                  (field c "action" JNull) (field c "parameters" (JObj [])))) w in
  (is_object c /\ redis_client self = true
   /\ ((republish self c w).1 = Returns tt \/ exists x, (republish self c w).1 = Raises x)
   /\ (republish self c w).2 = published)
  \/ (exists x, republish self c w = (Raises x, w)).
Proof.
  unfold republish, bind, lift.
  destruct c as [| | | | | fields]; simpl; try (right; by eexists).
  destruct (redis_client self); simpl; [| right; by eexists].
  left. split; [done |]. split; [done |].
  destruct (env_publish (w_env w) (w_calls w)) as [receivers | x]; simpl.
  - split; [by left | done].
  - split; [right; by eexists | done].
Qed.

(** The loop over the commands, with where it stops and why. *)
Lemma for_each_republish_prefix (items : list json) (w : world) :
  redis_client self = true ->
  exists k,
    (k <= length items)%nat
    /\ w_trace (for_each items (republish self) w).2
       = w_trace w ++ republished self (w_env w) (w_calls w) (take k items)
    /\ Forall is_object (take k items)
    /\ (forall i, (S i < k)%nat ->
          exists receivers, env_publish (w_env w) (w_calls w + i) = Returns receivers)
    /\ (forall c, items !! k = Some c ->
          ~ is_object c
          \/ ((0 < k)%nat
              /\ exists x, env_publish (w_env w) (w_calls w + (k - 1)) = Raises x))
    /\ (k = length items ->
        (0 < k)%nat ->
        (exists receivers,
            env_publish (w_env w) (w_calls w + (k - 1)) = Returns receivers) ->
        (for_each items (republish self) w).1 = Returns tt).
Proof.
  intros Hclient. revert w. induction items as [| c rest IH]; intros w.
  - exists 0%nat. simpl. rewrite app_nil_r.
    split; [lia |]. split; [done |]. split; [done |].
    split; [intros i Hi; lia |]. split; [done |]. intros _ Hpos. lia.
  - simpl for_each. unfold bind at 1 2.
    destruct (republish_cases c w) as [(Hobject & _ & _ & Hworld) | [x Hraises]].
    + assert (Hrun : (republish self c w).1
                     = match env_publish (w_env w) (w_calls w) with
                       | Returns _ => Returns tt
                       | Raises x => Raises x
                       end).
      { unfold republish, bind, lift. destruct c; try done. simpl.
        rewrite Hclient. simpl.
        by destruct (env_publish (w_env w) (w_calls w)). }
      destruct (republish self c w) as [o w1]; simpl in Hworld, Hrun; subst w1.
      destruct (env_publish (w_env w) (w_calls w)) as [receivers | x] eqn:Hpublish;
        subst o.
      * match goal with
        | |- context [for_each rest (republish self) ?w1] =>
            destruct (IH w1) as (k & Hk & Htrace & Hobjects & Hbefore & Hstop & Hall)
        end.
        simpl in Htrace, Hbefore, Hstop, Hall.
        exists (S k). split; [simpl; lia |]. split.
        { simpl. rewrite Htrace, <- app_assoc. reflexivity. }
        split; [by constructor |]. split.
        { intros i Hi. destruct i as [| i].
          - exists receivers. by rewrite Nat.add_0_r.
          - replace (w_calls w + S i)%nat with (S (w_calls w + i)) by lia.
            apply Hbefore. lia. }
        split.
        { intros c' Hc'. simpl in Hc'.
          destruct (Hstop c' Hc') as [Hnot | [Hpos [x Hx]]]; [by left |].
          right. split; [lia |]. exists x.
          replace (w_calls w + (S k - 1))%nat with (S (w_calls w + (k - 1))) by lia.
          exact Hx. }
        intros Hlen _ Hlast. simpl in Hlen.
        destruct k as [| k].
        { destruct rest; [done | simpl in Hlen; lia]. }
        apply Hall; [lia | lia |].
        destruct Hlast as [r Hr]. exists r.
        replace (S (w_calls w + (S k - 1))) with (w_calls w + (S (S k) - 1))%nat by lia.
        exact Hr.
      * exists 1%nat. split; [simpl; lia |]. split; [by simpl |].
        split; [by repeat constructor |]. split; [intros i Hi; lia |]. split.
        { intros c' _. right. split; [lia |]. exists x.
          by rewrite Nat.add_0_r. }
        intros _ _ [r Hr]. rewrite Nat.add_0_r in Hr. congruence.
    + rewrite Hraises. exists 0%nat. simpl. rewrite app_nil_r.
      split; [lia |]. split; [done |]. split; [done |]. split; [intros i Hi; lia |].
      split.
      { intros c' [= <-]. left. intros Hobject.
        unfold republish, bind, lift in Hraises. destruct c; try done.
        simpl in Hraises. rewrite Hclient in Hraises. simpl in Hraises.
        destruct (env_publish (w_env w) (w_calls w)); simpl in Hraises;
          injection Hraises as _ Hworld;
          apply (f_equal w_calls) in Hworld; simpl in Hworld; lia. }
      intros _ Hpos. lia.
Qed.

Lemma for_each_republish_silent (items : list json) (w : world) :
  redis_client self = false ->
  w_trace (for_each items (republish self) w).2 = w_trace w.
Proof.
  intros Hclient. destruct items as [| c rest]; [done |].
  simpl for_each. unfold bind at 1.
  destruct (republish_cases c w) as [(_ & Hyes & _) | [x ->]]; [congruence | done].
Qed.

(** X. Whatever the answer of the endpoint holds and whatever the store
    does, [process_cloud_commands] attempts the publishes of the first
    [k] commands, in their order and each once, and no other. All of
    these commands are objects and all of these publishes but the last
    returned; and if a command is left, then it is not an object or the
    last publish raised: the loop stops at the first command that is not
    an object, and after the first publish that raises. Without a Redis
    client nothing is published. *)
Theorem commands_are_republished_as_a_prefix (commands : json) (w : world) :
  let items := match py_iter commands with Returns l => l | Raises _ => [] end in
  exists k,
    (k <= length items)%nat
    /\ w_trace (process_cloud_commands self commands w).2
       = w_trace w ++ republished self (w_env w) (w_calls w) (take k items)
    /\ Forall is_object (take k items)
    /\ (redis_client self = false -> k = 0%nat)
    /\ (redis_client self = true ->
        (forall i, (S i < k)%nat ->
           exists receivers,
             env_publish (w_env w) (w_calls w + i) = Returns receivers)
        /\ (forall c, items !! k = Some c ->
              ~ is_object c
              \/ ((0 < k)%nat
                  /\ exists x,
                       env_publish (w_env w) (w_calls w + (k - 1)) = Raises x))).
Proof.
  cbv zeta. unfold process_cloud_commands, try_except, bind, lift.
  destruct (py_iter commands) as [items | x]; simpl.
  - assert (Hhandled : w_trace
              (let (o, w') := for_each items (republish self) w in
               match o with
               | Returns a => (Returns a, w')
               | Raises e =>
                   match except_Exception (ret ()) e with
                   | Some handler => handler w'
                   | None => (Raises e, w')
                   end
               end).2
              = w_trace (for_each items (republish self) w).2).
    { destruct (for_each items (republish self) w) as [[[] | x] w1]; simpl; [done |].
      unfold except_Exception. by destruct (is_Exception x). }
    rewrite Hhandled.
    destruct (redis_client self) eqn:Hclient.
    + destruct (for_each_republish_prefix items w Hclient)
        as (k & Hk & Htrace & Hobjects & Hbefore & Hstop & _).
      exists k. repeat split; try done.
    + exists 0%nat. rewrite for_each_republish_silent by done. simpl.
      rewrite app_nil_r. repeat split; try done; lia.
  - exists 0%nat. simpl. rewrite app_nil_r.
    split; [lia |]. split.
    { unfold except_Exception. by destruct (is_Exception x). }
    split; [done |]. split; [done |]. intros _. split; [intros i Hi; lia | done].
Qed.
End ForwardingClosely.

Lemma forwarding_succeeds_only_on_200_with_an_object_witness :
  let w := with_env (commanding 200) (boot 0) in
  (send_data_to_cloud sample_relay (JArr [JNum 1]) w).1 = Returns true
  /\ exists resp,
       env_post (w_env w) (car_data_url sample_relay) = Returns resp
       /\ status resp = 200.
Proof.
  intros w.
  assert (Htrue : (send_data_to_cloud sample_relay (JArr [JNum 1]) w).1 = Returns true)
    by reflexivity.
  split; [exact Htrue |].
  destruct (forwarding_succeeds_only_on_200_with_an_object sample_relay
              (JArr [JNum 1]) w Htrue) as (_ & resp & fields & Hpost & Hstatus & _).
  exists resp. split; [exact Hpost | exact Hstatus].
Defined.

(** Three commands, the second of which the store refuses. *)
Lemma commands_are_republished_as_a_prefix_witness :
  let e := with_publish (fun n => if Nat.eqb n 1 then Raises RedisError else Returns 1)
             (commanding 200) in
  let w := with_env e (boot 0) in
  let commands := JArr [start_heating; stop_heating; start_heating] in
  redis_client sample_relay = true
  /\ w_trace (process_cloud_commands sample_relay commands w).2
     = republished sample_relay e 0 [start_heating; stop_heating]
  /\ exists k,
       w_trace (process_cloud_commands sample_relay commands w).2
       = republished sample_relay e 0
           (take k [start_heating; stop_heating; start_heating])
       /\ ((0 < k)%nat /\ exists x, env_publish e (k - 1) = Raises x).
Proof.
  intros e w commands. split; [reflexivity |]. split; [reflexivity |].
  destruct (commands_are_republished_as_a_prefix sample_relay commands w)
    as (k & Hk & Htrace & _ & _ & Hclient).
  destruct (Hclient eq_refl) as [_ Hstop].
  exists k. split; [exact Htrace |].
  assert (Hwhich : k = 2%nat).
  { apply (f_equal length) in Htrace. revert Htrace Hk.
    change (w_trace (process_cloud_commands sample_relay commands w).2)
      with (republished sample_relay e 0 [start_heating; stop_heating]).
    simpl length.
    destruct k as [| [| [| [| k]]]]; simpl; intros H Hk; try (simpl in H; lia);
      try reflexivity; try discriminate H. }
  subst k. destruct (Hstop start_heating eq_refl) as [Hnot | Hraised].
  - destruct Hnot. exact I.
  - exact Hraised.
Defined.

(** ** The relay against the mock cloud server *)

Section MockServer.
Variable json_loads : string -> option json.
Variable json_dumps : json -> string.
Variable self : CloudCommunicator.
Hypothesis initialized : session self = true.

Lemma served_forward (car_data data : json) (draw : Q) (w : world) :
  env_post (w_env w) (car_data_url self)
  = Returns (handle_car_data json_dumps data draw) ->
  let posted := awaited (EvPost (car_data_url self)
                  (car_data_payload self (env_utcnow (w_env w) (w_calls w)) car_data)) w in
  send_data_to_cloud self car_data w
  = if Qle_bool (1 # 10) draw then (Returns true, posted)
    else match process_cloud_commands self (JArr [start_heating]) posted with
         | (Returns _, w') => (Returns true, w')
         | (Raises x, w') => (Raises x, w')
         end.
Proof.
  intros Hpost posted.
  unfold send_data_to_cloud, try_except, bind, lift. rewrite initialized. simpl.
  rewrite Hpost. simpl. fold posted.
  destruct (Qle_bool (1 # 10) draw); simpl; [done |].
  pose proof (process_cloud_commands_swallows self (JArr [start_heating]) posted)
    as Hswallow.
  destruct (process_cloud_commands self (JArr [start_heating]) posted)
    as [[[] | x] w1]; simpl in *; [done |].
  specialize (Hswallow x eq_refl). unfold except_Exception.
  destruct x; simpl in *; done.
Qed.

Lemma served_never_refuses (e : env) :
  served json_dumps self e -> ~ forward_refused self e.
Proof.
  intros (data & draw & Hpost) (car_data & w & <- & Hfalse).
  rewrite (served_forward car_data data draw w Hpost) in Hfalse.
  destruct (Qle_bool (1 # 10) draw); [done |].
  by destruct (process_cloud_commands self (JArr [start_heating]) _) as [[[] | x] w1].
Qed.

(** X. What the mock server's [handle_car_data] answers makes
    [send_data_to_cloud] succeed: the reading is posted, and with a draw
    below 0.1 the one command [start_heating] with a target of 22 degrees
    is republished for the vehicle, otherwise nothing is. *)
Theorem mock_server_answer_is_a_success (car_data data : json) (draw : Q) (w : world) :
  redis_client self = true ->
  env_post (w_env w) (car_data_url self)
  = Returns (handle_car_data json_dumps data draw) ->
  benign (env_publish (w_env w) (S (w_calls w))) ->
  (send_data_to_cloud self car_data w).1 = Returns true
  /\ w_trace (send_data_to_cloud self car_data w).2
     = w_trace w
       ++ EvPost (car_data_url self)
            (car_data_payload self (env_utcnow (w_env w) (w_calls w)) car_data)
          :: (if Qle_bool (1 # 10) draw then []
              else [EvPublish (commands_channel self)
                      (command_data self (env_utcnow (w_env w) (S (w_calls w)))
                         (JStr "start_heating")
                         (JObj [("target_temp", JNum 22)]))]).
Proof.
  intros Hclient Hpost Hpub.
  rewrite (served_forward car_data data draw w Hpost). cbv zeta.
  destruct (Qle_bool (1 # 10) draw); [done |].
  unfold process_cloud_commands. simpl py_iter. simpl for_each.
  unfold republish, try_except, bind, lift. simpl.
  rewrite Hclient. simpl. unfold bind, ret. simpl.
  destruct (env_publish (w_env w) (S (w_calls w))) as [receivers | x]; simpl.
  - by rewrite <- app_assoc.
  - simpl in Hpub. unfold except_Exception. rewrite Hpub. simpl.
    by rewrite <- app_assoc.
Qed.

(** X. In a demo run, where every request for car data is answered by the
    mock server's [handle_car_data], the relay never reports an error:
    whatever else happens, the status reports of the run are the online
    report and at most the offline report. *)
Theorem relay_reports_no_error_to_the_mock_server
    (startup : env) (schedule : list env) (shutdown : env) (clock : Q) :
  Forall (served json_dumps self) schedule ->
  let run := main_loop json_loads self startup schedule shutdown (boot clock) in
  statuses (w_trace run.2) = ["online"]
  \/ statuses (w_trace run.2) = ["online"; "offline"].
Proof.
  intros Hserved run. subst run.
  destruct (main_loop_reports json_loads self startup schedule shutdown clock
              initialized)
    as (errors & finals & Hreports & Hone & Hfinals & _).
  unfold statuses. rewrite Hreports.
  destruct Hone as [-> | (n & e & _ & _ & _ & Hin & Hrefused)].
  - destruct Hfinals as [-> | ->]; [by left | by right].
  - exfalso. rewrite Forall_forall in Hserved.
    by apply (served_never_refuses e (Hserved e Hin)).
Qed.
End MockServer.

Lemma demo_is_served draw : served sample_dumps sample_relay (demo draw).
Proof. by exists (JArr [JNum 1]), draw. Qed.

Lemma mock_server_answer_is_a_success_witness :
  let w := with_env (demo 0) (boot 0) in
  (session sample_relay = true /\ redis_client sample_relay = true
   /\ benign (env_publish (w_env w) (S (w_calls w))))
  /\ (send_data_to_cloud sample_relay (JArr [JNum 1]) w).1 = Returns true.
Proof.
  intros w. split; [by repeat split |].
  refine (proj1 (mock_server_answer_is_a_success sample_dumps sample_relay eq_refl
                   (JArr [JNum 1]) (JArr [JNum 1]) 0 w eq_refl eq_refl _)).
  exact I.
Defined.

Lemma relay_reports_no_error_to_the_mock_server_witness :
  (session sample_relay = true
   /\ Forall (served sample_dumps sample_relay) (replicate 6 (demo 0)))
  /\ (statuses (w_trace (main_loop sample_loads sample_relay no_reading
                           (replicate 6 (demo 0)) no_reading (boot 0)).2)
      = ["online"]
      \/ statuses (w_trace (main_loop sample_loads sample_relay no_reading
                              (replicate 6 (demo 0)) no_reading (boot 0)).2)
         = ["online"; "offline"]).
Proof.
  assert (Hserved : Forall (served sample_dumps sample_relay) (replicate 6 (demo 0)))
    by (repeat constructor; apply demo_is_served).
  split; [by split |].
  exact (relay_reports_no_error_to_the_mock_server sample_loads sample_dumps
           sample_relay eq_refl no_reading (replicate 6 (demo 0)) no_reading 0 Hserved).
Defined.

(** ** The relay against a key-value store *)

Lemma append_inv_head (p a b : string) : (p ++ a)%string = (p ++ b)%string -> a = b.
Proof. induction p as [| c p IH]; simpl; [done |]. intros [= H]. by apply IH. Qed.

Lemma latest_is_not_pending self : latest_data_key self <> pending_commands_key self.
Proof.
  unfold latest_data_key, pending_commands_key. intros H.
  apply append_inv_head, append_inv_head in H. discriminate.
Qed.

Section Store.
Variable json_loads : string -> option json.
Variable self : CloudCommunicator.

(** X. The drain deletes before it looks: pending commands that are not
    JSON are left under the key, to be read and rejected again by every
    later drain, whereas pending commands that decode to a value without
    a length (a number, a boolean, null) are deleted and returned to
    nobody. *)
Theorem undecodable_commands_stay_and_unsized_ones_are_lost
    (store : gmap string string) (text : string) :
  redis_client self = true ->
  store !! pending_commands_key self = Some text ->
  bytes_truthy text = true ->
  (json_loads text = None ->
   check_b2_for_commands json_loads self store = (Returns JNull, store))
  /\ (forall v x,
        json_loads text = Some v -> py_len v = Raises x ->
        check_b2_for_commands json_loads self store
        = (Returns JNull, delete (pending_commands_key self) store)).
Proof.
  intros Hclient Hlookup Htext.
  unfold check_b2_for_commands, try_except, bind, loads, lift.
  rewrite Hclient. simpl. rewrite Hlookup, Htext. split.
  - by intros ->.
  - intros v x -> Hlen. simpl. rewrite Hlen. simpl.
    destruct v; simpl in Hlen; by inversion Hlen.
Qed.

Lemma check_b2_on_store (store : gmap string string) :
  (check_b2_for_commands json_loads self store).2 = store
  \/ (check_b2_for_commands json_loads self store).2
     = delete (pending_commands_key self) store.
Proof.
  unfold check_b2_for_commands, try_except, bind, loads, lift.
  destruct (redis_client self); simpl; [| by left].
  destruct (store !! pending_commands_key self) as [text |]; [| by left].
  destruct (bytes_truthy text); [| by left].
  destruct (json_loads text) as [v |]; simpl; [| by left].
  right. by destruct v.
Qed.

Lemma get_latest_on_store (store store' : gmap string string) :
  store !! latest_data_key self = store' !! latest_data_key self ->
  get_latest_data_from_c2 json_loads self store'
  = ((get_latest_data_from_c2 json_loads self store).1, store').
Proof.
  intros Hsame. unfold get_latest_data_from_c2, try_except, bind, loads.
  destruct (redis_client self); simpl; [| done]. rewrite Hsame.
  destruct (store' !! latest_data_key self) as [text |]; [| done].
  destruct (bytes_truthy text); [| done].
  by destruct (json_loads text).
Qed.

(** X. Fetching the latest reading never changes the store, and a drain
    of the pending commands changes nothing but the pending-commands key:
    whatever the store holds, the fetch after a drain returns what the
    fetch before it would have returned. *)
Theorem drain_leaves_the_latest_reading (store : gmap string string) :
  let after := (check_b2_for_commands json_loads self store).2 in
  (get_latest_data_from_c2 json_loads self store).2 = store
  /\ (forall key, key <> pending_commands_key self -> after !! key = store !! key)
  /\ get_latest_data_from_c2 json_loads self after
     = ((get_latest_data_from_c2 json_loads self store).1, after).
Proof.
  intros after.
  assert (Hkeys : forall key, key <> pending_commands_key self ->
                    after !! key = store !! key).
  { intros key Hkey. subst after.
    destruct (check_b2_on_store store) as [-> | ->]; [done |].
    by apply lookup_delete_ne. }
  split; [| split; [exact Hkeys |]].
  - by rewrite (get_latest_on_store store store eq_refl).
  - apply get_latest_on_store. symmetry. apply Hkeys, latest_is_not_pending.
Qed.
End Store.

Lemma undecodable_commands_stay_and_unsized_ones_are_lost_witness :
  (redis_client sample_relay = true
   /\ garbled !! pending_commands_key sample_relay = Some "{oops"
   /\ sample_loads "{oops" = None
   /\ unsized !! pending_commands_key sample_relay = Some "null"
   /\ sample_loads "null" = Some JNull)
  /\ check_b2_for_commands sample_loads sample_relay garbled = (Returns JNull, garbled)
  /\ check_b2_for_commands sample_loads sample_relay unsized
     = (Returns JNull, delete (pending_commands_key sample_relay) unsized).
Proof.
  split; [by repeat split |]. split.
  - apply (proj1 (undecodable_commands_stay_and_unsized_ones_are_lost sample_loads
                    sample_relay garbled "{oops" eq_refl eq_refl eq_refl)).
    reflexivity.
  - apply (proj2 (undecodable_commands_stay_and_unsized_ones_are_lost sample_loads
                    sample_relay unsized "null" eq_refl eq_refl eq_refl)
             JNull TypeError); reflexivity.
Defined.

(** ** Start-up and shutdown *)

Section Lifecycle.
Variable py_int : string -> option Z.
Variable json_loads : string -> option json.

Lemma initialize_succeeds (cfg : CloudConfig) (p : process) (b : bool) :
  host_from_url (p_host p) = Returns tt ->
  host_ping (p_host p) = Returns b ->
  host_client_session (p_host p) = Returns tt ->
  initialize cfg p
  = (Returns tt,
     {| p_host := p_host p; p_redis_client := true; p_session := true;
        p_relay := p_relay p;
        p_calls := p_calls p ++ [CallFromUrl (redis_url cfg); CallPing;
                                 CallClientSession ("Bearer " ++ api_key cfg)] |}).
Proof.
  intros Hurl Hping Hsession.
  unfold initialize, try_except, bind, called, set_redis_client, set_session, ret.
  simpl. rewrite Hurl, Hping, Hsession. simpl.
  repeat rewrite <- app_assoc. reflexivity.
Qed.

Lemma cleanup_closes_both (p : process) :
  p_redis_client p = true -> p_session p = true ->
  host_aclose (p_host p) = Returns tt ->
  host_session_close (p_host p) = Returns tt ->
  cleanup p
  = (Returns tt,
     {| p_host := p_host p; p_redis_client := p_redis_client p;
        p_session := p_session p; p_relay := p_relay p;
        p_calls := p_calls p ++ [CallAclose; CallSessionClose] |}).
Proof.
  destruct p as [h has_client has_session w calls]. simpl.
  intros -> -> Haclose Hclose.
  unfold cleanup, bind, read_process, called, ret. simpl.
  rewrite Haclose, Hclose. repeat rewrite <- app_assoc. reflexivity.
Qed.

Lemma main_after_initialize (h : host) (clock : Q) (n : Z) (b : bool) :
  py_int (getenv h "SEND_INTERVAL" "10") = Some n ->
  host_server_start h = Returns tt ->
  host_from_url h = Returns tt ->
  host_ping h = Returns b ->
  host_client_session h = Returns tt ->
  main py_int json_loads (launch h clock)
  = try_finally
      (try_finally (run_main_loop json_loads (config_of h n)) cleanup)
      (called CallServerCleanup host_server_cleanup)
      {| p_host := h; p_redis_client := true; p_session := true;
         p_relay := boot clock;
         p_calls := [CallServerStart; CallFromUrl (redis_url (config_of h n));
                     CallPing;
                     CallClientSession ("Bearer " ++ api_key (config_of h n))] |}.
Proof.
  intros Hint Hstart Hurl Hping Hsession.
  unfold main. unfold bind at 1. unfold read_process at 1. cbv beta iota.
  unfold bind at 1. unfold lift at 1. simpl p_host. rewrite Hint. cbv beta iota.
  unfold bind at 1. unfold called at 1. simpl p_host. rewrite Hstart. cbv beta iota.
  unfold try_finally at 1.
  unfold bind at 1. unfold set_redis_client at 1. cbv beta iota.
  unfold bind at 1. unfold set_session at 1. cbv beta iota.
  unfold bind at 1.
  match goal with
  | |- context [initialize ?cfg ?p] =>
      rewrite (initialize_succeeds cfg p b Hurl Hping Hsession)
  end.
  cbv beta iota. reflexivity.
Qed.

Lemma main_after_the_loop (h : host) (clock : Q) (n : Z) (b : bool) :
  py_int (getenv h "SEND_INTERVAL" "10") = Some n ->
  host_server_start h = Returns tt ->
  host_from_url h = Returns tt ->
  host_ping h = Returns b ->
  host_client_session h = Returns tt ->
  host_aclose h = Returns tt ->
  host_session_close h = Returns tt ->
  host_server_cleanup h = Returns tt ->
  let cfg := config_of h n in
  let self := {| config := cfg; redis_client := true; session := true |} in
  let run := main_loop json_loads self (host_startup h) (host_schedule h)
               (host_shutdown h) (boot clock) in
  run.1 <> Returns StillLooping ->
  main py_int json_loads (launch h clock)
  = (run.1,
     {| p_host := h; p_redis_client := true; p_session := true;
        p_relay := run.2;
        p_calls := [CallServerStart; CallFromUrl (redis_url cfg); CallPing;
                    CallClientSession ("Bearer " ++ api_key cfg); CallMainLoop;
                    CallAclose; CallSessionClose; CallServerCleanup] |}).
Proof.
  intros Hint Hstart Hurl Hping Hsession Haclose Hclose Hstop cfg self run Hended.
  rewrite (main_after_initialize h clock n b Hint Hstart Hurl Hping Hsession).
  fold cfg. unfold try_finally at 1. unfold try_finally at 1.
  unfold run_main_loop. simpl p_host. simpl p_relay.
  match goal with
  | |- context [communicator cfg ?p] => change (communicator cfg p) with self
  end.
  fold run.
  destruct run as [[[] | x] w] eqn:Hrun; simpl in Hended; [| done |].
  - match goal with
    | |- context [cleanup ?p] =>
        rewrite (cleanup_closes_both p eq_refl eq_refl Haclose Hclose)
    end.
    unfold called. simpl. rewrite Hstop. reflexivity.
  - match goal with
    | |- context [cleanup ?p] =>
        rewrite (cleanup_closes_both p eq_refl eq_refl Haclose Hclose)
    end.
    unfold called. simpl. rewrite Hstop. reflexivity.
Qed.

(** X. Once [initialize] has returned, [main] closes what it opened
    however [main_loop] ends: whether the loop returns or raises, the
    Redis client is closed, then the session, then the mock server is
    stopped, each once and in this order, and what [main_loop] returned
    or raised is what [main] returns or raises. The loop runs with both
    the client and the session set. *)
Theorem main_cleans_up_however_the_loop_ends (h : host) (clock : Q) (n : Z) (b : bool) :
  py_int (getenv h "SEND_INTERVAL" "10") = Some n ->
  host_server_start h = Returns tt ->
  host_from_url h = Returns tt ->
  host_ping h = Returns b ->
  host_client_session h = Returns tt ->
  host_aclose h = Returns tt ->
  host_session_close h = Returns tt ->
  host_server_cleanup h = Returns tt ->
  let cfg := config_of h n in
  let self := {| config := cfg; redis_client := true; session := true |} in
  let run := main_loop json_loads self (host_startup h) (host_schedule h)
               (host_shutdown h) (boot clock) in
  run.1 <> Returns StillLooping ->
  (main py_int json_loads (launch h clock)).1 = run.1
  /\ p_relay (main py_int json_loads (launch h clock)).2 = run.2
  /\ p_calls (main py_int json_loads (launch h clock)).2
     = [CallServerStart; CallFromUrl (redis_url cfg); CallPing;
        CallClientSession ("Bearer " ++ api_key cfg); CallMainLoop;
        CallAclose; CallSessionClose; CallServerCleanup].
Proof.
  intros Hint Hstart Hurl Hping Hsession Haclose Hclose Hstop cfg self run Hended.
  rewrite (main_after_the_loop h clock n b Hint Hstart Hurl Hping Hsession
             Haclose Hclose Hstop Hended).
  split; [reflexivity | split; reflexivity].
Qed.

(** [initialize], case by case: the handler raises again what the body
    raised, so the first call that fails decides. *)
Lemma initialize_cases (cfg : CloudConfig) (p : process) :
  initialize cfg p
  = let after calls has_client has_session :=
        {| p_host := p_host p; p_redis_client := has_client;
           p_session := has_session; p_relay := p_relay p;
           p_calls := p_calls p ++ calls |} in
    let from_url := CallFromUrl (redis_url cfg) in
    let client_session := CallClientSession ("Bearer " ++ api_key cfg) in
    match host_from_url (p_host p) with
    | Raises e => (Raises e, after [from_url] (p_redis_client p) (p_session p))
    | Returns _ =>
        match host_ping (p_host p) with
        | Raises e => (Raises e, after [from_url; CallPing] true (p_session p))
        | Returns _ =>
            match host_client_session (p_host p) with
            | Raises e =>
                (Raises e, after [from_url; CallPing; client_session] true (p_session p))
            | Returns _ =>
                (Returns tt, after [from_url; CallPing; client_session] true true)
            end
        end
    end.
Proof.
  unfold initialize, try_except, bind, called, set_redis_client, set_session,
    ret, raise.
  simpl.
  destruct (host_from_url (p_host p)) as [[] | e1]; simpl.
  2: { by destruct (is_Exception e1). }
  destruct (host_ping (p_host p)) as [b | e2]; simpl.
  2: { repeat rewrite <- app_assoc. by destruct (is_Exception e2). }
  destruct (host_client_session (p_host p)) as [[] | e3]; simpl.
  2: { repeat rewrite <- app_assoc. by destruct (is_Exception e3). }
  repeat rewrite <- app_assoc. reflexivity.
Qed.

(** X. When [initialize] fails, [main] never enters the inner [try]: the
    loop does not run and the communicator's [cleanup] is not called, so
    a Redis client that [from_url] had created stays open. Only the mock
    server is stopped, as the last call, and [main] raises what
    [initialize] raised, unless stopping the server raises as well. *)
Theorem failed_initialize_leaves_the_client_open
    (h : host) (clock : Q) (n : Z) (e : exn) :
  py_int (getenv h "SEND_INTERVAL" "10") = Some n ->
  host_server_start h = Returns tt ->
  host_from_url h = Raises e
  \/ host_from_url h = Returns tt
     /\ (host_ping h = Raises e
         \/ (exists b, host_ping h = Returns b) /\ host_client_session h = Raises e) ->
  let done := main py_int json_loads (launch h clock) in
  done.1 = match host_server_cleanup h with
           | Returns _ => Raises e
           | Raises e' => Raises e'
           end
  /\ p_relay done.2 = boot clock
  /\ Forall (fun c => c <> CallMainLoop /\ c <> CallAclose /\ c <> CallSessionClose)
       (p_calls done.2)
  /\ last (p_calls done.2) = Some CallServerCleanup
  /\ p_session done.2 = false
  /\ (host_from_url h = Returns tt -> p_redis_client done.2 = true).
Proof.
  intros Hint Hstart Hfails done.
  assert (Hdone : done = main py_int json_loads (launch h clock)) by reflexivity.
  clearbody done. revert Hdone.
  unfold main. unfold bind at 1. unfold read_process at 1. cbv beta iota.
  unfold bind at 1. unfold lift at 1. simpl p_host. rewrite Hint. cbv beta iota.
  unfold bind at 1. unfold called at 1. simpl p_host. rewrite Hstart. cbv beta iota.
  unfold try_finally at 1.
  unfold bind at 1. unfold set_redis_client at 1. cbv beta iota.
  unfold bind at 1. unfold set_session at 1. cbv beta iota.
  unfold bind at 1. rewrite initialize_cases. simpl p_host.
  unfold called. cbn [p_host p_calls p_relay p_redis_client p_session launch].
  destruct Hfails as [Hurl | [Hurl [Hping | [[b Hping] Hsession]]]].
  - rewrite Hurl. cbv beta iota zeta.
    cbn [p_host p_calls p_relay p_redis_client p_session].
    destruct (host_server_cleanup h) as [[] | e']; intros ->; simpl;
      repeat split; try done; repeat constructor; done.
  - rewrite Hurl, Hping. cbv beta iota zeta.
    cbn [p_host p_calls p_relay p_redis_client p_session].
    destruct (host_server_cleanup h) as [[] | e']; intros ->; simpl;
      repeat split; try done; repeat constructor; done.
  - rewrite Hurl, Hping, Hsession. cbv beta iota zeta.
    cbn [p_host p_calls p_relay p_redis_client p_session].
    destruct (host_server_cleanup h) as [[] | e']; intros ->; simpl;
      repeat split; try done; repeat constructor; done.
Qed.

(** X. [cleanup] stops at its first failure: when closing the Redis client
    raises, the session is never closed, and that exception replaces
    whatever [main_loop] returned or raised. The mock server is stopped
    all the same. *)
Theorem failed_aclose_leaves_the_session_open
    (h : host) (clock : Q) (n : Z) (b : bool) (e : exn) :
  py_int (getenv h "SEND_INTERVAL" "10") = Some n ->
  host_server_start h = Returns tt ->
  host_from_url h = Returns tt ->
  host_ping h = Returns b ->
  host_client_session h = Returns tt ->
  host_aclose h = Raises e ->
  host_server_cleanup h = Returns tt ->
  let cfg := config_of h n in
  let self := {| config := cfg; redis_client := true; session := true |} in
  let run := main_loop json_loads self (host_startup h) (host_schedule h)
               (host_shutdown h) (boot clock) in
  run.1 <> Returns StillLooping ->
  (main py_int json_loads (launch h clock)).1 = Raises e
  /\ p_calls (main py_int json_loads (launch h clock)).2
     = [CallServerStart; CallFromUrl (redis_url cfg); CallPing;
        CallClientSession ("Bearer " ++ api_key cfg); CallMainLoop;
        CallAclose; CallServerCleanup].
Proof.
  intros Hint Hstart Hurl Hping Hsession Haclose Hstop cfg self run Hended.
  rewrite (main_after_initialize h clock n b Hint Hstart Hurl Hping Hsession).
  fold cfg.
  match goal with
  | |- (?m ?p).1 = _ /\ _ =>
      assert (Hdone : m p
                = (Raises e,
                   {| p_host := h; p_redis_client := true; p_session := true;
                      p_relay := run.2;
                      p_calls := [CallServerStart; CallFromUrl (redis_url cfg);
                                  CallPing;
                                  CallClientSession ("Bearer " ++ api_key cfg);
                                  CallMainLoop; CallAclose; CallServerCleanup] |}));
        [| by rewrite Hdone]
  end.
  unfold try_finally at 1. unfold try_finally at 1.
  unfold run_main_loop. simpl p_host. simpl p_relay.
  match goal with
  | |- context [communicator cfg ?p] => change (communicator cfg p) with self
  end.
  fold run.
  destruct run as [[[] | x] w] eqn:Hrun; simpl in Hended; [| done |].
  - unfold cleanup, bind, read_process, called. simpl.
    rewrite Haclose. simpl. rewrite Hstop. reflexivity.
  - unfold cleanup, bind, read_process, called. simpl.
    rewrite Haclose. simpl. rewrite Hstop. reflexivity.
Qed.

(** X. A send interval that is not an integer, or a mock server that does
    not start, ends [main] before either [try] is entered: no connection
    is opened, the loop does not run, and nothing is cleaned up. *)
Theorem main_cleans_nothing_up_before_its_try (h : host) (clock : Q) (e : exn) :
  py_int (getenv h "SEND_INTERVAL" "10") = None /\ e = RuntimeError
  \/ (exists n, py_int (getenv h "SEND_INTERVAL" "10") = Some n)
     /\ host_server_start h = Raises e ->
  let done := main py_int json_loads (launch h clock) in
  done.1 = Raises e
  /\ p_relay done.2 = boot clock
  /\ p_redis_client done.2 = false
  /\ p_session done.2 = false
  /\ Forall (fun c => c = CallServerStart) (p_calls done.2).
Proof.
  intros Hfails done.
  assert (Hdone : done = main py_int json_loads (launch h clock)) by reflexivity.
  clearbody done. revert Hdone.
  unfold main. unfold bind at 1. unfold read_process at 1. cbv beta iota.
  unfold bind at 1. unfold lift at 1. simpl p_host.
  destruct Hfails as [[Hint ->] | [[n Hint] Hstart]]; rewrite Hint; cbv beta iota.
  - intros ->. simpl. repeat split; constructor.
  - unfold bind at 1. unfold called at 1. simpl p_host. rewrite Hstart.
    cbv beta iota. intros ->. simpl. repeat split; repeat constructor.
Qed.
End Lifecycle.

Lemma main_cleans_up_however_the_loop_ends_witness :
  (sample_int (getenv sample_host "SEND_INTERVAL" "10") = Some 10
   /\ (main_loop sample_loads
         {| config := config_of sample_host 10; redis_client := true;
            session := true |}
         (host_startup sample_host) (host_schedule sample_host)
         (host_shutdown sample_host) (boot 0)).1 <> Returns StillLooping)
  /\ (main sample_int sample_loads (launch sample_host 0)).1 = Returns LoopLeft
  /\ p_calls (main sample_int sample_loads (launch sample_host 0)).2
     = [CallServerStart; CallFromUrl "redis://localhost:6379"; CallPing;
        CallClientSession "Bearer demo-api-key"; CallMainLoop;
        CallAclose; CallSessionClose; CallServerCleanup].
Proof.
  assert (Hended : (main_loop sample_loads
                      {| config := config_of sample_host 10; redis_client := true;
                         session := true |}
                      (host_startup sample_host) (host_schedule sample_host)
                      (host_shutdown sample_host) (boot 0)).1
                   <> Returns StillLooping) by (vm_compute; discriminate).
  split; [split; [reflexivity | exact Hended] |].
  destruct (main_cleans_up_however_the_loop_ends sample_int sample_loads
              sample_host 0 10 true eq_refl eq_refl eq_refl eq_refl eq_refl
              eq_refl eq_refl eq_refl Hended) as (Hresult & _ & Hcalls).
  split; [| exact Hcalls].
  rewrite Hresult. vm_compute. reflexivity.
Defined.

Lemma failed_initialize_leaves_the_client_open_witness :
  (sample_int (getenv no_redis "SEND_INTERVAL" "10") = Some 10
   /\ host_from_url no_redis = Returns tt
   /\ host_ping no_redis = Raises RedisError)
  /\ (main sample_int sample_loads (launch no_redis 0)).1 = Raises RedisError
  /\ p_redis_client (main sample_int sample_loads (launch no_redis 0)).2 = true
  /\ p_calls (main sample_int sample_loads (launch no_redis 0)).2
     = [CallServerStart; CallFromUrl "redis://localhost:6379"; CallPing;
        CallServerCleanup].
Proof.
  split; [by repeat split |].
  destruct (failed_initialize_leaves_the_client_open sample_int sample_loads
              no_redis 0 10 RedisError eq_refl eq_refl
              (or_intror (conj eq_refl (or_introl eq_refl))))
    as (Hresult & _ & _ & _ & _ & Hclient).
  split; [exact Hresult |]. split; [exact (Hclient eq_refl) |].
  vm_compute. reflexivity.
Defined.

Lemma failed_aclose_leaves_the_session_open_witness :
  (host_aclose aclose_fails = Raises RedisError
   /\ (main_loop sample_loads
         {| config := config_of aclose_fails 10; redis_client := true;
            session := true |}
         (host_startup aclose_fails) (host_schedule aclose_fails)
         (host_shutdown aclose_fails) (boot 0)).1 <> Returns StillLooping)
  /\ (main sample_int sample_loads (launch aclose_fails 0)).1 = Raises RedisError
  /\ p_calls (main sample_int sample_loads (launch aclose_fails 0)).2
     = [CallServerStart; CallFromUrl "redis://localhost:6379"; CallPing;
        CallClientSession "Bearer demo-api-key"; CallMainLoop;
        CallAclose; CallServerCleanup].
Proof.
  assert (Hended : (main_loop sample_loads
                      {| config := config_of aclose_fails 10; redis_client := true;
                         session := true |}
                      (host_startup aclose_fails) (host_schedule aclose_fails)
                      (host_shutdown aclose_fails) (boot 0)).1
                   <> Returns StillLooping) by (vm_compute; discriminate).
  split; [split; [reflexivity | exact Hended] |].
  exact (failed_aclose_leaves_the_session_open sample_int sample_loads
           aclose_fails 0 10 true RedisError eq_refl eq_refl eq_refl eq_refl
           eq_refl eq_refl eq_refl Hended).
Defined.

Lemma main_cleans_nothing_up_before_its_try_witness :
  let h := {| host_getenv := fun name =>
                if String.eqb name "SEND_INTERVAL" then Some "ten" else None;
              host_server_start := Returns tt;
              host_from_url := Returns tt;
              host_ping := Returns true;
              host_client_session := Returns tt;
              host_aclose := Returns tt;
              host_session_close := Returns tt;
              host_server_cleanup := Returns tt;
              host_startup := no_reading;
              host_schedule := [no_reading];
              host_shutdown := no_reading |} in
  sample_int (getenv h "SEND_INTERVAL" "10") = None
  /\ (main sample_int sample_loads (launch h 0)).1 = Raises RuntimeError
  /\ p_calls (main sample_int sample_loads (launch h 0)).2 = [].
Proof.
  intros h. split; [reflexivity |].
  destruct (main_cleans_nothing_up_before_its_try sample_int sample_loads h 0
              RuntimeError (or_introl (conj eq_refl eq_refl)))
    as (Hresult & _ & _ & _ & _).
  split; [exact Hresult |]. vm_compute. reflexivity.
Defined.

(** ** The sensor generators, step by step *)

Section SensorSteps.
Local Open Scope R_scope.

Lemma Rabs_within (a b : R) : Rabs a <= b -> - b <= a <= b.
Proof. unfold Rabs. destruct (Rcase_abs a); lra. Qed.

Lemma round_half_even_near (x : R) : Rabs (IZR (round_half_even x) - x) <= 1 / 2.
Proof.
  destruct (Int_part_bounds x) as [Hlo Hup].
  unfold round_half_even.
  destruct (Rlt_dec (x - IZR (Int_part x)) (1 / 2)) as [Hlt | Hge].
  { apply Rabs_le. lra. }
  destruct (Rlt_dec (1 / 2) (x - IZR (Int_part x))) as [Hgt | Hle].
  { rewrite plus_IZR. apply Rabs_le. lra. }
  destruct (Z.even (Int_part x)); [| rewrite plus_IZR]; apply Rabs_le; lra.
Qed.

Lemma round_near (x : R) (ndigits : nat) :
  Rabs (round x ndigits - x) <= 1 / 2 / 10 ^ ndigits.
Proof.
  assert (Hpos : 0 < 10 ^ ndigits) by (apply pow_lt; lra).
  unfold round.
  replace (IZR (round_half_even (x * 10 ^ ndigits)) / 10 ^ ndigits - x)
    with ((IZR (round_half_even (x * 10 ^ ndigits)) - x * 10 ^ ndigits)
          / 10 ^ ndigits) by (field; lra).
  unfold Rdiv at 1. rewrite Rabs_mult, (Rabs_right (/ 10 ^ ndigits)).
  2: { left. by apply Rinv_0_lt_compat. }
  apply Rmult_le_compat_r; [left; by apply Rinv_0_lt_compat |].
  apply round_half_even_near.
Qed.

Lemma Int_part_mono (x y : R) : x <= y -> (Int_part x <= Int_part y)%Z.
Proof.
  intros Hxy.
  destruct (Int_part_bounds x) as [Hx _]. destruct (Int_part_bounds y) as [_ Hy].
  apply Z.lt_succ_r, lt_IZR. rewrite succ_IZR. lra.
Qed.

Lemma round_half_even_mono (x y : R) :
  x <= y -> (round_half_even x <= round_half_even y)%Z.
Proof.
  intros Hxy. pose proof (Int_part_mono x y Hxy) as Hfloor.
  destruct (Z.eq_dec (Int_part x) (Int_part y)) as [Heq | Hne].
  - unfold round_half_even. rewrite <- Heq.
    destruct (Rlt_dec (x - IZR (Int_part x)) (1 / 2)) as [Hx | Hx];
      destruct (Rlt_dec (y - IZR (Int_part x)) (1 / 2)) as [Hy | Hy];
      try lia; try lra.
    { destruct (Rlt_dec (1 / 2) (y - IZR (Int_part x))); [lia |].
      destruct (Z.even (Int_part x)); lia. }
    destruct (Rlt_dec (1 / 2) (x - IZR (Int_part x))) as [Hx' | Hx'];
      destruct (Rlt_dec (1 / 2) (y - IZR (Int_part x))) as [Hy' | Hy'];
      try lia; try lra.
    destruct (Z.even (Int_part x)); lia.
  - assert (Hlow : (Int_part y <= round_half_even y)%Z)
      by (destruct (round_half_even_cases y) as [-> | [-> _]]; lia).
    destruct (round_half_even_cases x) as [-> | [-> _]]; lia.
Qed.

Lemma round_mono (x y : R) (ndigits : nat) :
  x <= y -> round x ndigits <= round y ndigits.
Proof.
  intros Hxy. assert (Hpos : 0 < 10 ^ ndigits) by (apply pow_lt; lra).
  unfold round. apply Rmult_le_compat_r; [left; by apply Rinv_0_lt_compat |].
  apply IZR_le, round_half_even_mono. by apply Rmult_le_compat_r; [left |].
Qed.

(** X. One call of the outdoor generator moves the trend by a tenth of a
    degree at most, whatever the clock and the draws: the clamp only ever
    shortens the step. *)
Theorem outdoor_trend_moves_by_a_tenth (self : SensorSimulator)
    (now r_trend r_noise : R) :
  reachable self -> is_draw r_trend ->
  Rabs (outdoor_temp_trend (snd (generate_outdoor_temperature self now r_trend r_noise))
        - outdoor_temp_trend self) <= 0.1.
Proof.
  intros Hreach Hdraw.
  destruct (reachable_invariant self Hreach) as (_ & _ & _ & _ & Htrend).
  pose proof (uniform_bounds (-0.1) 0.1 r_trend ltac:(lra) Hdraw) as Hstep.
  cbn [generate_outdoor_temperature snd outdoor_temp_trend].
  set (t := outdoor_temp_trend self) in *.
  set (s := uniform (-0.1) 0.1 r_trend) in *.
  apply Rabs_le.
  unfold Rmax, Rmin.
  destruct (Rle_dec 5 (t + s)); destruct (Rle_dec (-5) 5); try lra;
    destruct (Rle_dec (-5) (t + s)); lra.
Qed.

(** The hour of the day at which [now] falls, as the outdoor generator
    computes it. *)
Lemma noon_daily_variation (now : R) :
  fmod now 86400 = 43200 ->
  sin ((fmod now 86400 / 3600 - 6) * PI / 12) = 1.
Proof.
  intros ->. replace ((43200 / 3600 - 6) * PI / 12) with (PI / 2) by lra.
  apply sin_PI2.
Qed.

Lemma two_pm_daily_variation (now : R) :
  fmod now 86400 = 50400 ->
  sin ((fmod now 86400 / 3600 - 6) * PI / 12) * 8 < 7.
Proof.
  intros ->. replace ((50400 / 3600 - 6) * PI / 12) with (PI - PI / 3) by lra.
  rewrite sin_PI_x, sin_PI3.
  assert (Hsqrt : sqrt 3 < 7 / 4).
  { apply Rsqr_incrst_0; [| apply sqrt_pos | lra].
    rewrite Rsqr_sqrt by lra. unfold Rsqr. lra. }
  lra.
Qed.

(** X. The daily term of the outdoor generator is highest at 12:00 UTC:
    for the same emitter state and the same draws, the reading of no
    other moment exceeds the reading at noon, and the reading at 14:00
    UTC is lower than it by more than 0.9 degrees. *)
Theorem outdoor_reading_peaks_at_noon (self : SensorSimulator)
    (noon now r_trend r_noise : R) :
  fmod noon 86400 = 43200 ->
  let reading t := fst (generate_outdoor_temperature self t r_trend r_noise) in
  reading now <= reading noon
  /\ (fmod now 86400 = 50400 -> reading now < reading noon - 0.9).
Proof.
  intros Hnoon reading. subst reading.
  cbn [generate_outdoor_temperature fst].
  rewrite (noon_daily_variation noon Hnoon).
  set (angle := (fmod now 86400 / 3600 - 6) * PI / 12).
  set (rest := uniform (-1) 1 r_noise).
  split.
  - apply round_mono. pose proof (SIN_bound angle) as Hs. lra.
  - intros Htwo. pose proof (two_pm_daily_variation now Htwo) as Hlow.
    fold angle in Hlow.
    pose proof (round_near
      (base_outdoor_temp self + sin angle * 8 + outdoor_temp_trend self + rest) 1)
      as Hnear1.
    pose proof (round_near
      (base_outdoor_temp self + 1 * 8 + outdoor_temp_trend self + rest) 1) as Hnear2.
    apply Rabs_within in Hnear1, Hnear2. simpl pow in Hnear1, Hnear2. lra.
Qed.
End SensorSteps.

Lemma outdoor_trend_moves_by_a_tenth_witness :
  (reachable (cooled 20) /\ is_draw 0)
  /\ (Rabs (outdoor_temp_trend
              (snd (generate_outdoor_temperature (cooled 20) midnight 0 0))
            - outdoor_temp_trend (cooled 20)) <= 0.1)%R.
Proof.
  split; [split; [apply cooled_reachable | apply is_draw_0] |].
  exact (outdoor_trend_moves_by_a_tenth (cooled 20) midnight 0 0
           (cooled_reachable 20) is_draw_0).
Defined.

(** Twelve hours after an epoch midnight. *)
Lemma fmod_half_day : fmod 43200 86400 = 43200%R.
Proof.
  assert (Hfloor : Int_part (43200 / 86400) = 0%Z).
  { symmetry. apply Int_part_spec. lra. }
  unfold fmod. rewrite Hfloor. lra.
Qed.

Lemma outdoor_reading_peaks_at_noon_witness :
  fmod 43200 86400 = 43200%R
  /\ (fst (generate_outdoor_temperature new_simulator 0 0 0)
      <= fst (generate_outdoor_temperature new_simulator 43200 0 0))%R.
Proof.
  split; [exact fmod_half_day |].
  exact (proj1 (outdoor_reading_peaks_at_noon new_simulator 43200 0 0 0
                  fmod_half_day)).
Defined.

(** ** The sensor emitters' publish loops *)


Lemma published_app (t1 t2 : list event) :
  published (t1 ++ t2) = published t1 ++ published t2.
Proof. apply omap_app. Qed.

Section SensorLoop.
Variable self : SensorLink.
Variable sensor_type : string.
Variable period : Q.

(** [send_sensor_data] in the scripted world: one publish if there is a
    client, and only an interruption of it gets out. *)
Lemma send_sensor_data_world (value : json) (w : world) :
  send_sensor_data self sensor_type value w
  = if sensor_redis_client self then
      match env_publish (w_env w) (w_calls w) with
      | Returns _ => (Returns tt, awaited (attempt self sensor_type value w) w)
      | Raises e =>
          if is_Exception e then (Returns tt, awaited (attempt self sensor_type value w) w)
          else (Raises e, awaited (attempt self sensor_type value w) w)
      end
    else (Returns tt, w).
Proof.
  unfold send_sensor_data, try_except, bind, except_Exception, attempt. simpl.
  destruct (sensor_redis_client self); simpl; [| done].
  destruct (env_publish (w_env w) (w_calls w)) as [n | e]; simpl; [done |].
  by destruct (is_Exception e).
Qed.

Lemma send_sensor_data_sent (value : json) (w : world) :
  (send_sensor_data self sensor_type value w).2 = sent self sensor_type value w.
Proof.
  rewrite send_sensor_data_world. unfold sent.
  destruct (sensor_redis_client self); [| done].
  destruct (env_publish (w_env w) (w_calls w)) as [n | e]; [done |].
  by destruct (is_Exception e).
Qed.

Lemma sent_same (value : json) (w : world) :
  w_env (sent self sensor_type value w) = w_env w /\ running (sent self sensor_type value w) = running w
  /\ w_trace (sent self sensor_type value w)
     = w_trace w ++ (if sensor_redis_client self then [attempt self sensor_type value w] else []).
Proof.
  unfold sent. destruct (sensor_redis_client self); simpl; [done |].
  by rewrite app_nil_r.
Qed.

(** An iteration that nothing interrupts: the publish, which may fail,
    and the sleep of one period. *)
Lemma sensor_cycle_undisturbed (value : json) (w : world) :
  (forall n, benign (env_publish (w_env w) n)) ->
  (forall n, exists late, env_sleep (w_env w) n = Returns late) ->
  exists late,
    sensor_cycle self sensor_type period value w
    = (Returns Next, slept period (period + late) (sent self sensor_type value w)).
Proof.
  intros Hpublish Hsleep.
  destruct (Hsleep (w_calls (sent self sensor_type value w))) as [late Hlate]. exists late.
  assert (Hsend : send_sensor_data self sensor_type value w
                  = (Returns tt, sent self sensor_type value w)).
  { rewrite send_sensor_data_world. unfold sent.
    destruct (sensor_redis_client self); [| done].
    specialize (Hpublish (w_calls w)).
    destruct (env_publish (w_env w) (w_calls w)) as [n | e]; [done |].
    simpl in Hpublish. by rewrite Hpublish. }
  unfold sensor_cycle, try_except. unfold bind at 1. rewrite Hsend.
  unfold bind, ret. simpl.
  destruct (sent_same value w) as (Henv & _ & _). rewrite Henv in *.
  by rewrite Hlate.
Qed.

(** Any iteration: what it publishes, and that it leaves [self.running]
    alone. *)
Lemma sensor_cycle_published (value : json) (w : world) :
  published (w_trace (sensor_cycle self sensor_type period value w).2)
  = published (w_trace w)
    ++ (if sensor_redis_client self
        then [(sensor_channel sensor_type,
               sensor_data self (env_utcnow (w_env w) (w_calls w)) sensor_type value)]
        else []).
Proof.
  assert (Hsent : published (w_trace (sent self sensor_type value w))
            = published (w_trace w)
              ++ (if sensor_redis_client self
                  then [(sensor_channel sensor_type,
                         sensor_data self (env_utcnow (w_env w) (w_calls w))
                           sensor_type value)]
                  else [])).
  { destruct (sent_same value w) as (_ & _ & ->). rewrite published_app.
    by destruct (sensor_redis_client self). }
  rewrite <- Hsent. clear Hsent.
  pose proof (send_sensor_data_sent value w) as Hworld.
  unfold sensor_cycle, try_except. unfold bind at 1.
  destruct (send_sensor_data self sensor_type value w) as [[[] | e] w1];
    simpl in Hworld; subst w1.
  - unfold bind, ret, except_Exception. simpl.
    destruct (env_sleep (w_env (sent self sensor_type value w)) (w_calls (sent self sensor_type value w)))
      as [late | x]; simpl.
    { rewrite published_app. simpl. by rewrite app_nil_r. }
    destruct x; simpl;
      repeat match goal with
             | |- context [env_sleep ?e ?n] => destruct (env_sleep e n); simpl
             end;
      rewrite ?published_app; simpl; by rewrite ?app_nil_r.
  - unfold bind, ret, except_Exception.
    destruct e; simpl;
      repeat match goal with
             | |- context [env_sleep ?e ?n] => destruct (env_sleep e n); simpl
             end;
      rewrite ?published_app; simpl; by rewrite ?app_nil_r.
Qed.

Lemma sensor_cycle_running (value : json) (w : world) :
  running (sensor_cycle self sensor_type period value w).2 = running w.
Proof.
  pose proof (send_sensor_data_sent value w) as Hworld.
  destruct (sent_same value w) as (_ & Hsame & _).
  unfold sensor_cycle, try_except. unfold bind at 1.
  destruct (send_sensor_data self sensor_type value w) as [[[] | e] w1];
    simpl in Hworld; subst w1.
  - unfold bind, ret, except_Exception. simpl.
    destruct (env_sleep (w_env (sent self sensor_type value w))
                (w_calls (sent self sensor_type value w))) as [late | x]; simpl;
      [done |].
    destruct x; simpl;
      repeat match goal with
             | |- context [env_sleep ?e ?n] => destruct (env_sleep e n); simpl
             end;
      done.
  - unfold bind, ret, except_Exception.
    destruct e; simpl;
      repeat match goal with
             | |- context [env_sleep ?e ?n] => destruct (env_sleep e n); simpl
             end;
      done.
Qed.

(** The iterations a sensor loop starts, what they publish, and why no
    further one is started. *)
Lemma sensor_loop_iterations (schedule : list (json * env))
    (w : world) (r : outcome loop_end) (w' : world) :
  sensor_loop self sensor_type period schedule w = (r, w') ->
  exists k,
    (k <= length schedule)%nat
    /\ published (w_trace w')
       = published (w_trace w)
         ++ (if sensor_redis_client self
             then sensor_messages self sensor_type (take k schedule)
             else [])
    /\ (r = Returns StillLooping -> k = length schedule)
    /\ (running w = false -> k = 0%nat)
    /\ (running w = true -> schedule <> [] -> (0 < k)%nat)
    /\ (forall j it, (S j < k)%nat -> schedule !! j = Some it ->
          env_stop it.2 = false)
    /\ (running w = true ->
        forall next, schedule !! k = Some next ->
          exists it,
            schedule !! (k - 1)%nat = Some it
            /\ ((env_stop it.2 = true /\ r = Returns LoopLeft /\ running w' = false)
                \/ (r = Returns LoopLeft /\ running w' = true)
                \/ exists x, r = Raises x)).
Proof.
  revert w r w'. induction schedule as [| [value e] rest IH]; intros w r w'.
  - simpl. intros Hrun. exists 0%nat.
    assert (Hw : w' = w) by (destruct (running w); by injection Hrun as _ <-).
    subst w'. split; [done |]. split.
    { destruct (sensor_redis_client self); by rewrite app_nil_r. }
    split; [done |]. split; [done |]. split; [done |].
    split; [intros j it Hj; lia | done].
  - simpl sensor_loop. destruct (running w) eqn:Hrunning; simpl negb; cbv iota.
    2: { intros [= <- <-]. exists 0%nat. split; [lia |]. split.
         { simpl. destruct (sensor_redis_client self); by rewrite app_nil_r. }
         split; [done |]. split; [done |]. split; [done |].
         split; [intros j it Hj; lia | done]. }
    pose proof (sensor_cycle_published value (with_env e w)) as Hcycle.
    pose proof (sensor_cycle_running value (with_env e w)) as Hsame.
    simpl w_trace in Hcycle. simpl w_env in Hcycle. simpl w_calls in Hcycle.
    simpl running in Hsame. rewrite Hrunning in Hsame.
    destruct (sensor_cycle self sensor_type period value (with_env e w))
      as [[[] | x] w1]; simpl in Hcycle, Hsame.
    + intros Hrest.
      destruct (IH _ _ _ Hrest)
        as (k & Hk & Hpub & Hend & Hnone & Hsome & Hbefore & Hwhy).
      assert (Htrace : w_trace (if env_stop e then with_running false w1 else w1)
                       = w_trace w1) by (by destruct (env_stop e)).
      assert (Hgoing : running (if env_stop e then with_running false w1 else w1)
                       = negb (env_stop e)).
      { destruct (env_stop e); [done | by rewrite Hsame]. }
      exists (S k). split; [simpl; lia |]. split.
      { rewrite Hpub, Htrace, Hcycle, <- app_assoc. f_equal.
        by destruct (sensor_redis_client self). }
      split; [intros Hstill; simpl; f_equal; by apply Hend |].
      split; [done |]. split; [intros _ _; lia |]. split.
      { intros j it Hj Hit. destruct j as [| j].
        - injection Hit as <-. simpl.
          destruct (env_stop e) eqn:Hstop; [| done].
          rewrite Hnone in Hj by (by rewrite Hgoing). lia.
        - simpl in Hit. apply (Hbefore j it); [lia | done]. }
      intros _ next Hnext. simpl in Hnext.
      destruct k as [| k].
      * exists (value, e). split; [done |]. left. simpl.
        assert (Hstopped : env_stop e = true).
        { destruct (env_stop e) eqn:Hstop; [done |].
          assert (Hrest_some : rest <> []) by (by destruct rest).
          simpl in Hgoing, Hsome. specialize (Hsome Hgoing Hrest_some). lia. }
        split; [exact Hstopped |].
        rewrite Hstopped in Hrest. destruct rest as [| [v' e'] rest'];
          simpl in Hrest; by injection Hrest as <- <-.
      * assert (Hon : running (if env_stop e then with_running false w1 else w1)
                      = true).
        { destruct (running (if env_stop e then with_running false w1 else w1))
            eqn:Hr; [done |]. specialize (Hnone eq_refl). lia. }
        destruct (Hwhy Hon next Hnext) as (it & Hit & Hreason).
        exists it. split; [| exact Hreason].
        replace (S (S k) - 1)%nat with (S (S k - 1)) by lia. exact Hit.
    + intros [= <- <-]. exists 1%nat. split; [simpl; lia |]. split.
      { simpl. rewrite Hcycle. by destruct (sensor_redis_client self). }
      split; [done |]. split; [done |]. split; [intros _ _; lia |]. split.
      { intros j it Hj. lia. }
      intros _ next _. exists (value, e). split; [done |]. right. by left.
    + intros [= <- <-]. exists 1%nat. split; [simpl; lia |]. split.
      { simpl. rewrite Hcycle. by destruct (sensor_redis_client self). }
      split; [done |]. split; [done |]. split; [intros _ _; lia |]. split.
      { intros j it Hj. lia. }
      intros _ next _. exists (value, e). split; [done |]. right. right.
      by exists x.
Qed.

(** X. A sensor loop publishes the readings of the first [k] iterations
    of its schedule, in order and each once, on the channel of its sensor
    type and with the plate of the emitter, and nothing else; an emitter
    without a client publishes nothing. These [k] iterations are the
    ones it started: none if [self.running] was cleared at the start, at
    least the first otherwise, and all of them if the loop is still
    going; [self.running] was not cleared during any of them but the
    last; and if an iteration is left over, then [self.running] was
    cleared during the last one started, or that one was cancelled, or
    it raised. *)
Theorem sensor_loop_publishes_each_reading_once
    (schedule : list (json * env)) (w : world) :
  let run := sensor_loop self sensor_type period schedule w in
  exists k,
    (k <= length schedule)%nat
    /\ published (w_trace run.2)
       = published (w_trace w)
         ++ (if sensor_redis_client self
             then sensor_messages self sensor_type (take k schedule)
             else [])
    /\ (run.1 = Returns StillLooping -> k = length schedule)
    /\ (running w = false -> k = 0%nat)
    /\ (running w = true -> schedule <> [] -> (0 < k)%nat)
    /\ (forall j it, (S j < k)%nat -> schedule !! j = Some it ->
          env_stop it.2 = false)
    /\ (running w = true ->
        forall next, schedule !! k = Some next ->
          exists it,
            schedule !! (k - 1)%nat = Some it
            /\ ((env_stop it.2 = true /\ run.1 = Returns LoopLeft
                 /\ running run.2 = false)
                \/ (run.1 = Returns LoopLeft /\ running run.2 = true)
                \/ exists x, run.1 = Raises x)).
Proof.
  intros run.
  destruct run as [r w'] eqn:Hrun. subst run.
  exact (sensor_loop_iterations schedule w r w' Hrun).
Qed.

(** X. A store that fails does not slow a sensor loop down, let alone
    stop it: as long as sleeps return and nobody clears [self.running],
    every iteration attempts its publish and sleeps one period, whether
    the publish fails or not, and the loop goes on. The pause of one
    second is never taken. *)
Theorem sensor_loop_outlives_a_failing_store
    (schedule : list (json * env)) (w : world) :
  running w = true ->
  Forall (fun it : json * env => sensor_undisturbed it.2) schedule ->
  (sensor_loop self sensor_type period schedule w).1 = Returns StillLooping
  /\ w_trace (sensor_loop self sensor_type period schedule w).2
     = w_trace w ++ sensor_events self sensor_type period schedule
  /\ running (sensor_loop self sensor_type period schedule w).2 = true.
Proof.
  revert w. induction schedule as [| [value e] rest IH]; intros w Hrunning Hquiet.
  - simpl. rewrite Hrunning. simpl. by rewrite app_nil_r.
  - inversion Hquiet as [| it its (Hpublish & Hsleep & Hstop) Hrest]; subst.
    simpl in Hpublish, Hsleep, Hstop.
    simpl sensor_loop. rewrite Hrunning. simpl negb. cbv iota.
    destruct (sensor_cycle_undisturbed value (with_env e w) Hpublish Hsleep)
      as [late ->].
    rewrite Hstop.
    destruct (sent_same value (with_env e w)) as (_ & Hrun & Htrace).
    destruct (IH (slept period (period + late) (sent self sensor_type value (with_env e w))))
      as (Hend & Hevents & Hstill); [by rewrite <- Hrunning | done |].
    split; [exact Hend |]. split; [| exact Hstill].
    rewrite Hevents. simpl w_trace. rewrite Htrace. simpl.
    unfold attempt, sensor_events. simpl.
    repeat rewrite <- app_assoc. reflexivity.
Qed.

(** Where the [try] block of an iteration can be interrupted. *)
Lemma sensor_body_raises (value : json) (w : world) (x : exn) :
  let body := (send_sensor_data self sensor_type value ;;;
               asyncio_sleep period ;;; ret Next) w in
  body.1 = Raises x ->
  running body.2 = running w
  /\ (w_trace body.2 = w_trace w ++ [attempt self sensor_type value w]
      \/ w_trace body.2
         = w_trace (sent self sensor_type value w) ++ [EvSleep period]).
Proof.
  cbv zeta. unfold bind, ret. rewrite send_sensor_data_world. unfold sent.
  destruct (sensor_redis_client self).
  - destruct (env_publish (w_env w) (w_calls w)) as [n | y];
      [| destruct (is_Exception y)]; simpl.
    + destruct (env_sleep (w_env w) (S (w_calls w))) as [late | z]; simpl; [done |].
      intros _. split; [done | by right].
    + destruct (env_sleep (w_env w) (S (w_calls w))) as [late | z]; simpl; [done |].
      intros _. split; [done | by right].
    + intros _. split; [done | by left].
  - simpl.
    destruct (env_sleep (w_env w) (w_calls w)) as [late | z]; simpl; [done |].
    intros _. split; [done | by right].
Qed.

(** X. A cancellation that arrives in the [try] block of an iteration,
    at the publish or at the sleep of the period, ends the loop without
    an exception: the loop returns, no later iteration runs, no pause is
    taken, and [self.running] is left as it was. *)
Theorem cancelled_sensor_loop_returns
    (value : json) (e : env) (later : list (json * env)) (w : world) :
  let body := (send_sensor_data self sensor_type value ;;;
               asyncio_sleep period ;;; ret Next) (with_env e w) in
  running w = true ->
  body.1 = Raises CancelledError ->
  sensor_loop self sensor_type period ((value, e) :: later) w
  = (Returns LoopLeft, body.2)
  /\ running body.2 = true
  /\ (w_trace body.2 = w_trace w ++ [attempt self sensor_type value (with_env e w)]
      \/ w_trace body.2
         = w_trace (sent self sensor_type value (with_env e w)) ++ [EvSleep period]).
Proof.
  intros body Hrunning Hbody.
  destruct (sensor_body_raises value (with_env e w) CancelledError Hbody)
    as [Hsame Htrace].
  fold body in Hsame, Htrace.
  split; [| split; [by rewrite Hsame | exact Htrace]].
  simpl sensor_loop. rewrite Hrunning. simpl negb. cbv iota.
  unfold sensor_cycle, try_except. fold body.
  destruct body as [[go | y] wb]; simpl in Hbody; [done |].
  injection Hbody as ->. reflexivity.
Qed.


End SensorLoop.

Lemma redis_down_undisturbed : sensor_undisturbed redis_down.
Proof.
  split; [intros n; reflexivity |]. split; [| reflexivity].
  intros n. by exists 0%Q.
Qed.

Lemma sensor_loop_outlives_a_failing_store_witness :
  let schedule := [(JNum 21, redis_down); (JNum 22, redis_down)] in
  (running (with_running true (boot 0)) = true
   /\ Forall (fun it : json * env => sensor_undisturbed it.2) schedule)
  /\ (temperature_sensor_loop sample_link schedule (with_running true (boot 0))).1
     = Returns StillLooping
  /\ Forall (fun ev => is_sleep ev -> ev = EvSleep (1 # 10))
       (w_trace (temperature_sensor_loop sample_link schedule
                   (with_running true (boot 0))).2).
Proof.
  intros schedule.
  assert (Hquiet : Forall (fun it : json * env => sensor_undisturbed it.2) schedule).
  { constructor; [exact redis_down_undisturbed |].
    constructor; [exact redis_down_undisturbed | constructor]. }
  split; [split; [reflexivity | exact Hquiet] |].
  destruct (sensor_loop_outlives_a_failing_store sample_link "indoorTemp" (1 # 10)
              schedule (with_running true (boot 0)) eq_refl Hquiet)
    as (Hend & Htrace & _).
  split; [exact Hend |].
  unfold temperature_sensor_loop. rewrite Htrace.
  repeat constructor; simpl; intros H; reflexivity || destruct H.
Defined.

Lemma cancelled_sensor_loop_returns_witness :
  let w := with_running true (boot 0) in
  (running w = true
   /\ ((send_sensor_data sample_link "gps" (JNum 1) ;;;
        asyncio_sleep 1 ;;; ret Next) (with_env cancelled_asleep w)).1
      = Raises CancelledError)
  /\ (gps_sensor_loop sample_link
        [(JNum 1, cancelled_asleep); (JNum 2, cancelled_asleep)] w).1
     = Returns LoopLeft.
Proof.
  intros w. split; [split; reflexivity |].
  destruct (cancelled_sensor_loop_returns sample_link "gps" 1 (JNum 1)
              cancelled_asleep [(JNum 2, cancelled_asleep)] w eq_refl eq_refl)
    as (Hloop & _ & _).
  unfold gps_sensor_loop. by rewrite Hloop.
Defined.

